(** * ansible-recursive: the [r_copy] and [template_recursive] action plugins

    A shallow embedding of [plugins/action/r_copy.py] and
    [plugins/action/template_recursive.py], and the properties of the two
    plugins that their specification states.

    Layout: the Python library functions the plugins call ([os.path],
    [str] methods), the data the plugins exchange with Ansible, the two
    plugins, and then the lemmas. *)

From Stdlib Require Import String Ascii List Bool Arith ZArith Lia.
From Stdlib Require Import Sorting.Sorted Sorting.Permutation.
From Stdlib Require Import Numbers.DecimalString.
Import ListNotations.
Open Scope list_scope.
Open Scope string_scope.

(* ================================================================= *)
(** ** Python strings *)

(** A Python [str] is modelled by a Rocq [string], one [ascii] for each
    character; [len] is [String.length]. *)

Module pystr.

(** [text.startswith(prefix)] *)
Fixpoint startswith (text prefix : string) {struct prefix} : bool :=
  match prefix, text with
  | EmptyString, _ => true
  | String p ps, String t ts => Ascii.eqb t p && startswith ts ps
  | String _ _, EmptyString => false
  end.

(** [text.endswith(suffix)]: the last [len(suffix)] characters of [text]
    are [suffix]. *)
Definition endswith (text suffix : string) : bool :=
  let n := String.length text in
  let k := String.length suffix in
  (k <=? n)%nat && String.eqb (substring (n - k) k text) suffix.

(** [text.rstrip(chars)] for a one-character [chars]: every trailing
    occurrence of the character is removed. *)
Fixpoint rstrip (c : ascii) (text : string) : string :=
  match text with
  | EmptyString => EmptyString
  | String a r =>
      match rstrip c r with
      | EmptyString => if Ascii.eqb a c then EmptyString else String a EmptyString
      | r' => String a r'
      end
  end.

(** [text.rfind(c)]: the highest index of [c] in [text], or [-1]. *)
Fixpoint rfind (c : ascii) (text : string) : Z :=
  match text with
  | EmptyString => (-1)%Z
  | String a r =>
      let k := rfind c r in
      if (0 <=? k)%Z then (k + 1)%Z
      else if Ascii.eqb a c then 0%Z else (-1)%Z
  end.

(** [c * n] *)
Fixpoint times (c : ascii) (n : nat) : string :=
  match n with
  | O => EmptyString
  | S n' => String c (times c n')
  end.

(** [text[:i]] for [0 <= i]. *)
Definition slice_to (text : string) (i : Z) : string :=
  substring 0 (Z.to_nat i) text.

(** [text.lower()] on ASCII letters. *)
Definition lower_char (a : ascii) : ascii :=
  let n := nat_of_ascii a in
  if ((65 <=? n) && (n <=? 90))%nat then ascii_of_nat (n + 32) else a.

Fixpoint lower (text : string) : string :=
  match text with
  | EmptyString => EmptyString
  | String a r => String (lower_char a) (lower r)
  end.

(** [x in l] for a list of strings. *)
Definition mem (x : string) (l : list string) : bool :=
  existsb (String.eqb x) l.

(** [str(n)] for an integer. *)
Definition of_Z (z : Z) : string := NilZero.string_of_int (Z.to_int z).

End pystr.

(* ================================================================= *)
(** ** [os.path] on POSIX ([posixpath]) *)

Module posixpath.

Definition sep : ascii := "/"%char.

(** [os.path.isabs(p)]: [p.startswith("/")]. *)
Definition isabs (p : string) : bool := pystr.startswith p "/".

(** [os.path.dirname(p)]:
<<
    i = p.rfind(sep) + 1
    head = p[:i]
    if head and head != sep*len(head):
        head = head.rstrip(sep)
    return head
>> *)
Definition dirname (p : string) : string :=
  let i := (pystr.rfind sep p + 1)%Z in
  let head := pystr.slice_to p i in
  if negb (String.eqb head "")
     && negb (String.eqb head (pystr.times sep (String.length head)))
  then pystr.rstrip sep head
  else head.

(** [os.path.join(a, b)]:
<<
    if b.startswith(sep):               path = b
    elif not path or path.endswith(sep): path += b
    else:                                path += sep + b
>> *)
Definition join (a b : string) : string :=
  if pystr.startswith b "/" then b
  else if String.eqb a "" || pystr.endswith a "/" then a ++ b
  else a ++ "/" ++ b.

(** [os.path.relpath(path, start)] for a [path] that lies below [start]:
    the names that lead from [start] to [path], joined by the separator.
    The argument is that list of names. *)
Definition relpath_below (names : list string) : string :=
  String.concat "/" names.

End posixpath.

(* ================================================================= *)
(** ** Python values the plugins handle *)

Module py.

(** The exceptions the modelled code can raise. *)
Inductive exn : Type :=
| AssertionError (message : string)
| ValueError (message : string).

(** What running a piece of Python gives: a value, an exception that
    leaves the function, or ([Diverge]) a loop of the model that reached
    its iteration bound.  [parents_facts.get_all_parent_dirs_total] shows that the
    last case never happens. *)
Inductive res (A : Type) : Type :=
| Ret (a : A)
| Raise (e : exn)
| Diverge.

Arguments Ret {A} a.
Arguments Raise {A} e.
Arguments Diverge {A}.

(** A scalar of the task arguments: a string, or a value that
    [isinstance(_, str)] rejects (YAML reads an unquoted [0755] as an
    integer). *)
Inductive scalar : Type :=
| SStr (s : string)
| SInt (z : Z).

(** [f"{x}"] *)
Definition format (x : scalar) : string :=
  match x with
  | SStr s => s
  | SInt z => pystr.of_Z z
  end.

(** [f"{type(x)}"] *)
Definition format_type (x : scalar) : string :=
  match x with
  | SStr _ => "<class 'str'>"
  | SInt _ => "<class 'int'>"
  end.

(** The double quote character, for the messages. *)
Definition dq : string := String "034"%char EmptyString.

(** [repr] of a string: between single quotes, or between double quotes
    when the string holds a single quote and no double quote; the quote
    in use and the backslash are escaped, tab, newline and carriage
    return are written [\t], [\n] and [\r], and the other control
    characters [\xNN].  (A character above 127 is printed as it is.) *)
Definition contains (c : ascii) (s : string) : bool :=
  existsb (Ascii.eqb c) (list_ascii_of_string s).

Definition hex_digit (n : nat) : string := substring n 1 "0123456789abcdef".

Definition repr_char (quote c : ascii) : string :=
  if Ascii.eqb c quote || Ascii.eqb c "\"%char then String "\"%char (String c "")
  else if Ascii.eqb c "009"%char then "\t"
  else if Ascii.eqb c "010"%char then "\n"
  else if Ascii.eqb c "013"%char then "\r"
  else if (nat_of_ascii c <? 32)%nat || (nat_of_ascii c =? 127)%nat
       then "\x" ++ hex_digit (nat_of_ascii c / 16) ++ hex_digit (nat_of_ascii c mod 16)
       else String c "".

Definition repr_str (s : string) : string :=
  let quote :=
    if contains "'"%char s && negb (contains "034"%char s)
    then "034"%char else "'"%char in
  String quote
         (String.concat "" (map (repr_char quote) (list_ascii_of_string s))
          ++ String quote "").

(** [repr] of a list and of a set of strings, as the messages print them.
    Python does not fix the order in which a set is printed; here it is
    the order in which the members were put in. *)

Definition repr_list (l : list string) : string :=
  "[" ++ String.concat ", " (map repr_str l) ++ "]".

Definition repr_set (l : list string) : string :=
  match l with
  | [] => "set()"
  | _ => "{" ++ String.concat ", " (map repr_str l) ++ "}"
  end.

(** A set of strings, held as a list without repetition: [s.add(x)],
    [set(l)] and [a - set(b)]. *)
Definition set_add (s : list string) (x : string) : list string :=
  if pystr.mem x s then s else s ++ [x].

Definition set_of (l : list string) : list string := fold_left set_add l [].

Definition set_minus (a b : list string) : list string :=
  filter (fun x => negb (pystr.mem x b)) a.

(** [l.remove(x)]: the first occurrence goes; [ValueError] if there is none. *)
Fixpoint list_remove (x : string) (l : list string) : res (list string) :=
  match l with
  | [] => Raise (ValueError "list.remove(x): x not in list")
  | y :: r =>
      if String.eqb y x then Ret r
      else match list_remove x r with
           | Ret r' => Ret (y :: r')
           | Raise e => Raise e
           | Diverge => Diverge
           end
  end.

(** [sorted(l, key=len)]: Python's sort is stable, so the result is the
    one of a stable insertion sort on the lengths. *)
Fixpoint insert_by_len (x : string) (l : list string) : list string :=
  match l with
  | [] => [x]
  | y :: r =>
      if (String.length x <=? String.length y)%nat then x :: y :: r
      else y :: insert_by_len x r
  end.

Fixpoint sorted_by_len (l : list string) : list string :=
  match l with
  | [] => []
  | x :: r => insert_by_len x (sorted_by_len r)
  end.

(** A dict with string keys, in insertion order. *)
Definition dict (V : Type) : Type := list (string * V).

Fixpoint dict_get {V : Type} (d : dict V) (k : string) : option V :=
  match d with
  | [] => None
  | (k', v) :: r => if String.eqb k' k then Some v else dict_get r k
  end.

Definition dict_has {V : Type} (d : dict V) (k : string) : bool :=
  match dict_get d k with Some _ => true | None => false end.

(** [d[k] = v]: an existing key keeps its place, a new one goes last. *)
Fixpoint dict_set {V : Type} (d : dict V) (k : string) (v : V) : dict V :=
  match d with
  | [] => [(k, v)]
  | (k', v') :: r =>
      if String.eqb k' k then (k, v) :: r else (k', v') :: dict_set r k v
  end.

(** [del d[k]] for a key that may be absent. *)
Definition dict_del {V : Type} (d : dict V) (k : string) : dict V :=
  filter (fun kv => negb (String.eqb (fst kv) k)) d.

(** *** What a sub-operation reports, and the accumulated result *)

(** One diff: a dict such as [{"before": ..., "after": ...}]. *)
Definition diff_record : Type := dict string.

(** The ["diff"] entry of a task output: one diff dict, or a list of them. *)
Inductive diff_value : Type :=
| DiffDict (d : diff_record)
| DiffList (l : list diff_record).

(** The dict a module or action run returns; every key may be missing.
    [o_changed = Some true] is [task_output.get("changed", False) is True]. *)
Record task_output : Type := {
  o_changed : option bool;
  o_failed : option bool;
  o_msg : option string;
  o_diff : option diff_value
}.

(** The four keys of [result] that the plugins set. *)
Record result : Type := {
  changed : bool;
  failed : bool;
  msg : string;
  diff : list diff_record
}.

(** [result["changed"] = False; result["failed"] = False;
    result["msg"] = ""; result["diff"] = []] *)
Definition initial_result : result :=
  {| changed := false; failed := false; msg := ""; diff := [] |}.

(** [result["failed"] = True; result["msg"] = msg; return result] *)
Definition result_failed (r : result) (m : string) : result :=
  {| changed := changed r; failed := true; msg := m; diff := diff r |}.

(** [x.get(key, False) is True] *)
Definition is_True (x : option bool) : bool :=
  match x with Some true => true | _ => false end.

End py.

(* ================================================================= *)
(** ** The tree below the source root on the control node *)

Module localfs.

(** A directory: the names of its entries that are not directories, and
    its sub-directories, both in the order [os.walk] lists them. *)
#[warnings="-register-all"]
Inductive tree : Type :=
| Dir (filenames : list string) (subdirs : list (string * tree)).

(** The control node's file system, as far as the plugins look at it:
    [fs p = Some t] when [os.path.isdir(p)] and [t] is what lies below [p]. *)
Definition fs : Type := string -> option tree.

(** [os.walk(top)], top-down: one entry per directory, with its path, the
    names that lead to it from [top], and its file names.  (The plugins do
    not use the [dirnames] component.) *)
Fixpoint walk (dirpath : string) (below : list string) (t : tree)
  : list (string * list string * list string) :=
  match t with
  | Dir filenames subdirs =>
      (dirpath, below, filenames)
      :: flat_map (fun ds => walk (posixpath.join dirpath (fst ds))
                                  (below ++ [fst ds]) (snd ds)) subdirs
  end.

(** A name of a directory entry: not empty, and without a separator. *)
Definition name_ok (n : string) : bool :=
  negb (String.eqb n "") && Z.eqb (pystr.rfind posixpath.sep n) (-1).

Fixpoint tree_ok (t : tree) : bool :=
  match t with
  | Dir filenames subdirs =>
      forallb name_ok filenames
      && forallb (fun ds => name_ok (fst ds) && tree_ok (snd ds)) subdirs
  end.

(** No file anywhere in the tree. *)
Fixpoint no_files (t : tree) : bool :=
  match t with
  | Dir filenames subdirs =>
      match filenames with [] => true | _ => false end
      && forallb (fun ds => no_files (snd ds)) subdirs
  end.

End localfs.

(* ================================================================= *)
(** ** [plugins/action/r_copy.py] *)

Module r_copy.
Import py.

Definition SUPPORTED_OS : list string := ["linux"; "darwin"].

(** *** [_get_all_parent_dirs] *)

(** The [while] loop: [dirname] of the cursor is appended until it is
    found in [output].  [fuel] bounds the number of tests of the loop
    condition; [None] when it is used up. *)
Fixpoint parents_loop (fuel : nat) (cursor : string) (output : list string)
  : option (list string) :=
  match fuel with
  | O => None
  | S fuel' =>
      let dirname := posixpath.dirname cursor in
      if pystr.mem dirname output then Some output
      else parents_loop fuel' dirname (output ++ [dirname])
  end.

(** The [for path in paths] loop around it. *)
Fixpoint parents_for (paths : list string) (output : list string)
  : option (list string) :=
  match paths with
  | [] => Some output
  | path :: rest =>
      match parents_loop (String.length path + 2) path output with
      | Some output' => parents_for rest output'
      | None => None
      end
  end.

Definition _get_all_parent_dirs (paths : list string) : res (list string) :=
  if negb (forallb posixpath.isabs paths)
  then Raise (AssertionError "all paths must be absolute")
  else match parents_for paths [] with
       | Some output => Ret output
       | None => Diverge
       end.

(** *** The task arguments *)

(** An override table: a dict from an attribute value to a list of paths,
    in insertion order. *)
Definition table : Type := list (scalar * list string).

(** [self._task.args], with the types the module documentation gives its
    entries; [None] is a missing key.  [other_args] holds the names of the
    keys that are none of the eight documented ones, in their order. *)
Record args : Type := {
  owner : option scalar;
  group : option scalar;
  mode : option scalar;
  parent_dirs_mode : option scalar;
  src_root : option string;
  mode_overrides : option table;
  owner_overrides : option table;
  group_overrides : option table;
  other_args : list string
}.

Definition supported_args : list string :=
  ["owner"; "group"; "mode"; "parent_dirs_mode"; "src_root";
   "mode_overrides"; "owner_overrides"; "group_overrides"].

Definition key_if {V : Type} (name : string) (entry : option V) : list string :=
  match entry with Some _ => [name] | None => [] end.

(** The keys of [args]. *)
Definition arg_names (a : args) : list string :=
  key_if "owner" (owner a) ++ key_if "group" (group a)
  ++ key_if "mode" (mode a) ++ key_if "parent_dirs_mode" (parent_dirs_mode a)
  ++ key_if "src_root" (src_root a)
  ++ key_if "mode_overrides" (mode_overrides a)
  ++ key_if "owner_overrides" (owner_overrides a)
  ++ key_if "group_overrides" (group_overrides a)
  ++ other_args a.

(** The values of the five required arguments. *)
Record required : Type := {
  r_owner : scalar;
  r_group : scalar;
  r_mode : scalar;
  r_parent_dirs_mode : scalar;
  r_src_root : string
}.

(** [for arg_name in required_args: if arg_name not in args: ...], with
    [required_args = ["owner", "group", "mode", "parent_dirs_mode",
    "src_root"]]: the first missing name, or the five values. *)
Definition required_args (a : args) : string + required :=
  match owner a with
  | None => inl "owner"
  | Some o =>
  match group a with
  | None => inl "group"
  | Some g =>
  match mode a with
  | None => inl "mode"
  | Some m =>
  match parent_dirs_mode a with
  | None => inl "parent_dirs_mode"
  | Some pm =>
  match src_root a with
  | None => inl "src_root"
  | Some root =>
      inr {| r_owner := o; r_group := g; r_mode := m;
             r_parent_dirs_mode := pm; r_src_root := root |}
  end end end end end.

(** [for arg_name in args: if arg_name not in supported_args: ...] *)
Definition unsupported_arg (a : args) : option string :=
  find (fun arg_name => negb (pystr.mem arg_name supported_args)) (arg_names a).

(** *** Mode syntax *)

Definition mode_regex : string := "[0-7]{4}".

(** The character class [[0-7]]. *)
Definition octal_digit (c : ascii) : bool :=
  let n := nat_of_ascii c in ((48 <=? n) && (n <=? 55))%nat.

(** [re.fullmatch] of [[0-7]{n}]. *)
Fixpoint fullmatch_octal (n : nat) (s : string) : bool :=
  match n, s with
  | O, EmptyString => true
  | S n', String c r => octal_digit c && fullmatch_octal n' r
  | _, _ => false
  end.

(** The body of the loop over the mode values: the message of the failure,
    if the value fails. *)
Definition check_mode (m : scalar) : option string :=
  match m with
  | SInt _ =>
      Some ("mode " ++ dq ++ format m ++ dq ++ " is not a string! found type: "
            ++ dq ++ format_type m ++ dq)
  | SStr s =>
      if negb (fullmatch_octal 4 s)
      then Some ("mode " ++ dq ++ s ++ dq ++ " does not match regex: "
                 ++ dq ++ mode_regex ++ dq)
      else None
  end.

Fixpoint check_modes (modes : list scalar) : option string :=
  match modes with
  | [] => None
  | m :: rest =>
      match check_mode m with
      | Some message => Some message
      | None => check_modes rest
      end
  end.

(** [args.get(name, {})] *)
Definition table_or_empty (t : option table) : table :=
  match t with Some t' => t' | None => [] end.

(** [[args["mode"], args["parent_dirs_mode"],
     *args.get("mode_overrides", {}).keys()]] *)
Definition mode_values (a : args) (r : required) : list scalar :=
  r_mode r :: r_parent_dirs_mode r
  :: map fst (table_or_empty (mode_overrides a)).

(** *** Defaults and normalisation of the override tables *)

(** [for override, paths in args[arg_name].items():
        args[arg_name] = {override: [x.rstrip("/") for x in paths]}]
    The loop runs over the items of the dict that [args[arg_name]] held
    on entry; every round binds [args[arg_name]] to a new dict. *)
Definition normalize (t : table) : table :=
  fold_left
    (fun (_ : table) (item : scalar * list string) =>
       [(fst item, map (pystr.rstrip posixpath.sep) (snd item))])
    t t.

(** What the rest of [run] reads from [args] after lines 161 to 186: the
    required values, and the three override tables, defaulted to [{}] and
    normalised. *)
Record policy : Type := {
  p_owner : scalar;
  p_group : scalar;
  p_mode : scalar;
  p_parent_dirs_mode : scalar;
  p_mode_overrides : table;
  p_owner_overrides : table;
  p_group_overrides : table
}.

Definition normalized_args (a : args) (r : required) : policy :=
  {| p_owner := r_owner r;
     p_group := r_group r;
     p_mode := r_mode r;
     p_parent_dirs_mode := r_parent_dirs_mode r;
     p_mode_overrides := normalize (table_or_empty (mode_overrides a));
     p_owner_overrides := normalize (table_or_empty (owner_overrides a));
     p_group_overrides := normalize (table_or_empty (group_overrides a)) |}.

(** *** Policy: [_get_mode], [_get_owner], [_get_group] *)

Inductive file_or_dir : Type := file | dir.

(** [for value, paths in table.items(): if path in paths: return value] *)
Fixpoint first_override (t : table) (path : string) : option scalar :=
  match t with
  | [] => None
  | (value, paths) :: rest =>
      if pystr.mem path paths then Some value else first_override rest path
  end.

Definition _get_mode (p : policy) (path : string) (kind : file_or_dir) : scalar :=
  match first_override (p_mode_overrides p) path with
  | Some m => m
  | None =>
      match kind with
      | file => p_mode p
      | dir => p_parent_dirs_mode p
      end
  end.

Definition _get_owner (p : policy) (path : string) : scalar :=
  match first_override (p_owner_overrides p) path with
  | Some o => o
  | None => p_owner p
  end.

Definition _get_group (p : policy) (path : string) : scalar :=
  match first_override (p_group_overrides p) path with
  | Some g => g
  | None => p_group p
  end.

(** *** The remote operations *)

(** The two things the plugin asks of the target: the
    [unity.file_multi_diff.file] module with [state: directory], and the
    [unity.copy_multi_diff.copy] action. *)
Inductive op : Type :=
| file_directory (path : string) (owner group mode : scalar)
| copy_file (src dest : string) (owner group mode : scalar).

(** The operation that [_mkdir_chmod_chown] asks for; [perform] below
    sends it to the target. *)
Definition _mkdir_chmod_chown (p : policy) (path : string) : op :=
  file_directory path (_get_owner p path) (_get_group p path)
                 (_get_mode p path dir).

(** The operation that [_copy_chmod_chown] asks for. *)
Definition _copy_chmod_chown (p : policy) (src dest : string) : op :=
  copy_file src dest (_get_owner p dest) (_get_group p dest)
            (_get_mode p dest file).

(** *** [_update_result_from_task] *)

Definition nl : string := String "010"%char EmptyString.

(** ["before" in d and "after" in d and d["before"] == d["after"]]; a
    list of diff dicts holds neither string. *)
Definition before_is_after (d : diff_value) : bool :=
  match d with
  | DiffList _ => false
  | DiffDict r =>
      match dict_get r "before", dict_get r "after" with
      | Some b, Some a => String.eqb b a
      | _, _ => false
      end
  end.

Definition _do_save_diff (task_output : task_output) : bool :=
  match o_diff task_output with
  | None => false
  | Some d =>
      if is_True (o_changed task_output) then true
      else if before_is_after d then false
      else true
  end.

(** [result["diff"] += d] for a list, [result["diff"].append(d)] otherwise *)
Definition add_diff (diffs : list diff_record) (d : diff_value) : list diff_record :=
  match d with
  | DiffList l => diffs ++ l
  | DiffDict r => diffs ++ [r]
  end.

Definition _update_result_from_task (r : result) (task_output : task_output) : result :=
  {| changed := if is_True (o_changed task_output) then true else changed r;
     failed := if is_True (o_failed task_output) then true else failed r;
     msg := match o_msg task_output with
            | Some m => msg r ++ nl ++ m
            | None => msg r
            end;
     diff := if _do_save_diff task_output
             then match o_diff task_output with
                  | Some d => add_diff (diff r) d
                  | None => diff r
                  end
             else diff r |}.

(** *** [run] *)

(** [src_dest_tuples]: for every directory of the walk and every file name
    in it, the source path and the destination path. *)
Definition src_dest_tuples (root : string) (t : localfs.tree) : list (string * string) :=
  flat_map
    (fun entry : string * list string * list string =>
       let '(dirpath, below, filenames) := entry in
       map (fun filename =>
              let full_src_path := posixpath.join dirpath filename in
              let relative_src_path :=
                posixpath.relpath_below (below ++ [filename]) in
              let dest_path := posixpath.join "/" relative_src_path in
              (full_src_path, dest_path))
           filenames)
    (localfs.walk root [] t).

(** [sorted(_get_all_parent_dirs(destination_files), key=len)] followed by
    [destination_dirs.remove("/")]. *)
Definition destination_dirs (destination_files : list string) : res (list string) :=
  match _get_all_parent_dirs destination_files with
  | Ret parents => list_remove "/" (sorted_by_len parents)
  | Raise e => Raise e
  | Diverge => Diverge
  end.

(** [for path in path_list: override_paths.add(path)] *)
Definition add_path_list (override_paths path_list : list string) : list string :=
  fold_left set_add path_list override_paths.

(** [for path_list in args[arg_name].values(): ...] *)
Definition add_table (override_paths : list string) (t : table) : list string :=
  fold_left add_path_list (map snd t) override_paths.

(** [override_paths]: every path of every list of the three tables. *)
Definition override_paths (p : policy) : list string :=
  fold_left add_table
            [p_mode_overrides p; p_owner_overrides p; p_group_overrides p] [].

Definition invalid_overrides_message (overrides_not_found destination_paths : list string)
  : string :=
  "overrides specified for invalid paths: " ++ repr_set overrides_not_found ++ ". "
  ++ "valid paths: " ++ repr_list destination_paths.

Section driver.

(** The target, seen from the plugin: a state, and what each operation
    reports and does to the state. *)
Variable W : Type.
Variable remote : W -> op -> task_output * W.

(** The operations issued so far, each with what it reported. *)
Definition trace : Type := list (op * task_output).

Record state : Type := {
  world : W;
  result_ : result;
  issued : trace
}.

(** [self._update_result_from_task(<operation>)] *)
Definition perform (o : op) (st : state) : state :=
  let '(task_output, w') := remote (world st) o in
  {| world := w';
     result_ := _update_result_from_task (result_ st) task_output;
     issued := (issued st ++ [(o, task_output)])%list |}.

(** [for x in xs: perform(x); if self.result["failed"]: return self.result]
    The flag tells whether the loop left [run] through the [return]. *)
Fixpoint for_each {A : Type} (body : A -> op) (xs : list A) (st : state)
  : state * bool :=
  match xs with
  | [] => (st, false)
  | x :: rest =>
      let st' := perform (body x) st in
      if failed (result_ st') then (st', true) else for_each body rest st'
  end.

(** What a call of [run] leaves: the value or exception, the operations
    issued, and the target's state. *)
Record run_outcome : Type := {
  returned : res result;
  operations : trace;
  target : W
}.

Definition stop (w : W) (x : res result) : run_outcome :=
  {| returned := x; operations := []; target := w |}.

Definition finish (st : state) : run_outcome :=
  {| returned := Ret (result_ st); operations := issued st; target := world st |}.

Definition run (platform_system : string) (local : localfs.fs) (a : args) (w : W)
  : run_outcome :=
  let result := initial_result in
  let _result_failed := fun m => stop w (Ret (result_failed result m)) in
  let this_os := pystr.lower platform_system in
  if negb (pystr.mem this_os SUPPORTED_OS)
  then _result_failed ("unsupported OS: " ++ dq ++ this_os ++ dq)
  else
  match required_args a with
  | inl arg_name => _result_failed ("argument required: " ++ dq ++ arg_name ++ dq)
  | inr r =>
  match unsupported_arg a with
  | Some arg_name => _result_failed ("unsupported argument: " ++ dq ++ arg_name ++ dq)
  | None =>
  match local (r_src_root r) with
  | None => _result_failed (dq ++ r_src_root r ++ dq ++ " is not a directory!")
  | Some tree =>
  match check_modes (mode_values a r) with
  | Some message => _result_failed message
  | None =>
  let p := normalized_args a r in
  let tuples := src_dest_tuples (r_src_root r) tree in
  let destination_files := map snd tuples in
  match destination_dirs destination_files with
  | Raise e => stop w (Raise e)
  | Diverge => stop w Diverge
  | Ret dirs =>
  let destination_paths := (destination_files ++ dirs)%list in
  let overrides_not_found :=
    set_minus (set_of (override_paths p)) (set_of destination_paths) in
  if (0 <? List.length overrides_not_found)%nat
  then _result_failed (invalid_overrides_message overrides_not_found destination_paths)
  else
  let st0 := {| world := w; result_ := result; issued := [] |} in
  let '(st1, left1) := for_each (_mkdir_chmod_chown p) dirs st0 in
  if left1 then finish st1
  else
  let '(st2, _) :=
    for_each (fun sd => _copy_chmod_chown p (fst sd) (snd sd)) tuples st1 in
  finish st2
  end end end end end.

End driver.

Arguments world {W} _.
Arguments result_ {W} _.
Arguments issued {W} _.
Arguments returned {W} _.
Arguments operations {W} _.
Arguments target {W} _.
Arguments perform {W} remote o st.
Arguments for_each {W} remote {A} body xs st.
Arguments stop {W} w x.
Arguments finish {W} st.
Arguments run {W} remote platform_system local a w.

End r_copy.

(* ================================================================= *)
(** ** [plugins/action/template_recursive.py] *)

Module template_recursive.
Import py.

(** [text[: -len(suffix)]] when [text] ends with the non-empty [suffix] *)
Definition strip_end (text suffix : string) : string :=
  if (0 <? String.length suffix)%nat && pystr.endswith text suffix
  then substring 0 (String.length text - String.length suffix) text
  else text.

(** [self._task.args]: a dict; the plugin reads [templates_root], [mode],
    [new_dir_mode], [owner] and [group], and hands the rest on. *)
Definition args : Type := dict string.

(** What the plugin asks of the target besides the stat: the [file]
    module, and the [unity.template_multi_diff.template] action, each with
    the arguments it is given. *)
Inductive op : Type :=
| file_module (module_args : dict string)
| template_action (task_args : dict string).

(** The two entries of the remote stat that the plugin reads. *)
Record stats : Type := {
  st_exists : bool;
  st_isdir : bool
}.

Inductive event : Type :=
| stat_event (path : string) (follow : bool) (s : stats)
| op_event (o : op) (task_output : task_output).

Definition _run_template_action (a : args) (src dest : string) : op :=
  let task_args := dict_set (dict_set a "src" src) "dest" dest in
  let task_args := dict_del task_args "templates_root" in
  let task_args := dict_del task_args "new_dir_mode" in
  template_action task_args.

Definition _create_directory (a : args) (path : string) : op :=
  let module_args := [("path", path); ("state", "directory")] in
  let module_args :=
    dict_set module_args "mode"
             (match dict_get a "new_dir_mode" with Some m => m | None => "0755" end) in
  let module_args :=
    match dict_get a "owner" with
    | Some o => dict_set module_args "owner" o
    | None => module_args
    end in
  let module_args :=
    match dict_get a "group" with
    | Some g => dict_set module_args "group" g
    | None => module_args
    end in
  file_module module_args.

Definition update_result_from_task (r : result) (task_output : task_output) : result :=
  {| changed := if is_True (o_changed task_output) then true else changed r;
     failed := if is_True (o_failed task_output) then true else failed r;
     msg := match o_msg task_output with
            | Some m => msg r ++ r_copy.nl ++ m
            | None => msg r
            end;
     diff := match o_diff task_output with
             | Some (DiffList l) => (diff r ++ l)%list
             | Some (DiffDict d) => (diff r ++ [d])%list
             | None => diff r
             end |}.

(** [template_files]: source path and destination path of every file of
    the walk, the destination without a final [.j2]. *)
Definition template_files (templates_root : string) (t : localfs.tree)
  : list (string * string) :=
  flat_map
    (fun entry : string * list string * list string =>
       let '(dirpath, below, filenames) := entry in
       map (fun filename =>
              let full_src_path := posixpath.join dirpath filename in
              let relative_src_path :=
                posixpath.relpath_below (below ++ [filename]) in
              let dest_path := posixpath.join "/" relative_src_path in
              let dest_path := strip_end dest_path ".j2" in
              (full_src_path, dest_path))
           filenames)
    (localfs.walk templates_root [] t).

Section template_driver.

Variable W : Type.
(** [self._execute_remote_stat(path, all_vars=task_vars, follow=follow)] *)
Variable remote_stat : W -> string -> bool -> stats * W.
Variable remote : W -> op -> task_output * W.
(** [list(set(l))]: the elements of [l] in the order Python iterates the
    set; the source does not determine that order. *)
Variable list_of_set : list string -> list string.

Record state : Type := {
  world : W;
  result_ : result;
  events : list event
}.

Definition _does_remote_directory_exist (path : string) (st : state) : bool * state :=
  let '(s, w') := remote_stat (world st) path true in
  (st_exists s && st_isdir s,
   {| world := w'; result_ := result_ st;
      events := (events st ++ [stat_event path true s])%list |}).

(** [update_result_from_task(<operation>)] *)
Definition perform (o : op) (st : state) : state :=
  let '(task_output, w') := remote (world st) o in
  {| world := w';
     result_ := update_result_from_task (result_ st) task_output;
     events := (events st ++ [op_event o task_output])%list |}.

(** The loop over the destination directories; the flag tells whether it
    left [run] through its [return]. *)
Fixpoint create_missing (a : args) (dest_dirs : list string) (st : state)
  : state * bool :=
  match dest_dirs with
  | [] => (st, false)
  | dest_dir :: rest =>
      let '(present, st1) := _does_remote_directory_exist dest_dir st in
      if negb present
      then let st2 := perform (_create_directory a dest_dir) st1 in
           if failed (result_ st2) then (st2, true)
           else create_missing a rest st2
      else create_missing a rest st1
  end.

(** The loop over the template files. *)
Fixpoint render_each (a : args) (files : list (string * string)) (st : state)
  : state * bool :=
  match files with
  | [] => (st, false)
  | (src, dest) :: rest =>
      let st' := perform (_run_template_action a src dest) st in
      if failed (result_ st') then (st', true) else render_each a rest st'
  end.

Record run_outcome : Type := {
  returned : result;
  happened : list event;
  target : W
}.

Definition stop (w : W) (r : result) : run_outcome :=
  {| returned := r; happened := []; target := w |}.

Definition finish (st : state) : run_outcome :=
  {| returned := result_ st; happened := events st; target := world st |}.

Definition run (local : localfs.fs) (a : args) (w : W) : run_outcome :=
  let result := initial_result in
  let result_failed := fun m => stop w (result_failed result m) in
  match dict_get a "templates_root" with
  | None => result_failed "`templates_root` argument is required!"
  | Some templates_root =>
  match local templates_root with
  | None => result_failed (dq ++ templates_root ++ dq ++ " is not a directory!")
  | Some tree =>
  let a := if negb (dict_has a "mode") then dict_set a "mode" "0644" else a in
  let files := template_files templates_root tree in
  let dest_dirs := map (fun x => posixpath.dirname (snd x)) files in
  let st0 := {| world := w; result_ := result; events := [] |} in
  let '(st1, left1) := create_missing a (list_of_set dest_dirs) st0 in
  if left1 then finish st1
  else
  let '(st2, _) := render_each a files st1 in
  finish st2
  end end.

End template_driver.

Arguments world {W} _.
Arguments result_ {W} _.
Arguments events {W} _.
Arguments returned {W} _.
Arguments happened {W} _.
Arguments target {W} _.
Arguments _does_remote_directory_exist {W} remote_stat path st.
Arguments perform {W} remote o st.
Arguments create_missing {W} remote_stat remote a dest_dirs st.
Arguments render_each {W} remote a files st.
Arguments stop {W} w r.
Arguments finish {W} st.
Arguments run {W} remote_stat remote list_of_set local a w.

End template_recursive.

(* ================================================================= *)
(** ** Notions used to state the properties *)

Module spec.

(** Ascending length. *)
Definition len_le (a b : string) : Prop := String.length a <= String.length b.

(** [x] comes before [y] in [l]. *)
Definition before {A : Type} (x y : A) (l : list A) : Prop :=
  exists l1 l2 l3, l = (l1 ++ x :: l2 ++ y :: l3)%list.

(** The absolute path that a list of names spells: ["/"] for the empty
    list, ["/a/b"] for [["a"; "b"]]. *)
Definition path_of (names : list string) : string :=
  "/" ++ String.concat "/" names.

(** Every name of the list is a name of a directory entry. *)
Definition names_ok (names : list string) : Prop :=
  Forall (fun n => localfs.name_ok n = true) names.

(** [d] is a directory strictly above the file (or directory) spelled by
    [names], and is not the root. *)
Definition strict_ancestor (d : string) (names : list string) : Prop :=
  exists above rest,
    above <> [] /\ rest <> [] /\ names = (above ++ rest)%list /\ d = path_of above.

(** [d1] is a directory strictly above the directory [d2], neither being
    the root. *)
Definition above_dir (d1 d2 : string) : Prop :=
  exists names, d2 = path_of names /\ strict_ancestor d1 names.

(** The names that lead from the root of the walk to each of its files, in
    the order of the walk. *)
Definition file_names (root : string) (t : localfs.tree) : list (list string) :=
  flat_map
    (fun entry : string * list string * list string =>
       map (fun filename => (snd (fst entry) ++ [filename])%list) (snd entry))
    (localfs.walk root [] t).


(** The kinds of operation of the copy variant. *)
Definition is_dir_op (o : r_copy.op) : Prop :=
  match o with r_copy.file_directory _ _ _ _ => True | _ => False end.


(** The directories of the directory operations of a trace, in order. *)
Definition dirs_made (t : r_copy.trace) : list string :=
  flat_map (fun ev : r_copy.op * py.task_output =>
              match fst ev with
              | r_copy.file_directory path _ _ _ => [path]
              | r_copy.copy_file _ _ _ _ _ => []
              end) t.

(** The result accumulated from the reports of a trace. *)
Definition accumulated (t : r_copy.trace) : py.result :=
  fold_left r_copy._update_result_from_task (map snd t) py.initial_result.

(** The mode values that the arguments give: the two defaults and the keys
    of [mode_overrides], as far as they are present. *)
Definition modes_given (a : r_copy.args) : list py.scalar :=
  (match r_copy.mode a with Some m => [m] | None => [] end
   ++ match r_copy.parent_dirs_mode a with Some m => [m] | None => [] end
   ++ map fst (r_copy.table_or_empty (r_copy.mode_overrides a)))%list.

(** A string of exactly four characters, each between ['0'] and ['7']. *)
Definition four_octal_digits (s : string) : Prop :=
  String.length s = 4
  /\ Forall (fun c => 48 <= nat_of_ascii c <= 55) (list_ascii_of_string s).

(** The last entry of a table, its paths without trailing separators, as
    a table of its own; the empty table for a table without entries. *)
Definition last_entry_stripped (t : r_copy.table) : r_copy.table :=
  match rev t with
  | [] => []
  | (value, paths) :: _ => [(value, map (pystr.rstrip posixpath.sep) paths)]
  end.

(** The value that a table of at most one entry gives a path, if any. *)
Definition entry_value (t : r_copy.table) (path : string) : option py.scalar :=
  match t with
  | (value, paths) :: _ => if pystr.mem path paths then Some value else None
  | [] => None
  end.

(** The diff entries that a report carries. *)
Definition diff_entries (o : py.task_output) : list py.diff_record :=
  match py.o_diff o with
  | None => []
  | Some (py.DiffList l) => l
  | Some (py.DiffDict d) => [d]
  end.

(** The report carries one diff dict whose [before] and [after] are both
    there and equal. *)
Definition same_before_after (o : py.task_output) : Prop :=
  exists d x,
    py.o_diff o = Some (py.DiffDict d)
    /\ py.dict_get d "before" = Some x /\ py.dict_get d "after" = Some x.

(** A trace of the template variant in which the [file] module runs only
    right after a stat of its path that did not report a directory. *)
Inductive guarded : list template_recursive.event -> Prop :=
| guarded_nil : guarded []
| guarded_stat (path : string) (follow : bool) (s : template_recursive.stats)
               (rest : list template_recursive.event) :
    guarded rest -> guarded (template_recursive.stat_event path follow s :: rest)
| guarded_create (path : string) (follow : bool) (s : template_recursive.stats)
                 (module_args : py.dict string) (out : py.task_output)
                 (rest : list template_recursive.event) :
    template_recursive.st_exists s && template_recursive.st_isdir s = false ->
    py.dict_get module_args "path" = Some path ->
    guarded rest ->
    guarded (template_recursive.stat_event path follow s
             :: template_recursive.op_event
                  (template_recursive.file_module module_args) out
             :: rest)
| guarded_template (task_args : py.dict string) (out : py.task_output)
                   (rest : list template_recursive.event) :
    guarded rest ->
    guarded (template_recursive.op_event
               (template_recursive.template_action task_args) out :: rest).

(** Some operation of the trace reported [failed]. *)
Definition some_failed (evs : list template_recursive.event) : Prop :=
  exists o out,
    In (template_recursive.op_event o out) evs
    /\ py.is_True (py.o_failed out) = true.

(** No report of the trace says [failed]. *)
Definition clean (t : r_copy.trace) : Prop :=
  Forall (fun ev => py.is_True (py.o_failed (snd ev)) = false) t.

(** A list of directories that holds the parent of each of its members. *)
Definition dirname_closed (l : list string) : Prop :=
  forall d, In d l -> In (posixpath.dirname d) l.

(** [dirname] applied [k] times. *)
Definition dirname_iter (k : nat) (p : string) : string :=
  Nat.iter k posixpath.dirname p.

(** [kept] is [given] without its trailing separators: [given] is [kept]
    followed by separators only, and [kept] does not end with one. *)
Definition trailing_seps_removed (given kept : string) : Prop :=
  (exists seps,
      given = (kept ++ seps)%string
      /\ Forall (fun c => c = posixpath.sep) (list_ascii_of_string seps))
  /\ forall s, kept <> (s ++ "/")%string.

End spec.

(* ================================================================= *)
(** ** Sample inputs *)

Module sample.
Import py.

(** The source tree [{"a/b/file.txt"}] below [/local]. *)
Definition tree : localfs.tree :=
  localfs.Dir [] [("a", localfs.Dir [] [("b", localfs.Dir ["file.txt"] [])])].

Definition local : localfs.fs :=
  fun p => if String.eqb p "/local" then Some tree else None.

(** A source root with a sub-directory and no file. *)
Definition empty_tree : localfs.tree := localfs.Dir [] [("a", localfs.Dir [] [])].

Definition empty_local : localfs.fs :=
  fun p => if String.eqb p "/local" then Some empty_tree else None.

(** [owner=root, group=root, mode=0644, parent_dirs_mode=0755,
    src_root=/local], with the given default file mode and mode overrides. *)
Definition args (file_mode : scalar) (overrides : option r_copy.table) : r_copy.args :=
  {| r_copy.owner := Some (SStr "root");
     r_copy.group := Some (SStr "root");
     r_copy.mode := Some file_mode;
     r_copy.parent_dirs_mode := Some (SStr "0755");
     r_copy.src_root := Some "/local";
     r_copy.mode_overrides := overrides;
     r_copy.owner_overrides := None;
     r_copy.group_overrides := None;
     r_copy.other_args := [] |}.

Definition plain_args : r_copy.args := args (SStr "0644") None.

(** Two entries in [mode_overrides], the first for a path that is no
    destination. *)
Definition two_entries : r_copy.table :=
  [(SStr "0600", ["/not/a/real/path"]); (SStr "0700", ["/a"])].

Definition report (is_changed is_failed : bool) : task_output :=
  {| o_changed := Some is_changed; o_failed := Some is_failed;
     o_msg := None; o_diff := None |}.

(** A target on which every operation succeeds with a change. *)
Definition remote_ok (w : unit) (o : r_copy.op) : task_output * unit :=
  (report true false, w).

(** A target on which every copy fails. *)
Definition remote_copy_failing (w : unit) (o : r_copy.op) : task_output * unit :=
  match o with
  | r_copy.copy_file _ _ _ _ _ => (report false true, w)
  | _ => (report true false, w)
  end.

(** A target on which making [/a] fails. *)
Definition remote_failing (w : unit) (o : r_copy.op) : task_output * unit :=
  match o with
  | r_copy.file_directory "/a" _ _ _ => (report false true, w)
  | _ => (report true false, w)
  end.

(** The template variant: [config.yml.j2] and [motd] below [/templates]. *)
Definition templates : localfs.tree :=
  localfs.Dir ["motd"] [("etc", localfs.Dir ["config.yml.j2"] [])].

Definition template_local : localfs.fs :=
  fun p => if String.eqb p "/templates" then Some templates else None.

(** A target that has the root directory only. *)
Definition stat_root_only (w : unit) (path : string) (follow : bool)
  : template_recursive.stats * unit :=
  ({| template_recursive.st_exists := String.eqb path "/";
      template_recursive.st_isdir := String.eqb path "/" |}, w).

Definition template_remote_ok (w : unit) (o : template_recursive.op)
  : task_output * unit :=
  (report true false, w).

(** [list(set(l))], here in the order of first occurrence. *)
Definition first_occurrences (l : list string) : list string := set_of l.

(** A report of no change whose diff has the same text before and after. *)
Definition noop_report : task_output :=
  {| o_changed := Some false; o_failed := Some false; o_msg := None;
     o_diff := Some (DiffDict [("before", "x"); ("after", "x")]) |}.

End sample.

(* ================================================================= *)
(** ** Further notions, for the properties of the single functions *)

Module more.

(** The parents of the path that a list of names spells, the nearest
    first and the root last: [["/a/b"; "/a"; "/"]] for [/a/b/f]. *)
Fixpoint parents_up_from (n : nat) (names : list string) : list string :=
  match n with
  | O => []
  | S n' => spec.path_of (removelast names) :: parents_up_from n' (removelast names)
  end.

Definition parents_up (names : list string) : list string :=
  parents_up_from (List.length names) names.

(** What one report adds to the message log and to the diff list of the
    copy variant. *)
Definition msg_line (o : py.task_output) : string :=
  match py.o_msg o with
  | Some m => r_copy.nl ++ m
  | None => ""
  end.

Definition kept_diff (o : py.task_output) : list py.diff_record :=
  if r_copy._do_save_diff o then spec.diff_entries o else [].

(** The reports, the stat paths and the operations of a trace of the
    template variant, each in order. *)
Definition reports_of (evs : list template_recursive.event) : list py.task_output :=
  flat_map (fun ev => match ev with
                      | template_recursive.op_event _ out => [out]
                      | template_recursive.stat_event _ _ _ => []
                      end) evs.

Definition stat_paths (evs : list template_recursive.event) : list string :=
  flat_map (fun ev => match ev with
                      | template_recursive.stat_event path _ _ => [path]
                      | template_recursive.op_event _ _ => []
                      end) evs.

Definition template_ops (evs : list template_recursive.event)
  : list template_recursive.op :=
  flat_map (fun ev => match ev with
                      | template_recursive.op_event
                          (template_recursive.template_action task_args) _ =>
                          [template_recursive.template_action task_args]
                      | _ => []
                      end) evs.

(** No report of the trace says [failed]. *)
Definition clean_events (evs : list template_recursive.event) : Prop :=
  Forall (fun out => py.is_True (py.o_failed out) = false) (reports_of evs).

(** The arguments of the template variant once [run] has put in the
    default file mode. *)
Definition with_default_mode (a : template_recursive.args) : template_recursive.args :=
  if negb (py.dict_has a "mode") then py.dict_set a "mode" "0644" else a.

(** The trace of the loop over the destination directories: every
    directory is looked at with a stat that follows links, and the [file]
    module runs for it, right after the stat, exactly when the stat did not
    report a directory. *)
Inductive dirs_handled (a : template_recursive.args)
  : list template_recursive.event -> Prop :=
| handled_nil : dirs_handled a []
| handled_present (path : string) (s : template_recursive.stats)
                  (rest : list template_recursive.event) :
    template_recursive.st_exists s && template_recursive.st_isdir s = true ->
    dirs_handled a rest ->
    dirs_handled a (template_recursive.stat_event path true s :: rest)
| handled_missing (path : string) (s : template_recursive.stats)
                  (out : py.task_output) (rest : list template_recursive.event) :
    template_recursive.st_exists s && template_recursive.st_isdir s = false ->
    dirs_handled a rest ->
    dirs_handled a (template_recursive.stat_event path true s
                    :: template_recursive.op_event
                         (template_recursive._create_directory a path) out
                    :: rest).

(** The trace of the loop over the template files: one template action
    per file, each with its report. *)
Definition rendered (a : template_recursive.args) (files : list (string * string))
           (reports : list py.task_output) : list template_recursive.event :=
  map (fun fr : (string * string) * py.task_output =>
         template_recursive.op_event
           (template_recursive._run_template_action a (fst (fst fr)) (snd (fst fr)))
           (snd fr))
      (combine files reports).

(** The result accumulated from the reports of a trace of the template
    variant. *)
Definition template_result (evs : list template_recursive.event) : py.result :=
  fold_left template_recursive.update_result_from_task (reports_of evs)
            py.initial_result.

(** A target on which the template action for [/motd] fails. *)
Definition template_remote_failing (w : unit) (o : template_recursive.op)
  : py.task_output * unit :=
  match o with
  | template_recursive.template_action task_args =>
      match py.dict_get task_args "dest" with
      | Some "/motd" => (sample.report false true, w)
      | _ => (sample.report true false, w)
      end
  | _ => (sample.report true false, w)
  end.

(** The path of the directory that the names lead to from [root], as
    [os.walk] spells it: [root] itself, or [root] joined with the names. *)
Definition below_root (root : string) (names : list string) : string :=
  match names with
  | [] => root
  | _ => posixpath.join root (String.concat "/" names)
  end.

End more.

Example repr_ex :
  py.repr_str "/a/b" = "'/a/b'"
  /\ py.repr_str "/it's" = py.dq ++ "/it's" ++ py.dq
  /\ py.repr_str ("/it's" ++ py.dq) = "'/it\'s" ++ py.dq ++ "'"
  /\ py.repr_str "a\b" = "'a\\b'"
  /\ py.repr_str (String "010"%char "x") = "'\nx'"
  /\ py.repr_str (String "001"%char "") = "'\x01'"
  /\ py.repr_list ["/a"; "/b"] = "['/a', '/b']"
  /\ py.repr_set [] = "set()".
Proof. repeat split. Qed.

Example dirname_ex1 : posixpath.dirname "/a/b/file.txt" = "/a/b".
Proof. reflexivity. Qed.
Example dirname_ex2 : posixpath.dirname "/a" = "/".
Proof. reflexivity. Qed.
Example dirname_ex3 : posixpath.dirname "/" = "/".
Proof. reflexivity. Qed.
Example dirname_ex4 : posixpath.dirname "//a" = "//".
Proof. reflexivity. Qed.
Example dirname_ex5 : posixpath.dirname "/a//" = "/a".
Proof. reflexivity. Qed.
Example dirname_ex6 : posixpath.dirname "a" = "".
Proof. reflexivity. Qed.
Example join_ex1 : posixpath.join "/" "a/b" = "/a/b".
Proof. reflexivity. Qed.
Example join_ex2 : posixpath.join "/local" "a" = "/local/a".
Proof. reflexivity. Qed.
Example rstrip_ex : pystr.rstrip "/" "/a/b//" = "/a/b".
Proof. reflexivity. Qed.
Example endswith_ex : pystr.endswith "/c.yml.j2" ".j2" = true.
Proof. reflexivity. Qed.
Example ofZ_ex : pystr.of_Z 493 = "493".
Proof. reflexivity. Qed.
Example lower_ex : pystr.lower "Linux" = "linux".
Proof. reflexivity. Qed.

(* ================================================================= *)
(** * Facts about the string functions *)

Module pystr_facts.

Lemma app_nil_r (s : string) : s ++ "" = s.
Proof. induction s as [|a s IH]; simpl; [reflexivity | now rewrite IH]. Qed.

Lemma app_assoc (s t u : string) : (s ++ t) ++ u = s ++ (t ++ u).
Proof. induction s as [|a s IH]; simpl; [reflexivity | now rewrite IH]. Qed.

Lemma length_app (s t : string) :
  String.length (s ++ t) = String.length s + String.length t.
Proof. induction s as [|a s IH]; simpl; [reflexivity | now rewrite IH]. Qed.

Lemma mem_In (x : string) (l : list string) : pystr.mem x l = true <-> In x l.
Proof.
  unfold pystr.mem. rewrite existsb_exists. split.
  - intros [y [Hy He]]. apply String.eqb_eq in He. now subst.
  - intros H. exists x. split; [assumption | apply String.eqb_refl].
Qed.

Lemma mem_false (x : string) (l : list string) : pystr.mem x l = false <-> ~ In x l.
Proof.
  rewrite <- mem_In. destruct (pystr.mem x l); split; intros; congruence.
Qed.

(** [s[:len(s)]] and [(s + t)[:len(s)]] *)
Lemma substring_prefix (s t : string) : substring 0 (String.length s) (s ++ t) = s.
Proof.
  induction s as [|a s IH]; simpl.
  - destruct t; reflexivity.
  - now rewrite IH.
Qed.

Lemma substring_zero (s : string) : substring 0 0 s = "".
Proof. destruct s; reflexivity. Qed.

(** *** [rfind] *)

Lemma rfind_lower (c : ascii) (s : string) : (-1 <= pystr.rfind c s)%Z.
Proof.
  induction s as [|a s IH]; simpl; [lia|].
  destruct (0 <=? pystr.rfind c s)%Z eqn:E; [apply Z.leb_le in E; lia|].
  destruct (Ascii.eqb a c); lia.
Qed.

Lemma rfind_absent_cons (c a : ascii) (s : string) :
  pystr.rfind c (String a s) = (-1)%Z <->
  Ascii.eqb a c = false /\ pystr.rfind c s = (-1)%Z.
Proof.
  simpl. pose proof (rfind_lower c s) as L.
  destruct (0 <=? pystr.rfind c s)%Z eqn:E.
  - apply Z.leb_le in E. split; [lia | intros [_ H]; lia].
  - apply Z.leb_gt in E. destruct (Ascii.eqb a c); split; try lia; intuition (try lia; congruence).
Qed.

Lemma rfind_absent_app (c : ascii) (s t : string) :
  pystr.rfind c (s ++ t) = (-1)%Z <->
  pystr.rfind c s = (-1)%Z /\ pystr.rfind c t = (-1)%Z.
Proof.
  induction s as [|a s IH].
  - simpl. intuition.
  - change (String a s ++ t) with (String a (s ++ t)).
    rewrite !rfind_absent_cons, IH. intuition.
Qed.

(** The last occurrence splits the string. *)
Lemma rfind_at_split (c : ascii) (s t : string) :
  pystr.rfind c t = (-1)%Z ->
  pystr.rfind c (s ++ String c t) = Z.of_nat (String.length s).
Proof.
  intros Ht. induction s as [|a s IH].
  - simpl. rewrite Ht. simpl. now rewrite Ascii.eqb_refl.
  - change (String a s ++ String c t) with (String a (s ++ String c t)).
    cbn [pystr.rfind]. rewrite IH.
    replace (0 <=? Z.of_nat (String.length s))%Z with true
      by (symmetry; apply Z.leb_le; lia).
    cbn [String.length]. lia.
Qed.

Lemma rfind_split (c : ascii) (p : string) :
  pystr.rfind c p = (-1)%Z \/
  exists s t, p = s ++ String c t /\ pystr.rfind c t = (-1)%Z.
Proof.
  induction p as [|a p IH].
  - now left.
  - destruct IH as [IH | [s [t [Hp Ht]]]].
    + destruct (Ascii.eqb a c) eqn:E.
      * right. apply Ascii.eqb_eq in E. subst a. exists "", p. now split.
      * left. now apply rfind_absent_cons.
    + right. exists (String a s), t. subst p. now split.
Qed.

(** *** [rstrip] *)

Lemma rstrip_length (c : ascii) (s : string) :
  String.length (pystr.rstrip c s) <= String.length s.
Proof.
  induction s as [|a s IH]; simpl; [lia|].
  destruct (pystr.rstrip c s) eqn:E.
  - destruct (Ascii.eqb a c); simpl; lia.
  - simpl in *. lia.
Qed.

Lemma rstrip_times (c : ascii) (n : nat) : pystr.rstrip c (pystr.times c n) = "".
Proof.
  induction n as [|n IH]; simpl; [reflexivity|].
  rewrite IH. now rewrite Ascii.eqb_refl.
Qed.

Lemma rstrip_snoc (c : ascii) (s : string) :
  pystr.rstrip c (s ++ String c "") = pystr.rstrip c s.
Proof.
  induction s as [|a s IH].
  - simpl. now rewrite Ascii.eqb_refl.
  - change (String a s ++ String c "") with (String a (s ++ String c "")).
    cbn [pystr.rstrip]. now rewrite IH.
Qed.

Lemma rstrip_keeps (c a : ascii) (s : string) :
  Ascii.eqb a c = false ->
  pystr.rstrip c (s ++ String a "") = s ++ String a "".
Proof.
  intros Ha. induction s as [|b s IH].
  - simpl. now rewrite Ha.
  - change (String b s ++ String a "") with (String b (s ++ String a "")).
    cbn [pystr.rstrip]. rewrite IH.
    destruct s; reflexivity.
Qed.

Lemma times_snoc (c : ascii) (n : nat) :
  pystr.times c n ++ String c "" = pystr.times c (S n).
Proof. induction n as [|n IH]; simpl; [reflexivity|]. now rewrite IH. Qed.

Lemma all_sep_snoc (c : ascii) (s : string) :
  String.eqb (s ++ String c "") (pystr.times c (String.length (s ++ String c "")))
  = String.eqb s (pystr.times c (String.length s)).
Proof.
  induction s as [|a s IH].
  - simpl. now rewrite Ascii.eqb_refl.
  - change (String a s ++ String c "") with (String a (s ++ String c "")).
    cbn [String.length pystr.times String.eqb]. now rewrite IH.
Qed.

(** A string with a character in it ends with some character. *)
Lemma last_char (a : ascii) (s : string) :
  exists s' b, String a s = s' ++ String b "".
Proof.
  revert a. induction s as [|a' s IH]; intros a.
  - now exists "", a.
  - destruct (IH a') as [s' [b H]]. exists (String a s'), b.
    simpl. now rewrite H.
Qed.

End pystr_facts.

(* ================================================================= *)
(** * Facts about [os.path] *)

Module posixpath_facts.
Import pystr_facts.

Lemma dirname_no_sep (p : string) :
  pystr.rfind posixpath.sep p = (-1)%Z -> posixpath.dirname p = "".
Proof.
  intros H. unfold posixpath.dirname, pystr.slice_to. rewrite H. simpl.
  now rewrite substring_zero.
Qed.

(** The head that [dirname] cuts: everything up to the last separator. *)
Lemma head_split (s t : string) :
  pystr.rfind posixpath.sep t = (-1)%Z ->
  pystr.slice_to (s ++ String posixpath.sep t)
                 (pystr.rfind posixpath.sep (s ++ String posixpath.sep t) + 1)
  = s ++ String posixpath.sep "".
Proof.
  intros Ht. unfold pystr.slice_to. rewrite (rfind_at_split _ s t Ht).
  replace (Z.to_nat (Z.of_nat (String.length s) + 1))
    with (String.length (s ++ String posixpath.sep "")).
  - replace (s ++ String posixpath.sep t)
      with ((s ++ String posixpath.sep "") ++ t)
      by (now rewrite app_assoc).
    apply substring_prefix.
  - rewrite length_app. simpl. lia.
Qed.

Lemma dirname_split (s t : string) :
  pystr.rfind posixpath.sep t = (-1)%Z ->
  posixpath.dirname (s ++ String posixpath.sep t)
  = if String.eqb s (pystr.times posixpath.sep (String.length s))
    then s ++ String posixpath.sep ""
    else pystr.rstrip posixpath.sep s.
Proof.
  intros Ht. unfold posixpath.dirname. cbv zeta.
  rewrite (head_split s t Ht), all_sep_snoc.
  replace (String.eqb (s ++ String posixpath.sep "") "") with false
    by (destruct s; reflexivity).
  cbn [negb andb].
  destruct (String.eqb s (pystr.times posixpath.sep (String.length s))); cbn [negb].
  - reflexivity.
  - apply rstrip_snoc.
Qed.

(** [dirname] gives back its argument or a shorter string. *)
Lemma dirname_fix_or_shorter (p : string) :
  posixpath.dirname p = p \/
  String.length (posixpath.dirname p) < String.length p.
Proof.
  destruct (rfind_split posixpath.sep p) as [H | [s [t [Hp Ht]]]].
  - rewrite (dirname_no_sep p H). destruct p; [now left | right; simpl; lia].
  - subst p. rewrite (dirname_split s t Ht).
    destruct (String.eqb s (pystr.times posixpath.sep (String.length s))).
    + destruct t.
      * now left.
      * right. rewrite !length_app. simpl. lia.
    + right. pose proof (rstrip_length posixpath.sep s).
      rewrite length_app. simpl. lia.
Qed.

Lemma dirname_length (p : string) :
  String.length (posixpath.dirname p) <= String.length p.
Proof.
  destruct (dirname_fix_or_shorter p) as [H | H]; [rewrite H|]; lia.
Qed.

(** Whatever is joined to the root is absolute. *)
Lemma isabs_join_root (b : string) : posixpath.isabs (posixpath.join "/" b) = true.
Proof.
  unfold posixpath.join, posixpath.isabs.
  destruct (pystr.startswith b "/") eqn:E; [exact E|].
  reflexivity.
Qed.

End posixpath_facts.

(* ================================================================= *)
(** * Facts about the list functions *)

Module pylist_facts.
Import py spec pystr_facts.
#[local] Open Scope list_scope.

Lemma insert_by_len_perm (x : string) (l : list string) :
  Permutation (x :: l) (insert_by_len x l).
Proof.
  induction l as [|y r IH]; simpl; [reflexivity|].
  destruct (String.length x <=? String.length y)%nat; [reflexivity|].
  rewrite perm_swap. now apply perm_skip.
Qed.

Lemma sorted_by_len_perm (l : list string) : Permutation l (sorted_by_len l).
Proof.
  induction l as [|x r IH]; simpl; [constructor|].
  rewrite <- insert_by_len_perm. now apply perm_skip.
Qed.

Lemma insert_by_len_sorted (x : string) (l : list string) :
  StronglySorted len_le l -> StronglySorted len_le (insert_by_len x l).
Proof.
  induction 1 as [|y r Hr IH Hy]; simpl.
  - repeat constructor.
  - destruct (String.length x <=? String.length y)%nat eqn:E.
    + apply Nat.leb_le in E. constructor; [now constructor|].
      constructor; [exact E|].
      eapply Forall_impl; [|exact Hy]. unfold len_le. intros; lia.
    + apply Nat.leb_gt in E. constructor; [exact IH|].
      rewrite <- insert_by_len_perm. constructor; [unfold len_le; lia | exact Hy].
Qed.

Lemma sorted_by_len_sorted (l : list string) : StronglySorted len_le (sorted_by_len l).
Proof.
  induction l as [|x r IH]; simpl; [constructor | now apply insert_by_len_sorted].
Qed.

(** [l.remove(x)] raises exactly when [x] is not in [l] ... *)
Lemma list_remove_raises (x : string) (l : list string) :
  ~ In x l -> list_remove x l = Raise (ValueError "list.remove(x): x not in list").
Proof.
  induction l as [|y r IH]; simpl; intros H; [reflexivity|].
  destruct (String.eqb y x) eqn:E.
  - apply String.eqb_eq in E. tauto.
  - rewrite IH; tauto.
Qed.

(** ... and otherwise takes one occurrence away. *)
Lemma list_remove_splits (x : string) (l : list string) :
  In x l ->
  exists l1 l2, l = l1 ++ x :: l2 /\ ~ In x l1 /\ list_remove x l = Ret (l1 ++ l2).
Proof.
  induction l as [|y r IH]; simpl; intros H; [contradiction|].
  destruct (String.eqb y x) eqn:E.
  - apply String.eqb_eq in E. subst y. exists [], r. auto.
  - apply String.eqb_neq in E. destruct H as [H | H]; [contradiction|].
    destruct (IH H) as [l1 [l2 [Hl [Hn Hr]]]].
    exists (y :: l1), l2. rewrite Hr. subst r. simpl. intuition.
Qed.

Lemma sorted_tail (l1 l2 : list string) :
  StronglySorted len_le (l1 ++ l2) -> StronglySorted len_le l2.
Proof.
  induction l1 as [|a l1 IH]; simpl; intros H; [exact H|].
  apply StronglySorted_inv in H. now apply IH.
Qed.

(** In a list sorted by length the shorter of two members comes first. *)
Lemma shorter_before (l : list string) (x y : string) :
  StronglySorted len_le l -> In x l -> In y l ->
  String.length x < String.length y -> before x y l.
Proof.
  intros Hs Hx Hy Hlt.
  apply in_split in Hx. destruct Hx as [l1 [l2 Hl]]. subst l.
  apply in_app_or in Hy. destruct Hy as [Hy | [Hy | Hy]].
  - exfalso. apply in_split in Hy. destruct Hy as [m1 [m2 Hm]]. subst l1.
    rewrite <- List.app_assoc in Hs. apply sorted_tail in Hs.
    simpl in Hs. apply StronglySorted_inv in Hs. destruct Hs as [_ Hall].
    rewrite Forall_forall in Hall.
    assert (len_le y x) as Hle by (apply Hall; apply in_or_app; right; now left).
    unfold len_le in Hle. lia.
  - subst y. lia.
  - apply in_split in Hy. destruct Hy as [m1 [m2 Hm]]. subst l2.
    now exists l1, m1, m2.
Qed.

Lemma sorted_remove_middle (l1 l2 : list string) (x : string) :
  StronglySorted len_le (l1 ++ x :: l2) -> StronglySorted len_le (l1 ++ l2).
Proof.
  induction l1 as [|a l1 IH]; simpl; intros H.
  - now apply StronglySorted_inv in H.
  - apply StronglySorted_inv in H. destruct H as [H Hall].
    constructor; [now apply IH|].
    rewrite Forall_forall in *. intros z Hz. apply Hall.
    apply in_app_or in Hz. apply in_or_app. simpl. tauto.
Qed.

End pylist_facts.

(* ================================================================= *)
(** * [_get_all_parent_dirs] *)

Module parents_facts.
Import py spec pystr_facts posixpath_facts pylist_facts.
#[local] Open Scope list_scope.

Lemma dirname_iter_succ (k : nat) (p : string) :
  dirname_iter (S k) p = dirname_iter k (posixpath.dirname p).
Proof. unfold dirname_iter. apply Nat.iter_succ_r. Qed.

(** The loop ends: [len(cursor) + 2] tests of its condition are enough. *)
Lemma parents_loop_total (n : nat) :
  forall cursor output fuel,
    String.length cursor <= n -> n + 2 <= fuel ->
    exists out, r_copy.parents_loop fuel cursor output = Some out.
Proof.
  induction n as [|n IH]; intros cursor output fuel Hlen Hfuel.
  all: destruct fuel as [|fuel]; [lia|]; cbn [r_copy.parents_loop]; cbv zeta.
  all: destruct (pystr.mem (posixpath.dirname cursor) output) eqn:M; [now eexists|].
  all: destruct (dirname_fix_or_shorter cursor) as [Hfix | Hshort]; try lia.
  1,2: rewrite Hfix; destruct fuel as [|fuel]; [lia|]; cbn [r_copy.parents_loop]; cbv zeta.
  1,2: rewrite Hfix.
  1,2: replace (pystr.mem cursor (output ++ [cursor])) with true; [now eexists|].
  1,2: symmetry; apply mem_In; apply in_or_app; right; now left.
  apply IH; lia.
Qed.

(** What the loop adds: parents of the path, none of them twice. *)
Lemma parents_loop_extends (fuel : nat) :
  forall cursor output out,
    r_copy.parents_loop fuel cursor output = Some out ->
    exists added,
      out = output ++ added
      /\ (forall x, In x added -> exists k, x = dirname_iter (S k) cursor)
      /\ (NoDup output -> NoDup out).
Proof.
  induction fuel as [|fuel IH]; intros cursor output out H; [discriminate|].
  cbn [r_copy.parents_loop] in H. cbv zeta in H.
  destruct (pystr.mem (posixpath.dirname cursor) output) eqn:M.
  - injection H as <-. exists []. rewrite List.app_nil_r.
    split; [reflexivity|]. split; [intros x []| auto].
  - apply IH in H. destruct H as [added [Hout [Hin Hnd]]].
    exists (posixpath.dirname cursor :: added).
    split; [rewrite Hout, <- List.app_assoc; reflexivity|]. split.
    + intros x [Hx | Hx].
      * exists 0. now subst x.
      * destruct (Hin x Hx) as [k Hk]. exists (S k).
        now rewrite dirname_iter_succ.
    + intros Hno. apply Hnd. apply NoDup_app; [exact Hno | repeat constructor; auto |].
      intros x Hx [Hx' | []]. subst x.
      apply mem_false in M. contradiction.
Qed.

(** All parents of the path are in the output when the loop ends, and the
    output holds the parent of each member, provided that it did so on
    entry for every member but the cursor. *)
Lemma parents_loop_closed (fuel : nat) :
  forall cursor output out,
    r_copy.parents_loop fuel cursor output = Some out ->
    (forall d, In d output -> d = cursor \/ In (posixpath.dirname d) output) ->
    dirname_closed out /\ forall k, In (dirname_iter (S k) cursor) out.
Proof.
  induction fuel as [|fuel IH]; intros cursor output out H Q; [discriminate|].
  cbn [r_copy.parents_loop] in H. cbv zeta in H.
  destruct (pystr.mem (posixpath.dirname cursor) output) eqn:M.
  - injection H as <-. apply mem_In in M.
    assert (dirname_closed output) as C.
    { intros d Hd. destruct (Q d Hd) as [-> | Hd']; assumption. }
    split; [exact C|].
    induction k as [|k IHk]; [exact M|].
    change (dirname_iter (S (S k)) cursor)
      with (posixpath.dirname (dirname_iter (S k) cursor)).
    now apply C.
  - pose proof (parents_loop_extends _ _ _ _ H) as [added [Hext _]].
    apply IH in H.
    + destruct H as [C Hk]. split; [exact C|].
      intros [|k].
      * rewrite Hext. apply in_or_app. left. apply in_or_app. right. now left.
      * rewrite dirname_iter_succ. apply Hk.
    + intros d Hd. apply in_app_or in Hd. destruct Hd as [Hd | [<- | []]].
      * right. apply in_or_app.
        destruct (Q d Hd) as [-> | Hd']; [right; now left | now left].
      * now left.
Qed.

(** The [for] loop over the paths. *)
Lemma parents_for_spec (paths : list string) :
  forall output,
    dirname_closed output -> NoDup output ->
    exists out,
      r_copy.parents_for paths output = Some out
      /\ dirname_closed out /\ NoDup out
      /\ forall x, In x out <->
                   In x output \/ exists p k, In p paths /\ x = dirname_iter (S k) p.
Proof.
  induction paths as [|path rest IH]; intros output C N.
  - exists output. cbn. repeat split; auto.
    + intros [H | [p [k [[] _]]]]. exact H.
  - cbn [r_copy.parents_for].
    destruct (parents_loop_total (String.length path) path output
                (String.length path + 2) (le_n _) (le_n _)) as [out1 H1].
    rewrite H1.
    destruct (parents_loop_extends _ _ _ _ H1) as [added [Hext [Hadded Hnd]]].
    destruct (parents_loop_closed _ _ _ _ H1) as [C1 Hk1].
    { intros d Hd. right. now apply C. }
    destruct (IH out1 C1 (Hnd N)) as [out [Hout [C2 [N2 Hin]]]].
    exists out. repeat split; auto.
    + intros Hx. apply Hin in Hx. destruct Hx as [Hx | [p [k [Hp Hx]]]].
      * rewrite Hext in Hx. apply in_app_or in Hx. destruct Hx as [Hx | Hx]; [now left|].
        right. destruct (Hadded x Hx) as [k Hk]. exists path, k. split; [now left | exact Hk].
      * right. exists p, k. split; [now right | exact Hx].
    + intros [Hx | [p [k [[<- | Hp] Hx]]]]; apply Hin.
      * left. rewrite Hext. apply in_or_app. now left.
      * left. subst x. apply Hk1.
      * right. now exists p, k.
Qed.

(** [_get_all_parent_dirs] never runs out of iterations. *)
Lemma get_all_parent_dirs_total (paths : list string) :
  r_copy._get_all_parent_dirs paths <> Diverge.
Proof.
  unfold r_copy._get_all_parent_dirs.
  destruct (negb (forallb posixpath.isabs paths)); [discriminate|].
  destruct (parents_for_spec paths []) as [out [H _]].
  - intros d [].
  - constructor.
  - rewrite H. discriminate.
Qed.

(** On absolute paths it returns the parents of the paths: each of them
    once, and the parent of each member with it. *)
Lemma get_all_parent_dirs_spec (paths : list string) :
  forallb posixpath.isabs paths = true ->
  exists out,
    r_copy._get_all_parent_dirs paths = Ret out
    /\ dirname_closed out /\ NoDup out
    /\ forall x, In x out <-> exists p k, In p paths /\ x = dirname_iter (S k) p.
Proof.
  intros Habs. unfold r_copy._get_all_parent_dirs. rewrite Habs. cbn [negb].
  destruct (parents_for_spec paths []) as [out [H [C [N Hin]]]].
  - intros d [].
  - constructor.
  - rewrite H. exists out. repeat split; auto.
    + intros Hx. apply Hin in Hx. destruct Hx as [[] | Hx]. exact Hx.
    + intros Hx. apply Hin. now right.
Qed.

End parents_facts.

(* ================================================================= *)
(** * Paths spelled by lists of names *)

Module path_facts.
Import py spec pystr_facts posixpath_facts.

Lemma name_ok_inv (c : string) :
  localfs.name_ok c = true ->
  c <> "" /\ pystr.rfind posixpath.sep c = (-1)%Z.
Proof.
  unfold localfs.name_ok. intros H. apply andb_prop in H. destruct H as [H1 H2].
  apply Z.eqb_eq in H2. split; [|exact H2].
  intros ->. discriminate.
Qed.

Lemma concat_app (l1 l2 : list string) :
  l1 <> [] -> l2 <> [] ->
  String.concat "/" (l1 ++ l2)
  = String.concat "/" l1 ++ String posixpath.sep (String.concat "/" l2).
Proof.
  intros H1 H2. induction l1 as [|a l1 IH]; [congruence|].
  destruct l1 as [|b l1].
  - destruct l2 as [|c l2]; [congruence|]. reflexivity.
  - change (String.concat "/" ((a :: b :: l1) ++ l2))
      with (a ++ "/" ++ String.concat "/" ((b :: l1) ++ l2)).
    rewrite IH by discriminate.
    change (String.concat "/" (a :: b :: l1))
      with (a ++ "/" ++ String.concat "/" (b :: l1)).
    now rewrite !app_assoc.
Qed.

Lemma path_of_app (l1 l2 : list string) :
  l1 <> [] -> l2 <> [] ->
  path_of (l1 ++ l2) = path_of l1 ++ String posixpath.sep (String.concat "/" l2).
Proof.
  intros H1 H2. unfold path_of. rewrite (concat_app l1 l2 H1 H2).
  now rewrite app_assoc.
Qed.

Lemma path_of_single (c : string) : path_of [c] = String posixpath.sep c.
Proof. reflexivity. Qed.

(** A path of names ends with the last character of its last name. *)
Lemma path_of_ends (names : list string) :
  names_ok names -> names <> [] ->
  exists s b, path_of names = s ++ String b "" /\ Ascii.eqb b posixpath.sep = false.
Proof.
  intros Hok Hne.
  destruct (exists_last Hne) as [front [c Hnames]]. subst names.
  apply Forall_app in Hok. destruct Hok as [_ Hc].
  apply Forall_inv in Hc. apply name_ok_inv in Hc. destruct Hc as [Hc1 Hc2].
  destruct c as [|a c]; [congruence|].
  destruct (last_char a c) as [c' [b Hb]].
  rewrite Hb in Hc2. apply rfind_absent_app in Hc2. destruct Hc2 as [_ Hc2].
  apply rfind_absent_cons in Hc2. destruct Hc2 as [Hb' _].
  exists (match front with
          | [] => String posixpath.sep c'
          | _ => path_of front ++ String posixpath.sep c'
          end), b.
  split; [|exact Hb'].
  destruct front as [|f front].
  - cbn [List.app]. rewrite path_of_single, Hb. reflexivity.
  - rewrite path_of_app by discriminate. cbn [String.concat].
    rewrite Hb. rewrite app_assoc. reflexivity.
Qed.

Lemma not_all_sep (s : string) (b : ascii) :
  Ascii.eqb b posixpath.sep = false ->
  String.eqb (s ++ String b "")
             (pystr.times posixpath.sep (String.length (s ++ String b ""))) = false.
Proof.
  intros Hb. induction s as [|a s IH].
  - simpl. now rewrite Hb.
  - change (String a s ++ String b "") with (String a (s ++ String b "")).
    cbn [String.length pystr.times String.eqb]. rewrite IH.
    destruct (Ascii.eqb a posixpath.sep); reflexivity.
Qed.

(** The parent of a path of names is the path of the names but the last. *)
Lemma dirname_path_of_snoc (names : list string) (c : string) :
  names_ok names -> localfs.name_ok c = true ->
  posixpath.dirname (path_of (names ++ [c])) = path_of names.
Proof.
  intros Hok Hc. apply name_ok_inv in Hc. destruct Hc as [_ Hc].
  destruct names as [|n names].
  - cbn [List.app]. rewrite path_of_single.
    change (String posixpath.sep c) with ("" ++ String posixpath.sep c).
    rewrite (dirname_split "" c Hc). reflexivity.
  - rewrite path_of_app by discriminate. cbn [String.concat].
    rewrite (dirname_split _ c Hc).
    destruct (path_of_ends (n :: names) Hok) as [s [b [Hs Hb]]]; [discriminate|].
    rewrite Hs. rewrite (not_all_sep s b Hb). now apply rstrip_keeps.
Qed.

Lemma dirname_root : posixpath.dirname (path_of []) = path_of [].
Proof. reflexivity. Qed.

(** [k] steps up from a path of names. *)
Lemma dirname_iter_path_of (k : nat) :
  forall names,
    names_ok names ->
    dirname_iter k (path_of names) = path_of (firstn (List.length names - k) names).
Proof.
  induction k as [|k IH]; intros names Hok.
  - cbn. now rewrite Nat.sub_0_r, firstn_all.
  - rewrite parents_facts.dirname_iter_succ.
    destruct names as [|n names] using rev_ind.
    + rewrite dirname_root. rewrite IH by constructor. reflexivity.
    + clear IHnames. apply Forall_app in Hok. destruct Hok as [Hok Hn].
      apply Forall_inv in Hn.
      rewrite (dirname_path_of_snoc names n Hok Hn), (IH names Hok).
      rewrite List.length_app. cbn [List.length].
      replace (List.length names + 1 - S k) with (List.length names - k) by lia.
      rewrite firstn_app.
      replace (List.length names - k - List.length names) with 0 by lia.
      cbn [firstn]. now rewrite List.app_nil_r.
Qed.

Lemma path_of_root (names : list string) :
  names_ok names -> path_of names = "/" -> names = [].
Proof.
  intros Hok H. destruct names as [|n names]; [reflexivity|].
  apply Forall_inv in Hok. apply name_ok_inv in Hok. destruct Hok as [Hn _].
  exfalso. unfold path_of in H. injection H as H.
  destruct names; cbn [String.concat] in H; destruct n; try congruence; discriminate.
Qed.

(** What [run] builds for a file: [os.path.join("/", relative_src_path)]. *)
Lemma join_root_names (names : list string) :
  names_ok names ->
  posixpath.join "/" (posixpath.relpath_below names) = path_of names.
Proof.
  intros Hok. unfold posixpath.join, posixpath.relpath_below, path_of.
  replace (pystr.startswith (String.concat "/" names) "/") with false; [reflexivity|].
  destruct names as [|n names]; [reflexivity|].
  apply Forall_inv in Hok. apply name_ok_inv in Hok. destruct Hok as [Hn Hs].
  destruct n as [|a n]; [congruence|].
  apply rfind_absent_cons in Hs. destruct Hs as [Ha _].
  unfold posixpath.sep in Ha.
  destruct names; cbn [String.concat String.append pystr.startswith]; now rewrite Ha.
Qed.

Lemma path_of_longer (above rest : list string) :
  above <> [] -> rest <> [] ->
  String.length (path_of above) < String.length (path_of (above ++ rest)).
Proof.
  intros Ha Hr. rewrite (path_of_app above rest Ha Hr), length_app. simpl. lia.
Qed.

(** The parent of a path of names is shorter than the path. *)
Lemma dirname_path_of_shorter (names : list string) :
  names_ok names -> names <> [] ->
  String.length (posixpath.dirname (path_of names)) < String.length (path_of names).
Proof.
  intros Hok Hne. destruct (exists_last Hne) as [front [c ->]].
  apply Forall_app in Hok as Hok'. destruct Hok' as [Hf Hc]. apply Forall_inv in Hc.
  rewrite (dirname_path_of_snoc front c Hf Hc).
  destruct front as [|f front].
  - apply name_ok_inv in Hc. destruct Hc as [Hc _].
    destruct c; [congruence | cbn; lia].
  - apply path_of_longer; discriminate.
Qed.

End path_facts.

(* ================================================================= *)
(** * The walk of the source tree *)

Module walk_facts.
Import py spec pystr_facts posixpath_facts path_facts.
#[local] Open Scope list_scope.

(** Induction on a tree, with the property known for all sub-directories. *)
Lemma tree_induction (P : localfs.tree -> Prop) :
  (forall filenames subdirs,
      Forall (fun ds => P (snd ds)) subdirs -> P (localfs.Dir filenames subdirs)) ->
  forall t, P t.
Proof.
  intros H. fix IH 1. intros [filenames subdirs]. apply H.
  induction subdirs as [|ds subdirs IHs]; constructor.
  - apply IH.
  - exact IHs.
Qed.

(** A tree without files gives no file to the walk. *)
Lemma walk_no_files (t : localfs.tree) :
  localfs.no_files t = true ->
  forall dirpath below,
    Forall (fun entry => snd entry = []) (localfs.walk dirpath below t).
Proof.
  induction t as [filenames subdirs IH] using tree_induction.
  cbn [localfs.no_files localfs.walk]. intros H dirpath below.
  apply andb_prop in H. destruct H as [Hf Hs].
  constructor; [destruct filenames; [reflexivity | discriminate]|].
  rewrite forallb_forall in Hs. rewrite Forall_forall in IH.
  apply Forall_forall. intros entry He. apply in_flat_map in He.
  destruct He as [ds [Hds He]].
  specialize (IH ds Hds (Hs ds Hds) (posixpath.join dirpath (fst ds)) (below ++ [fst ds])).
  rewrite Forall_forall in IH. now apply IH.
Qed.

Lemma no_files_no_tuples (root : string) (t : localfs.tree) :
  localfs.no_files t = true -> r_copy.src_dest_tuples root t = [].
Proof.
  intros H. unfold r_copy.src_dest_tuples.
  pose proof (walk_no_files t H root []) as F.
  induction F as [|[[dirpath below] filenames] l Hx F IH]; [reflexivity|].
  cbn [flat_map]. cbn in Hx. subst filenames. cbn [map List.app]. exact IH.
Qed.

(** In a tree of entry names the walk meets entry names only. *)
Lemma walk_names_ok (t : localfs.tree) :
  localfs.tree_ok t = true ->
  forall dirpath below,
    names_ok below ->
    Forall (fun entry => names_ok (snd (fst entry)) /\ names_ok (snd entry))
           (localfs.walk dirpath below t).
Proof.
  induction t as [filenames subdirs IH] using tree_induction.
  cbn [localfs.tree_ok localfs.walk]. intros H dirpath below Hb.
  apply andb_prop in H. destruct H as [Hf Hs].
  constructor.
  - cbn. split; [exact Hb|]. apply Forall_forall. rewrite forallb_forall in Hf. exact Hf.
  - rewrite forallb_forall in Hs. rewrite Forall_forall in IH.
    apply Forall_forall. intros entry He. apply in_flat_map in He.
    destruct He as [ds [Hds He]].
    specialize (Hs ds Hds). apply andb_prop in Hs. destruct Hs as [Hn Ht].
    assert (names_ok (below ++ [fst ds])) as Hb'.
    { apply Forall_app. split; [exact Hb | now constructor]. }
    specialize (IH ds Hds Ht (posixpath.join dirpath (fst ds)) (below ++ [fst ds]) Hb').
    rewrite Forall_forall in IH. now apply IH.
Qed.


(** The destination files of [run] are made from the names of the walk. *)
Lemma destination_files_names (root : string) (t : localfs.tree) :
  map snd (r_copy.src_dest_tuples root t)
  = map (fun names => posixpath.join "/" (posixpath.relpath_below names))
        (file_names root t).
Proof.
  unfold r_copy.src_dest_tuples, file_names.
  induction (localfs.walk root [] t) as [|[[dirpath below] filenames] l IH]; [reflexivity|].
  cbn [flat_map]. rewrite !map_app, IH. f_equal.
  cbn [fst snd]. rewrite !map_map. reflexivity.
Qed.

Lemma destination_files_absolute (root : string) (t : localfs.tree) :
  forallb posixpath.isabs (map snd (r_copy.src_dest_tuples root t)) = true.
Proof.
  rewrite destination_files_names. apply forallb_forall. intros p Hp.
  apply in_map_iff in Hp. destruct Hp as [names [<- _]]. apply isabs_join_root.
Qed.

End walk_facts.

(* ================================================================= *)
(** * The destination directories of [run] *)

Module dirs_facts.
Import py spec pystr_facts posixpath_facts pylist_facts parents_facts path_facts.
#[local] Open Scope list_scope.

(** The sorted parents without the root, for absolute paths one of which
    lies below the root. *)
Lemma destination_dirs_spec (paths : list string) :
  forallb posixpath.isabs paths = true ->
  (exists p k, In p paths /\ dirname_iter (S k) p = "/") ->
  exists dirs,
    r_copy.destination_dirs paths = Ret dirs
    /\ NoDup dirs
    /\ StronglySorted len_le dirs
    /\ (forall d, In d dirs <->
                  d <> "/" /\ exists p k, In p paths /\ d = dirname_iter (S k) p)
    /\ (forall d, In d dirs ->
                  posixpath.dirname d = "/" \/ In (posixpath.dirname d) dirs).
Proof.
  intros Habs [p0 [k0 [Hp0 Hroot]]].
  destruct (get_all_parent_dirs_spec paths Habs) as [out [Hout [C [N Hin]]]].
  unfold r_copy.destination_dirs. rewrite Hout.
  pose proof (sorted_by_len_perm out) as P.
  pose proof (sorted_by_len_sorted out) as S.
  assert (In "/" (sorted_by_len out)) as Hr.
  { eapply Permutation_in; [exact P|]. apply Hin. exists p0, k0. now split. }
  destruct (list_remove_splits "/" _ Hr) as [l1 [l2 [Hl [Hn1 Hrem]]]].
  rewrite Hrem. exists (l1 ++ l2).
  assert (NoDup (l1 ++ "/" :: l2)) as N'.
  { rewrite <- Hl. eapply Permutation_NoDup; [exact P | exact N]. }
  assert (forall d, In d (l1 ++ l2) <-> d <> "/" /\ In d out) as M.
  { intros d. split.
    - intros Hd. split.
      + intros ->. apply NoDup_remove_2 in N'. contradiction.
      + eapply Permutation_in; [symmetry; exact P|]. rewrite Hl.
        apply in_app_or in Hd. apply in_or_app. simpl. tauto.
    - intros [Hne Hd]. eapply Permutation_in in Hd; [|exact P]. rewrite Hl in Hd.
      apply in_app_or in Hd. apply in_or_app.
      destruct Hd as [Hd | [Hd | Hd]]; [now left | congruence | now right]. }
  split; [reflexivity|]. split; [now apply NoDup_remove_1 in N'|].
  split; [rewrite Hl in S; now apply sorted_remove_middle in S|].
  split.
  - intros d. rewrite M, Hin. reflexivity.
  - intros d Hd. apply M in Hd. destruct Hd as [_ Hd].
    destruct (String.eqb_spec (posixpath.dirname d) "/") as [E | E]; [now left|].
    right. apply M. split; [exact E | now apply C].
Qed.

(** Without any path there is no root to remove. *)
Lemma destination_dirs_none :
  r_copy.destination_dirs [] = Raise (ValueError "list.remove(x): x not in list").
Proof. reflexivity. Qed.

(** The destination paths of files given by their names. *)
Lemma dest_paths_of_names (files : list (list string)) :
  Forall names_ok files ->
  map (fun names => posixpath.join "/" (posixpath.relpath_below names)) files
  = map path_of files.
Proof.
  intros H. apply map_ext_in. intros names Hn.
  rewrite Forall_forall in H. now apply join_root_names, H.
Qed.

Lemma isabs_path_of (names : list string) : posixpath.isabs (path_of names) = true.
Proof. reflexivity. Qed.

(** The parents of a file, as steps of [dirname] and as prefixes of its
    names. *)
Lemma ancestor_steps (names : list string) (d : string) :
  names_ok names -> names <> [] ->
  (d <> "/" /\ exists k, d = dirname_iter (S k) (path_of names))
  <-> strict_ancestor d names.
Proof.
  intros Hok Hne. split.
  - intros [Hd [k Hk]]. rewrite (dirname_iter_path_of _ names Hok) in Hk.
    exists (firstn (List.length names - S k) names),
           (skipn (List.length names - S k) names).
    split; [intros E; rewrite E in Hk; now subst d|].
    split.
    + intros E. apply (f_equal (@List.length string)) in E.
      rewrite length_skipn in E. cbn in E.
      destruct names; [congruence | cbn [List.length] in E; lia].
    + split; [now rewrite firstn_skipn | exact Hk].
  - intros [above [rest [Ha [Hr [Hn Hd]]]]]. subst names d.
    apply Forall_app in Hok as Hok'. destruct Hok' as [Hoka _].
    split.
    + intros E. apply (path_of_root above Hoka) in E. contradiction.
    + exists (List.length rest - 1).
      rewrite (dirname_iter_path_of _ _ Hok). rewrite List.length_app.
      replace (List.length above + List.length rest - S (List.length rest - 1))
        with (List.length above + 0)
        by (destruct rest; [congruence | cbn [List.length]; lia]).
      rewrite firstn_app_2. cbn [firstn]. now rewrite List.app_nil_r.
Qed.

(** The directory list of [run] for files given by their names. *)
Lemma destination_dirs_of_names (files : list (list string)) :
  files <> [] ->
  Forall (fun names => names <> []) files ->
  Forall names_ok files ->
  exists dirs,
    r_copy.destination_dirs
      (map (fun names => posixpath.join "/" (posixpath.relpath_below names)) files)
    = Ret dirs
    /\ NoDup dirs
    /\ StronglySorted len_le dirs
    /\ (forall d, In d dirs <-> exists names, In names files /\ strict_ancestor d names)
    /\ (forall d, In d dirs ->
                  posixpath.dirname d = "/" \/ In (posixpath.dirname d) dirs)
    /\ (forall d, In d dirs ->
                  String.length (posixpath.dirname d) < String.length d).
Proof.
  intros Hne Hnames Hok.
  rewrite (dest_paths_of_names files Hok).
  rewrite Forall_forall in Hnames, Hok.
  destruct (destination_dirs_spec (map path_of files))
    as [dirs [Hdirs [N [S [M C]]]]].
  { apply forallb_forall. intros p Hp. apply in_map_iff in Hp.
    destruct Hp as [names [<- _]]. apply isabs_path_of. }
  { destruct files as [|names0 files']; [congruence|].
    exists (path_of names0), (List.length names0 - 1). split; [now left|].
    rewrite dirname_iter_path_of by (apply Hok; now left).
    replace (List.length names0 - S (List.length names0 - 1)) with 0; [reflexivity|].
    assert (names0 <> []) by (apply Hnames; now left).
    destruct names0; [congruence | cbn [List.length]; lia]. }
  assert (forall d, In d dirs <-> exists names, In names files /\ strict_ancestor d names)
    as M'.
  { intros d. rewrite M. split.
    - intros [Hd [p [k [Hp Hk]]]]. apply in_map_iff in Hp.
      destruct Hp as [names [<- Hin]]. exists names. split; [exact Hin|].
      apply ancestor_steps; [now apply Hok | now apply Hnames|].
      split; [exact Hd | now exists k].
    - intros [names [Hin Ha]].
      apply ancestor_steps in Ha; [| now apply Hok | now apply Hnames].
      destruct Ha as [Hd [k Hk]]. split; [exact Hd|].
      exists (path_of names), k. split; [now apply in_map | exact Hk]. }
  exists dirs. repeat split; try assumption; try (now apply M').
  intros d Hd. apply M' in Hd.
  destruct Hd as [names [Hin [above [rest [Ha [_ [Hn ->]]]]]]].
  apply dirname_path_of_shorter; [|exact Ha].
  specialize (Hok names Hin). rewrite Hn in Hok. now apply Forall_app in Hok.
Qed.

End dirs_facts.

(* ================================================================= *)
(** * The driver of the copy variant *)

Module driver_facts.
Import py spec pystr_facts pylist_facts.
#[local] Open Scope list_scope.

Lemma update_failed (r : result) (o : task_output) :
  failed (r_copy._update_result_from_task r o) = is_True (o_failed o) || failed r.
Proof. cbn. destruct (is_True (o_failed o)); reflexivity. Qed.


Lemma perform_spec {W : Type} (remote : W -> r_copy.op -> task_output * W)
      (o : r_copy.op) (st : r_copy.state W) :
  exists out,
    r_copy.issued (r_copy.perform remote o st) = r_copy.issued st ++ [(o, out)]
    /\ r_copy.result_ (r_copy.perform remote o st)
       = r_copy._update_result_from_task (r_copy.result_ st) out.
Proof.
  unfold r_copy.perform. destruct (remote (r_copy.world st) o) as [out w'].
  exists out. split; reflexivity.
Qed.

(** One loop of [run]: it issues the operations of a prefix of its list,
    in order; no report but the last can say [failed]; it leaves through
    the [return] exactly when the last report says [failed]. *)
Lemma for_each_spec {W : Type} (remote : W -> r_copy.op -> task_output * W)
      {A : Type} (body : A -> r_copy.op) (xs : list A) :
  forall st st' left,
    r_copy.for_each remote body xs st = (st', left) ->
    failed (r_copy.result_ st) = false ->
    exists done rest new,
      xs = done ++ rest
      /\ r_copy.issued st' = r_copy.issued st ++ new
      /\ map fst new = map body done
      /\ r_copy.result_ st'
         = fold_left r_copy._update_result_from_task (map snd new) (r_copy.result_ st)
      /\ failed (r_copy.result_ st') = left
      /\ (left = false -> rest = [] /\ clean new)
      /\ (left = true ->
          exists init ev, new = init ++ [ev] /\ clean init
                          /\ is_True (o_failed (snd ev)) = true).
Proof.
  induction xs as [|x xs IH]; intros st st' left H Hf; cbn [r_copy.for_each] in H.
  - injection H as <- <-. exists [], [], [].
    split; [reflexivity|]. split; [now rewrite List.app_nil_r|].
    split; [reflexivity|]. split; [reflexivity|]. split; [exact Hf|].
    split; [intros _; split; [reflexivity | constructor] | discriminate].
  - cbv zeta in H.
    destruct (perform_spec remote (body x) st) as [out [Hi Hr]].
    destruct (failed (r_copy.result_ (r_copy.perform remote (body x) st))) eqn:F.
    + injection H as <- <-. exists [x], xs, [(body x, out)].
      pose proof F as F'.
      rewrite Hr in F'. rewrite update_failed, Hf, orb_false_r in F'.
      split; [reflexivity|]. split; [exact Hi|].
      split; [reflexivity|]. split; [exact Hr|]. split; [exact F|].
      split; [discriminate|].
      intros _. exists [], (body x, out). split; [reflexivity|].
      split; [constructor | exact F'].
    + destruct (IH _ _ _ H F)
        as [done [rest [new [Hxs [Hiss [Hmap [Hres [Hleft [Hfalse Htrue]]]]]]]]].
      rewrite Hr in F. rewrite update_failed, Hf, orb_false_r in F.
      exists (x :: done), rest, ((body x, out) :: new).
      split; [now rewrite Hxs|]. split; [rewrite Hiss, Hi, <- List.app_assoc; reflexivity|].
      split; [cbn; now rewrite Hmap|]. split; [cbn [map fold_left snd]; now rewrite Hres, Hr|].
      split; [exact Hleft|]. split.
      * intros E. destruct (Hfalse E) as [-> Hc]. split; [reflexivity|].
        constructor; assumption.
      * intros E. destruct (Htrue E) as [init [ev [-> [Hc Hev]]]].
        exists ((body x, out) :: init), ev. split; [reflexivity|].
        split; [constructor; assumption | exact Hev].
Qed.


(** [destination_dirs] returns or raises. *)
Lemma list_remove_total (x : string) (l : list string) :
  list_remove x l <> Diverge.
Proof.
  induction l as [|y l IH]; cbn; [discriminate|].
  destruct (String.eqb y x); [discriminate|].
  destruct (list_remove x l); [discriminate | discriminate | congruence].
Qed.

Lemma destination_dirs_total (paths : list string) :
  r_copy.destination_dirs paths <> Diverge.
Proof.
  unfold r_copy.destination_dirs.
  pose proof (parents_facts.get_all_parent_dirs_total paths) as H.
  destruct (r_copy._get_all_parent_dirs paths); [apply list_remove_total | discriminate | congruence].
Qed.

(** [run] returns a result or raises: no loop of the model reaches its
    bound. *)
Lemma run_total {W : Type} (remote : W -> r_copy.op -> task_output * W)
      (platform_system : string) (local : localfs.fs) (a : r_copy.args) (w : W) :
  r_copy.returned (r_copy.run remote platform_system local a w) <> Diverge.
Proof.
  unfold r_copy.run. cbv zeta.
  destruct (negb (pystr.mem (pystr.lower platform_system) r_copy.SUPPORTED_OS));
    [discriminate|].
  destruct (r_copy.required_args a) as [missing | r]; [discriminate|].
  destruct (r_copy.unsupported_arg a); [discriminate|].
  destruct (local (r_copy.r_src_root r)) as [tree|]; [|discriminate].
  destruct (r_copy.check_modes (r_copy.mode_values a r)); [discriminate|].
  pose proof (destination_dirs_total
                (map snd (r_copy.src_dest_tuples (r_copy.r_src_root r) tree))) as T.
  destruct (r_copy.destination_dirs _) as [dirs | e |]; [|discriminate | congruence].
  destruct (0 <? List.length _)%nat; [discriminate|].
  destruct (r_copy.for_each remote _ dirs _) as [st1 [|]]; [discriminate|].
  destruct (r_copy.for_each remote _ _ st1) as [st2 left2]. discriminate.
Qed.





End driver_facts.

(* ================================================================= *)
(** * The checks of [run] before the walk *)

Module mode_facts.
Import py spec.

Lemma octal_digit_range (c : ascii) :
  r_copy.octal_digit c = true <-> 48 <= nat_of_ascii c <= 55.
Proof.
  unfold r_copy.octal_digit. cbv zeta. rewrite andb_true_iff, !Nat.leb_le. reflexivity.
Qed.

Lemma fullmatch_octal_spec (n : nat) :
  forall s,
    r_copy.fullmatch_octal n s = true
    <-> String.length s = n
        /\ Forall (fun c => 48 <= nat_of_ascii c <= 55) (list_ascii_of_string s).
Proof.
  induction n as [|n IH]; intros [|c s]; cbn [r_copy.fullmatch_octal String.length
                                               list_ascii_of_string].
  - split; [intros _; split; [reflexivity | constructor] | reflexivity].
  - split; [discriminate | intros [H _]; discriminate].
  - split; [discriminate | intros [H _]; discriminate].
  - rewrite andb_true_iff, IH, octal_digit_range. split.
    + intros [Hc [Hl Hs]]. split; [now rewrite Hl | now constructor].
    + intros [Hl Hs]. apply Forall_cons_iff in Hs. destruct Hs as [Hc Hs].
      split; [exact Hc|]. split; [now injection Hl | exact Hs].
Qed.

Lemma fullmatch_four (s : string) :
  r_copy.fullmatch_octal 4 s = true <-> four_octal_digits s.
Proof. apply fullmatch_octal_spec. Qed.

(** The loop over the mode values passes when every value passes. *)
Lemma check_modes_all (modes : list scalar) :
  r_copy.check_modes modes = None ->
  forall v, In v modes -> r_copy.check_mode v = None.
Proof.
  induction modes as [|m modes IH]; cbn [r_copy.check_modes]; intros H v Hv; [destruct Hv|].
  destruct (r_copy.check_mode m) eqn:E; [discriminate|].
  destruct Hv as [<- | Hv]; [exact E | now apply IH].
Qed.

Lemma check_modes_some (modes : list scalar) (v : scalar) :
  In v modes -> r_copy.check_mode v <> None -> r_copy.check_modes modes <> None.
Proof.
  intros Hv Hbad Hnone. apply Hbad. now apply (check_modes_all modes Hnone).
Qed.

(** The values that the loop looks at are the ones the arguments give. *)
Lemma modes_given_checked (a : r_copy.args) (r : r_copy.required) :
  r_copy.required_args a = inr r ->
  forall v, In v (modes_given a) -> In v (r_copy.mode_values a r).
Proof.
  unfold r_copy.required_args, modes_given, r_copy.mode_values.
  destruct (r_copy.owner a); [|discriminate].
  destruct (r_copy.group a); [|discriminate].
  destruct (r_copy.mode a); [|discriminate].
  destruct (r_copy.parent_dirs_mode a); [|discriminate].
  destruct (r_copy.src_root a); [|discriminate].
  intros H. injection H as <-. cbn. tauto.
Qed.

End mode_facts.

(* ================================================================= *)
(** * The override tables *)

Module override_facts.
Import py spec pystr_facts.
#[local] Open Scope list_scope.

(** A loop that overwrites leaves what its last round wrote. *)
Lemma fold_overwrite (t : r_copy.table) :
  forall current : r_copy.table,
    fold_left
      (fun (_ : r_copy.table) (item : scalar * list string) =>
         [(fst item, map (pystr.rstrip posixpath.sep) (snd item))])
      t current
    = match rev t with
      | [] => current
      | (value, paths) :: _ => [(value, map (pystr.rstrip posixpath.sep) paths)]
      end.
Proof.
  induction t as [|[value paths] t IH]; intros current; cbn [fold_left rev]; [reflexivity|].
  rewrite IH. destruct (rev t) as [|[value' paths'] l]; reflexivity.
Qed.

(** The normalisation loop leaves the entry made in its last round. *)
Lemma normalize_last (t : r_copy.table) : r_copy.normalize t = last_entry_stripped t.
Proof.
  unfold r_copy.normalize, last_entry_stripped. rewrite fold_overwrite.
  destruct t as [|x t]; [reflexivity|].
  destruct (rev (x :: t)) as [|[value paths] l] eqn:E; [|reflexivity].
  apply (f_equal (@List.length _)) in E. rewrite length_rev in E. discriminate.
Qed.

Lemma last_entry_snoc (front : r_copy.table) (value : scalar) (paths : list string) :
  last_entry_stripped (front ++ [(value, paths)])
  = [(value, map (pystr.rstrip posixpath.sep) paths)].
Proof. unfold last_entry_stripped. now rewrite rev_unit. Qed.

(** A table of at most one entry answers with that entry. *)
Lemma first_override_last (t : r_copy.table) (path : string) :
  r_copy.first_override (last_entry_stripped t) path
  = entry_value (last_entry_stripped t) path.
Proof.
  unfold last_entry_stripped. destruct (rev t) as [|[value paths] l]; [reflexivity|].
  cbn. destruct (pystr.mem path _); reflexivity.
Qed.

(** *** The sets of [run] *)

Lemma set_add_In (s : list string) (x y : string) :
  In y (set_add s x) <-> In y s \/ y = x.
Proof.
  unfold set_add. destruct (pystr.mem x s) eqn:M.
  - apply mem_In in M. split; [now left | intros [H | ->]; assumption].
  - rewrite in_app_iff. cbn. intuition.
Qed.

Lemma fold_set_add_In (l : list string) :
  forall (s : list string) (y : string),
    In y (fold_left set_add l s) <-> In y s \/ In y l.
Proof.
  induction l as [|x l IH]; intros s y; cbn [fold_left].
  - cbn. tauto.
  - rewrite IH, set_add_In. cbn. intuition.
Qed.

Lemma set_of_In (l : list string) (y : string) : In y (set_of l) <-> In y l.
Proof. unfold set_of. rewrite fold_set_add_In. cbn. tauto. Qed.

Lemma set_minus_In (a b : list string) (y : string) :
  In y (set_minus a b) <-> In y a /\ ~ In y b.
Proof.
  unfold set_minus. rewrite filter_In, negb_true_iff, mem_false. reflexivity.
Qed.

(** The paths that [run] collects from one table, and from the three. *)
Lemma table_paths_In (t : r_copy.table) :
  forall (acc : list string) (y : string),
    In y (r_copy.add_table acc t)
    <-> In y acc \/ exists value paths, In (value, paths) t /\ In y paths.
Proof.
  unfold r_copy.add_table, r_copy.add_path_list.
  induction t as [|[value paths] t IH]; intros acc y; cbn [map fold_left snd].
  - split; [now left | intros [H | [v [ps [[] _]]]]; exact H].
  - rewrite IH, fold_set_add_In. split.
    + intros [[H | H] | [v [ps [Hin Hy]]]].
      * now left.
      * right. exists value, paths. split; [now left | exact H].
      * right. exists v, ps. split; [now right | exact Hy].
    + intros [H | [v [ps [[Hin | Hin] Hy]]]].
      * left. now left.
      * injection Hin as <- <-. left. now right.
      * right. now exists v, ps.
Qed.

Lemma override_paths_In (p : r_copy.policy) (y : string) :
  In y (r_copy.override_paths p)
  <-> exists t value paths,
      In t [r_copy.p_mode_overrides p; r_copy.p_owner_overrides p;
            r_copy.p_group_overrides p]
      /\ In (value, paths) t /\ In y paths.
Proof.
  unfold r_copy.override_paths. cbn [fold_left]. rewrite !table_paths_In. split.
  - intros [[[[] | H] | H] | H]; destruct H as [v [ps [Hin Hy]]];
      [exists (r_copy.p_mode_overrides p) | exists (r_copy.p_owner_overrides p)
       | exists (r_copy.p_group_overrides p)]; exists v, ps; cbn; tauto.
  - intros [t [v [ps [Ht [Hin Hy]]]]].
    destruct Ht as [<- | [<- | [<- | []]]].
    + left. left. right. now exists v, ps.
    + left. right. now exists v, ps.
    + right. now exists v, ps.
Qed.

End override_facts.

(* ================================================================= *)
(** * The driver of the template variant *)

Module template_facts.
Import py spec pystr_facts.
#[local] Open Scope list_scope.

Lemma guarded_app (l1 l2 : list template_recursive.event) :
  guarded l1 -> guarded l2 -> guarded (l1 ++ l2).
Proof.
  induction 1 as [| path follow s rest H IH
                  | path follow s module_args out rest Hs Hp H IH
                  | task_args out rest H IH]; intros H2; cbn [List.app].
  - exact H2.
  - apply guarded_stat. now apply IH.
  - apply guarded_create; auto.
  - apply guarded_template. now apply IH.
Qed.

(** The [file] module is given the path it is asked to make. *)
Lemma create_directory_path (a : template_recursive.args) (path : string) :
  exists module_args,
    template_recursive._create_directory a path
    = template_recursive.file_module module_args
    /\ dict_get module_args "path" = Some path.
Proof.
  unfold template_recursive._create_directory.
  destruct (dict_get a "new_dir_mode"), (dict_get a "owner"), (dict_get a "group");
    eexists; split; reflexivity.
Qed.

Lemma template_update_failed (r : result) (o : task_output) :
  failed (template_recursive.update_result_from_task r o)
  = is_True (o_failed o) || failed r.
Proof. cbn. destruct (is_True (o_failed o)); reflexivity. Qed.

(** In a guarded trace the [file] module comes right after the stat of
    its path, which did not report a directory. *)
Lemma guarded_create_after_stat (l : list template_recursive.event) :
  guarded l ->
  forall pre module_args out post,
    l = pre ++ template_recursive.op_event
                 (template_recursive.file_module module_args) out :: post ->
    exists pre' path follow s,
      pre = pre' ++ [template_recursive.stat_event path follow s]
      /\ template_recursive.st_exists s && template_recursive.st_isdir s = false
      /\ dict_get module_args "path" = Some path.
Proof.
  induction 1 as [| path follow s rest H IH
                  | path follow s module_args0 out0 rest Hs Hp H IH
                  | task_args out0 rest H IH]; intros pre module_args out post E.
  - destruct pre; discriminate.
  - destruct pre as [|e pre]; [discriminate|]. injection E as <- E.
    destruct (IH _ _ _ _ E) as [pre' [path' [follow' [s' [-> [Hs' Hp']]]]]].
    exists (template_recursive.stat_event path follow s :: pre'), path', follow', s'.
    now repeat split.
  - destruct pre as [|e pre]; [discriminate|]. injection E as <- E.
    destruct pre as [|e' pre].
    + injection E as <- <- <-. exists [], path, follow, s. now repeat split.
    + injection E as <- E.
      destruct (IH _ _ _ _ E) as [pre' [path' [follow' [s' [-> [Hs' Hp']]]]]].
      exists (template_recursive.stat_event path follow s
              :: template_recursive.op_event
                   (template_recursive.file_module module_args0) out0 :: pre'),
             path', follow', s'.
      now repeat split.
  - destruct pre as [|e pre]; [discriminate|]. injection E as <- E.
    destruct (IH _ _ _ _ E) as [pre' [path' [follow' [s' [-> [Hs' Hp']]]]]].
    exists (template_recursive.op_event
              (template_recursive.template_action task_args) out0 :: pre'),
           path', follow', s'.
    now repeat split.
Qed.

Lemma some_failed_app (l1 l2 : list template_recursive.event) :
  some_failed l1 \/ some_failed l2 -> some_failed (l1 ++ l2).
Proof.
  intros [[o [out [Hin Hf]]] | [o [out [Hin Hf]]]]; exists o, out;
    (split; [apply in_or_app; tauto | exact Hf]).
Qed.

Lemma template_perform_spec {W : Type}
      (remote : W -> template_recursive.op -> task_output * W)
      (o : template_recursive.op) (st : template_recursive.state W) :
  exists out,
    template_recursive.events (template_recursive.perform remote o st)
    = template_recursive.events st ++ [template_recursive.op_event o out]
    /\ template_recursive.result_ (template_recursive.perform remote o st)
       = template_recursive.update_result_from_task (template_recursive.result_ st) out.
Proof.
  unfold template_recursive.perform.
  destruct (remote (template_recursive.world st) o) as [out w'].
  exists out. split; reflexivity.
Qed.

(** The loop over the destination directories: what it adds to the trace
    is guarded, and it sets [failed] only on a report that says so. *)
Lemma create_missing_spec {W : Type}
      (remote_stat : W -> string -> bool -> template_recursive.stats * W)
      (remote : W -> template_recursive.op -> task_output * W)
      (a : template_recursive.args) (dest_dirs : list string) :
  forall st st' left,
    template_recursive.create_missing remote_stat remote a dest_dirs st = (st', left) ->
    exists new,
      template_recursive.events st' = template_recursive.events st ++ new
      /\ guarded new
      /\ (failed (template_recursive.result_ st') = true ->
          failed (template_recursive.result_ st) = true \/ some_failed new).
Proof.
  induction dest_dirs as [|d rest IH]; intros st st' left H;
    cbn [template_recursive.create_missing] in H.
  - injection H as <- <-. exists []. rewrite List.app_nil_r.
    split; [reflexivity|]. split; [constructor | now left].
  - unfold template_recursive._does_remote_directory_exist in H.
    destruct (remote_stat (template_recursive.world st) d true) as [s w'] eqn:S.
    set (st1 := {| template_recursive.world := w';
                   template_recursive.result_ := template_recursive.result_ st;
                   template_recursive.events :=
                     template_recursive.events st
                     ++ [template_recursive.stat_event d true s] |}) in H.
    destruct (template_recursive.st_exists s && template_recursive.st_isdir s) eqn:P;
      cbn [negb] in H.
    + destruct (IH _ _ _ H) as [new [Hev [Hg Hf]]].
      exists (template_recursive.stat_event d true s :: new).
      split; [rewrite Hev; cbn; now rewrite <- List.app_assoc|].
      split; [now apply guarded_stat|].
      intros F. destruct (Hf F) as [F' | [o [out [Hin Ho]]]]; [now left|].
      right. exists o, out. split; [now right | exact Ho].
    + destruct (template_perform_spec remote (template_recursive._create_directory a d) st1)
        as [out [Hev2 Hres2]].
      destruct (create_directory_path a d) as [module_args [Hm Hpath]].
      assert (guarded [template_recursive.stat_event d true s;
                       template_recursive.op_event
                         (template_recursive._create_directory a d) out]) as G.
      { rewrite Hm. apply guarded_create; [exact P | exact Hpath | constructor]. }
      assert (failed (template_recursive.result_
                        (template_recursive.perform remote
                           (template_recursive._create_directory a d) st1)) = true ->
              failed (template_recursive.result_ st) = true
              \/ is_True (o_failed out) = true) as Fstep.
      { rewrite Hres2, template_update_failed. cbn [st1 template_recursive.result_].
        intros F. apply orb_true_iff in F. tauto. }
      destruct (failed (template_recursive.result_
                          (template_recursive.perform remote
                             (template_recursive._create_directory a d) st1))) eqn:F.
      * injection H as <- <-.
        exists [template_recursive.stat_event d true s;
                template_recursive.op_event
                  (template_recursive._create_directory a d) out].
        split; [rewrite Hev2; cbn; now rewrite <- List.app_assoc|].
        split; [exact G|].
        intros _. destruct (Fstep eq_refl) as [F' | F']; [now left|].
        right. exists (template_recursive._create_directory a d), out.
        split; [right; now left | exact F'].
      * destruct (IH _ _ _ H) as [new [Hev [Hg Hf]]].
        exists ([template_recursive.stat_event d true s;
                 template_recursive.op_event
                   (template_recursive._create_directory a d) out] ++ new).
        split; [rewrite Hev, Hev2; cbn; now rewrite <- !List.app_assoc|].
        split; [now apply guarded_app|].
        intros F'. destruct (Hf F') as [F'' | Hs]; [congruence|].
        right. apply some_failed_app. now right.
Qed.

(** The loop over the template files. *)
Lemma render_each_spec {W : Type}
      (remote : W -> template_recursive.op -> task_output * W)
      (a : template_recursive.args) (files : list (string * string)) :
  forall st st' left,
    template_recursive.render_each remote a files st = (st', left) ->
    exists new,
      template_recursive.events st' = template_recursive.events st ++ new
      /\ guarded new
      /\ (failed (template_recursive.result_ st') = true ->
          failed (template_recursive.result_ st) = true \/ some_failed new).
Proof.
  induction files as [|[src dest] rest IH]; intros st st' left H;
    cbn [template_recursive.render_each] in H.
  - injection H as <- <-. exists []. rewrite List.app_nil_r.
    split; [reflexivity|]. split; [constructor | now left].
  - cbv zeta in H.
    destruct (template_perform_spec remote
                (template_recursive._run_template_action a src dest) st)
      as [out [Hev1 Hres1]].
    assert (failed (template_recursive.result_
                      (template_recursive.perform remote
                         (template_recursive._run_template_action a src dest) st)) = true ->
            failed (template_recursive.result_ st) = true
            \/ is_True (o_failed out) = true) as Fstep.
    { rewrite Hres1, template_update_failed. intros F. apply orb_true_iff in F. tauto. }
    destruct (failed (template_recursive.result_
                        (template_recursive.perform remote
                           (template_recursive._run_template_action a src dest) st))) eqn:F.
    + injection H as <- <-.
      exists [template_recursive.op_event
                (template_recursive._run_template_action a src dest) out].
      split; [exact Hev1|]. split; [apply guarded_template; constructor|].
      intros _. destruct (Fstep eq_refl) as [F' | F']; [now left|].
      right. exists (template_recursive._run_template_action a src dest), out.
      split; [now left | exact F'].
    + destruct (IH _ _ _ H) as [new [Hev [Hg Hf]]].
      exists (template_recursive.op_event
                (template_recursive._run_template_action a src dest) out :: new).
      split; [rewrite Hev, Hev1; now rewrite <- List.app_assoc|].
      split; [now apply guarded_template|].
      intros F'. destruct (Hf F') as [F'' | [o [out' [Hin Ho]]]]; [congruence|].
      right. exists o, out'. split; [now right | exact Ho].
Qed.

(** [run]: its trace is guarded, and it returns [failed] either from its
    two checks, nothing issued, or because an operation reported it. *)
Lemma run_spec {W : Type}
      (remote_stat : W -> string -> bool -> template_recursive.stats * W)
      (remote : W -> template_recursive.op -> task_output * W)
      (list_of_set : list string -> list string) (local : localfs.fs)
      (a : template_recursive.args) (w : W) :
  let out := template_recursive.run remote_stat remote list_of_set local a w in
  guarded (template_recursive.happened out)
  /\ (forall root tree,
         dict_get a "templates_root" = Some root -> local root = Some tree ->
         failed (template_recursive.returned out) = true ->
         some_failed (template_recursive.happened out)).
Proof.
  cbv zeta. unfold template_recursive.run. cbv zeta.
  destruct (dict_get a "templates_root") as [root|]; [|split; [constructor | discriminate]].
  destruct (local root) as [tree|] eqn:L;
    [|split; [constructor | intros root0 tree0 E L0; injection E as <-; congruence]].
  set (a' := if negb (dict_has a "mode") then dict_set a "mode" "0644" else a).
  set (files := template_recursive.template_files root tree).
  set (st0 := {| template_recursive.world := w;
                 template_recursive.result_ := initial_result;
                 template_recursive.events := [] |}).
  destruct (template_recursive.create_missing remote_stat remote a' _ st0)
    as [st1 left1] eqn:E1.
  destruct (create_missing_spec _ _ _ _ _ _ _ E1) as [new1 [Hev1 [G1 F1]]].
  cbn [st0 template_recursive.events template_recursive.result_ List.app] in Hev1, F1.
  destruct left1.
  - cbn [template_recursive.finish template_recursive.happened template_recursive.returned].
    rewrite Hev1. split; [exact G1|].
    intros _ _ _ _ F. destruct (F1 F) as [F' | F']; [discriminate | exact F'].
  - destruct (template_recursive.render_each remote a' files st1) as [st2 left2] eqn:E2.
    destruct (render_each_spec _ _ _ _ _ _ E2) as [new2 [Hev2 [G2 F2]]].
    cbn [template_recursive.finish template_recursive.happened template_recursive.returned].
    rewrite Hev2, Hev1. split; [now apply guarded_app|].
    intros _ _ _ _ F. apply some_failed_app.
    destruct (F2 F) as [F' | F']; [|now right].
    destruct (F1 F') as [F'' | F'']; [discriminate | now left].
Qed.

End template_facts.

(* ================================================================= *)
(** * [strip_end] and the destinations of the templates *)

Module suffix_facts.
Import py spec pystr_facts.

Lemma substring_suffix (stem suffix : string) :
  substring (String.length stem) (String.length suffix) (stem ++ suffix) = suffix.
Proof.
  induction stem as [|b stem IH]; cbn [String.length String.append substring].
  - induction suffix as [|d suffix IH]; cbn; [reflexivity | now rewrite IH].
  - exact IH.
Qed.

Lemma endswith_app (stem suffix : string) :
  pystr.endswith (stem ++ suffix) suffix = true.
Proof.
  unfold pystr.endswith. cbv zeta. rewrite length_app.
  replace (String.length stem + String.length suffix - String.length suffix)
    with (String.length stem) by lia.
  rewrite substring_suffix, String.eqb_refl, andb_true_r.
  apply Nat.leb_le. lia.
Qed.

Lemma strip_end_suffix (stem suffix : string) :
  template_recursive.strip_end (stem ++ suffix) suffix = stem.
Proof.
  unfold template_recursive.strip_end.
  rewrite endswith_app, andb_true_r, length_app.
  replace (String.length stem + String.length suffix - String.length suffix)
    with (String.length stem) by lia.
  rewrite substring_prefix.
  destruct suffix as [|c suffix]; [now rewrite app_nil_r | reflexivity].
Qed.

Lemma strip_end_other (text suffix : string) :
  pystr.endswith text suffix = false ->
  template_recursive.strip_end text suffix = text.
Proof.
  intros H. unfold template_recursive.strip_end. rewrite H.
  now rewrite andb_false_r.
Qed.

(** [text.endswith(suffix)] says that [text] is something followed by
    [suffix]. *)
Lemma substring_split (n : nat) :
  forall t, n <= String.length t ->
            t = substring 0 n t ++ substring n (String.length t - n) t.
Proof.
  induction n as [|n IH]; intros t Hn.
  - rewrite substring_zero, Nat.sub_0_r. cbn [String.append].
    clear. induction t as [|c t IHt]; cbn; [reflexivity | now rewrite <- IHt].
  - destruct t as [|c t]; [cbn in Hn; lia|].
    cbn [String.length substring String.append Nat.sub]. f_equal.
    apply IH. cbn in Hn. lia.
Qed.

Lemma endswith_iff (text suffix : string) :
  pystr.endswith text suffix = true <-> exists stem, text = stem ++ suffix.
Proof.
  split.
  - unfold pystr.endswith. cbv zeta. intros H. apply andb_prop in H.
    destruct H as [Hle He]. apply Nat.leb_le in Hle. apply String.eqb_eq in He.
    exists (substring 0 (String.length text - String.length suffix) text).
    pose proof (substring_split (String.length text - String.length suffix) text
                                (Nat.le_sub_l _ _)) as Hs.
    replace (String.length text - (String.length text - String.length suffix))
      with (String.length suffix) in Hs by lia.
    now rewrite He in Hs.
  - intros [stem ->]. apply endswith_app.
Qed.

(** Two ways to cut one string. *)
Lemma app_eq_app (t : string) :
  forall u pre s,
    t ++ u = pre ++ s ->
    (exists m, pre = t ++ m /\ u = m ++ s)
    \/ (exists m a, t = pre ++ String a m /\ s = String a m ++ u).
Proof.
  induction t as [|c t IH]; intros u pre s E.
  - left. exists pre. now split.
  - destruct pre as [|d pre].
    + right. exists t, c. cbn in *. now split.
    + cbn in E. injection E as <- E. destruct (IH _ _ _ E) as [[m [-> ->]] | [m [a [-> ->]]]].
      * left. now exists m.
      * right. now exists m, a.
Qed.

Lemma snoc_inj (s t : string) (a b : ascii) :
  s ++ String a "" = t ++ String b "" -> a = b.
Proof.
  revert t. induction s as [|c s IH]; intros [|d t] E; cbn in E.
  - now injection E.
  - injection E as _ E. destruct t; discriminate.
  - injection E as _ E. destruct s; discriminate.
  - injection E as _ E. now apply (IH t).
Qed.

(** After a separator, a name ends with [.j2] when the whole path does. *)
Lemma endswith_j2_after_sep (q f : string) :
  pystr.endswith ((q ++ "/") ++ f) ".j2" = pystr.endswith f ".j2".
Proof.
  destruct (pystr.endswith f ".j2") eqn:F.
  - apply endswith_iff in F. destruct F as [stem ->].
    apply endswith_iff. exists ((q ++ "/") ++ stem). symmetry. apply app_assoc.
  - destruct (pystr.endswith ((q ++ "/") ++ f) ".j2") eqn:G; [|reflexivity].
    exfalso. apply endswith_iff in G. destruct G as [pre G].
    apply app_eq_app in G. destruct G as [[m [_ Hf]] | [m [a [Ht Hs]]]].
    + assert (pystr.endswith f ".j2" = true) by (apply endswith_iff; now exists m).
      congruence.
    + (* [.j2] would begin inside the part that ends with the separator *)
      assert (exists m' b, String a m = m' ++ String b ""
                           /\ (b = "."%char \/ b = "j"%char \/ b = "2"%char))
        as [m' [b [Hm Hb]]].
      { injection Hs as Ha Hs. subst a.
        destruct m as [|c1 m]; [exists "", "."%char; split; [reflexivity | tauto]|].
        injection Hs as Ha Hs. subst c1.
        destruct m as [|c2 m]; [exists ".", "j"%char; split; [reflexivity | tauto]|].
        injection Hs as Ha Hs. subst c2.
        destruct m as [|c3 m]; [exists ".j", "2"%char; split; [reflexivity | tauto]|].
        discriminate. }
      rewrite Hm in Ht. rewrite <- app_assoc in Ht.
      apply snoc_inj in Ht. destruct Hb as [-> | [-> | ->]]; discriminate.
Qed.

(** The relative path of a file: what leads to its directory, then its
    name. *)
Lemma relpath_last (below : list string) (f : string) :
  posixpath.relpath_below (below ++ [f])%list
  = match below with
    | [] => f
    | _ => (String.concat "/" below ++ "/") ++ f
    end.
Proof.
  unfold posixpath.relpath_below. destruct below as [|b below]; [reflexivity|].
  rewrite path_facts.concat_app by discriminate. cbn [String.concat].
  now rewrite app_assoc.
Qed.

(** [join("/", x)] keeps [x] at its end, after a separator or alone. *)
Lemma join_root_cases (x : string) :
  posixpath.join "/" x = x \/ posixpath.join "/" x = ("" ++ "/") ++ x.
Proof.
  unfold posixpath.join. destruct (pystr.startswith x "/"); [now left | now right].
Qed.

Lemma startswith_app (x y : string) (c : ascii) :
  pystr.startswith (String c x ++ y) "/" = pystr.startswith (String c x) "/".
Proof. reflexivity. Qed.

(** The destination of a template whose name ends with [.j2]. *)
Lemma dest_with_suffix (below : list string) (stem : string) :
  template_recursive.strip_end
    (posixpath.join "/" (posixpath.relpath_below (below ++ [(stem ++ ".j2")%string])%list)) ".j2"
  = posixpath.join "/" (posixpath.relpath_below (below ++ [stem])%list).
Proof.
  rewrite !relpath_last.
  assert (forall x : string,
             template_recursive.strip_end (posixpath.join "/" (x ++ ".j2")) ".j2"
             = posixpath.join "/" x) as K.
  { intros x. unfold posixpath.join. destruct x as [|c x].
    - reflexivity.
    - rewrite startswith_app. destruct (pystr.startswith (String c x) "/").
      + apply strip_end_suffix.
      + cbn [String.eqb pystr.endswith orb].
        change ("/" ++ String c x ++ ".j2") with (("/" ++ String c x) ++ ".j2").
        apply strip_end_suffix. }
  destruct below as [|b below].
  - apply K.
  - rewrite <- app_assoc. apply K.
Qed.

(** The destination of a template whose name does not end with [.j2]. *)
Lemma dest_without_suffix (below : list string) (f : string) :
  pystr.endswith f ".j2" = false ->
  template_recursive.strip_end
    (posixpath.join "/" (posixpath.relpath_below (below ++ [f])%list)) ".j2"
  = posixpath.join "/" (posixpath.relpath_below (below ++ [f])%list).
Proof.
  intros F. apply strip_end_other. rewrite relpath_last.
  destruct below as [|b below].
  - destruct (join_root_cases f) as [-> | ->]; [exact F|].
    now rewrite endswith_j2_after_sep.
  - destruct (join_root_cases ((String.concat "/" (b :: below) ++ "/") ++ f)) as [-> | ->].
    + now rewrite endswith_j2_after_sep.
    + rewrite <- app_assoc.
      rewrite <- (app_assoc ("" ++ "/") (String.concat "/" (b :: below)) "/").
      now rewrite endswith_j2_after_sep.
Qed.

(** The pairs of [template_files]: one per file of the walk. *)
Lemma template_files_In (root : string) (tree : localfs.tree) (src dest : string) :
  In (src, dest) (template_recursive.template_files root tree)
  <-> exists dirpath below filenames filename,
      In (dirpath, below, filenames) (localfs.walk root [] tree)
      /\ In filename filenames
      /\ src = posixpath.join dirpath filename
      /\ dest = template_recursive.strip_end
                  (posixpath.join "/" (posixpath.relpath_below (below ++ [filename])%list))
                  ".j2".
Proof.
  unfold template_recursive.template_files. rewrite in_flat_map. split.
  - intros [[[dirpath below] filenames] [He Hin]]. apply in_map_iff in Hin.
    destruct Hin as [filename [E Hf]]. injection E as <- <-.
    now exists dirpath, below, filenames, filename.
  - intros [dirpath [below [filenames [filename [He [Hf [-> ->]]]]]]].
    exists (dirpath, below, filenames). split; [exact He|].
    apply in_map_iff. now exists filename.
Qed.

End suffix_facts.

(* ================================================================= *)
(** * Trailing separators *)

Module strip_facts.
Import py spec pystr_facts.
#[local] Open Scope list_scope.

(** What [rstrip] returns does not end with the character. *)
Lemma rstrip_no_trailing (c : ascii) (s : string) :
  forall t, pystr.rstrip c s <> (t ++ String c "")%string.
Proof.
  induction s as [|a r IH]; intros t; cbn [pystr.rstrip].
  - destruct t; discriminate.
  - destruct (pystr.rstrip c r) as [|b r'] eqn:E.
    + destruct (Ascii.eqb a c) eqn:A.
      * destruct t; discriminate.
      * destruct t as [|x t]; cbn.
        -- intros H. injection H as H. subst a. rewrite Ascii.eqb_refl in A. discriminate.
        -- intros H. injection H as _ H. destruct t; discriminate.
    + destruct t as [|x t]; cbn.
      * intros H. injection H as _ H. discriminate.
      * intros H. injection H as _ H. now apply (IH t).
Qed.

(** What [rstrip] takes off is occurrences of the character only. *)
Lemma rstrip_takes_seps (c : ascii) (s : string) :
  exists seps,
    s = (pystr.rstrip c s ++ seps)%string
    /\ Forall (fun x => x = c) (list_ascii_of_string seps).
Proof.
  induction s as [|a r IH]; cbn [pystr.rstrip].
  - exists ""%string. split; [reflexivity | constructor].
  - destruct IH as [seps [E F]]. destruct (pystr.rstrip c r) as [|b r'] eqn:R.
    + cbn in E. subst seps. destruct (Ascii.eqb a c) eqn:A.
      * apply Ascii.eqb_eq in A. subst a. exists (String c r).
        split; [reflexivity|]. cbn. constructor; [reflexivity | exact F].
      * exists r. split; [reflexivity | exact F].
    + exists seps. split; [|exact F]. cbn in *. now rewrite <- E.
Qed.

Lemma rstrip_removes (s : string) :
  trailing_seps_removed s (pystr.rstrip posixpath.sep s).
Proof.
  split; [apply rstrip_takes_seps | apply (rstrip_no_trailing posixpath.sep)].
Qed.

Lemma map_rstrip_removes (paths : list string) :
  Forall2 trailing_seps_removed paths (map (pystr.rstrip posixpath.sep) paths).
Proof.
  induction paths as [|x paths IH]; cbn [map]; constructor;
    [apply rstrip_removes | exact IH].
Qed.

End strip_facts.

(* ================================================================= *)
(** * The runs of the copy variant *)

Module run_more.
Import py spec more pystr_facts pylist_facts.
#[local] Open Scope list_scope.

(** [run] in full: either a check fails or the directory list cannot be
    made, and nothing is issued; or every check has passed and the two
    loops run, the second only when the first went through. *)
Lemma run_phases {W : Type} (remote : W -> r_copy.op -> task_output * W)
      (platform_system : string) (local : localfs.fs) (a : r_copy.args) (w : W) :
  let out := r_copy.run remote platform_system local a w in
  (r_copy.operations out = []
   /\ r_copy.target out = w
   /\ ((exists e, r_copy.returned out = Raise e)
       \/ exists res, r_copy.returned out = Ret res /\ failed res = true
                      /\ changed res = false /\ diff res = []))
  \/ exists r tree dirs ds fs,
      pystr.mem (pystr.lower platform_system) r_copy.SUPPORTED_OS = true
      /\ r_copy.required_args a = inr r
      /\ r_copy.unsupported_arg a = None
      /\ local (r_copy.r_src_root r) = Some tree
      /\ r_copy.check_modes (r_copy.mode_values a r) = None
      /\ r_copy.destination_dirs
           (map snd (r_copy.src_dest_tuples (r_copy.r_src_root r) tree)) = Ret dirs
      /\ (forall path,
             In path (r_copy.override_paths (r_copy.normalized_args a r)) ->
             In path (map snd (r_copy.src_dest_tuples (r_copy.r_src_root r) tree) ++ dirs))
      /\ (exists rest, dirs = ds ++ rest)
      /\ (exists rest, r_copy.src_dest_tuples (r_copy.r_src_root r) tree = fs ++ rest)
      /\ (fs = [] \/ ds = dirs)
      /\ map fst (r_copy.operations out)
         = map (r_copy._mkdir_chmod_chown (r_copy.normalized_args a r)) ds
           ++ map (fun sd => r_copy._copy_chmod_chown (r_copy.normalized_args a r)
                                                      (fst sd) (snd sd)) fs
      /\ r_copy.returned out = Ret (accumulated (r_copy.operations out))
      /\ (failed (accumulated (r_copy.operations out)) = false ->
          ds = dirs /\ fs = r_copy.src_dest_tuples (r_copy.r_src_root r) tree).
Proof.
  cbv zeta. unfold r_copy.run. cbv zeta.
  destruct (pystr.mem (pystr.lower platform_system) r_copy.SUPPORTED_OS) eqn:OS;
    cbn [negb]; [|left; repeat split; right; eexists; repeat split].
  destruct (r_copy.required_args a) as [missing | r] eqn:R;
    [left; repeat split; right; eexists; repeat split|].
  destruct (r_copy.unsupported_arg a) eqn:U;
    [left; repeat split; right; eexists; repeat split|].
  destruct (local (r_copy.r_src_root r)) as [tree|] eqn:L;
    [|left; repeat split; right; eexists; repeat split].
  destruct (r_copy.check_modes (r_copy.mode_values a r)) eqn:C;
    [left; repeat split; right; eexists; repeat split|].
  destruct (r_copy.destination_dirs
              (map snd (r_copy.src_dest_tuples (r_copy.r_src_root r) tree)))
    as [dirs | e |] eqn:D.
  2:{ left. repeat split. left. now exists e. }
  2:{ exfalso. now apply (driver_facts.destination_dirs_total _ D). }
  destruct (set_minus _ _) as [|x not_found] eqn:M; cbn [List.length Nat.ltb Nat.leb];
    [|left; repeat split; right; eexists; repeat split].
  right. exists r, tree, dirs.
  assert (forall path,
             In path (r_copy.override_paths (r_copy.normalized_args a r)) ->
             In path (map snd (r_copy.src_dest_tuples (r_copy.r_src_root r) tree) ++ dirs))
    as Hover.
  { intros path Hp.
    destruct (in_dec string_dec path
                (map snd (r_copy.src_dest_tuples (r_copy.r_src_root r) tree) ++ dirs))
      as [Hin | Hnot]; [exact Hin|].
    exfalso.
    assert (In path (set_minus
                       (set_of (r_copy.override_paths (r_copy.normalized_args a r)))
                       (set_of (map snd (r_copy.src_dest_tuples (r_copy.r_src_root r) tree)
                                ++ dirs)))) as Hm.
    { apply override_facts.set_minus_In. rewrite !override_facts.set_of_In. now split. }
    rewrite M in Hm. destruct Hm. }
  set (p := r_copy.normalized_args a r) in *.
  set (st0 := {| r_copy.world := w; r_copy.result_ := initial_result;
                 r_copy.issued := [] |}).
  destruct (r_copy.for_each remote (r_copy._mkdir_chmod_chown p) dirs st0)
    as [st1 left1] eqn:E1.
  destruct (driver_facts.for_each_spec _ _ _ _ _ _ E1 eq_refl)
    as [done1 [rest1 [new1 [Hxs1 [Hiss1 [Hmap1 [Hres1 [Hleft1 [Hfalse1 Htrue1]]]]]]]]].
  cbn [r_copy.issued r_copy.result_ st0 List.app] in Hiss1, Hres1.
  destruct left1.
  - exists done1, []. cbn [r_copy.finish r_copy.operations r_copy.returned map].
    rewrite List.app_nil_r.
    split; [reflexivity|]. split; [reflexivity|]. split; [reflexivity|].
    split; [exact L|]. split; [exact C|]. split; [exact D|]. split; [exact Hover|].
    split; [now exists rest1|]. split; [now eexists|]. split; [now left|].
    split; [now rewrite Hiss1|].
    split; [unfold accumulated; now rewrite Hres1, Hiss1|].
    intros F. exfalso. unfold accumulated in F. rewrite Hiss1, <- Hres1 in F. congruence.
  - destruct (Hfalse1 eq_refl) as [-> Hc1]. rewrite List.app_nil_r in Hxs1. subst done1.
    destruct (r_copy.for_each remote
                (fun sd => r_copy._copy_chmod_chown p (fst sd) (snd sd))
                (r_copy.src_dest_tuples (r_copy.r_src_root r) tree) st1)
      as [st2 left2] eqn:E2.
    destruct (driver_facts.for_each_spec _ _ _ _ _ _ E2 Hleft1)
      as [done2 [rest2 [new2 [Hxs2 [Hiss2 [Hmap2 [Hres2 [Hleft2 [Hfalse2 Htrue2]]]]]]]]].
    exists dirs, done2. cbn [r_copy.finish r_copy.operations r_copy.returned].
    split; [reflexivity|]. split; [reflexivity|]. split; [reflexivity|].
    split; [exact L|]. split; [exact C|]. split; [exact D|]. split; [exact Hover|].
    split; [exists []; now rewrite List.app_nil_r|]. split; [now exists rest2|].
    split; [now right|].
    split; [rewrite Hiss2, Hiss1, map_app, Hmap1, Hmap2; reflexivity|].
    assert (accumulated (r_copy.issued st2) = r_copy.result_ st2) as Hacc.
    { unfold accumulated. rewrite Hres2, Hres1, Hiss2, Hiss1, map_app, fold_left_app.
      reflexivity. }
    split; [now rewrite Hacc|].
    intros F. rewrite Hacc in F.
    destruct (Hfalse2 ltac:(congruence)) as [-> _]. rewrite List.app_nil_r in Hxs2.
    now split.
Qed.

(** What [destination_dirs] returns, read from its result: for absolute
    paths, a result means that the root was among the parents. *)
Lemma destination_dirs_inv (paths dirs : list string) :
  forallb posixpath.isabs paths = true ->
  r_copy.destination_dirs paths = Ret dirs ->
  NoDup dirs
  /\ StronglySorted len_le dirs
  /\ (forall d, In d dirs <->
                d <> "/" /\ exists p k, In p paths /\ d = dirname_iter (S k) p)
  /\ (forall d, In d dirs ->
                posixpath.dirname d = "/" \/ In (posixpath.dirname d) dirs).
Proof.
  intros Habs D.
  destruct (parents_facts.get_all_parent_dirs_spec paths Habs) as [out [Hout [C [N Hin]]]].
  assert (In "/" out) as Hroot.
  { destruct (in_dec string_dec "/" (sorted_by_len out)) as [H | H].
    - eapply Permutation_in; [symmetry; apply sorted_by_len_perm | exact H].
    - unfold r_copy.destination_dirs in D. rewrite Hout in D.
      rewrite (list_remove_raises _ _ H) in D. discriminate. }
  apply Hin in Hroot. destruct Hroot as [p0 [k0 [Hp0 Hk0]]].
  destruct (dirs_facts.destination_dirs_spec paths Habs)
    as [dirs' [D' [N' [S' [M' C']]]]]; [now exists p0, k0|].
  rewrite D in D'. injection D' as <-. auto.
Qed.

(** The operations of a trace of [run], one by one. *)
Lemma ops_of_run {W : Type} (remote : W -> r_copy.op -> task_output * W)
      (platform_system : string) (local : localfs.fs) (a : r_copy.args) (w : W)
      (o : r_copy.op) (report : task_output) :
  In (o, report) (r_copy.operations (r_copy.run remote platform_system local a w)) ->
  exists r tree dirs,
    r_copy.required_args a = inr r
    /\ local (r_copy.r_src_root r) = Some tree
    /\ r_copy.destination_dirs
         (map snd (r_copy.src_dest_tuples (r_copy.r_src_root r) tree)) = Ret dirs
    /\ ((exists path,
            In path dirs /\ path <> "/"
            /\ o = r_copy._mkdir_chmod_chown (r_copy.normalized_args a r) path)
        \/ (exists src dest,
               In (src, dest) (r_copy.src_dest_tuples (r_copy.r_src_root r) tree)
               /\ o = r_copy._copy_chmod_chown (r_copy.normalized_args a r) src dest)).
Proof.
  intros Hin.
  destruct (run_phases remote platform_system local a w)
    as [[Hnone _] | (r & tree & dirs & ds & fs & _ & R & _ & L & _ & D & _
                      & [rest1 Hds] & [rest2 Hfs] & _ & Hops & _)].
  - rewrite Hnone in Hin. destruct Hin.
  - exists r, tree, dirs. split; [exact R|]. split; [exact L|]. split; [exact D|].
    apply (in_map fst) in Hin. rewrite Hops in Hin. cbn [fst] in Hin.
    apply in_app_or in Hin. destruct Hin as [Hin | Hin]; apply in_map_iff in Hin.
    + destruct Hin as [path [<- Hp]]. left. exists path.
      assert (In path dirs) as Hd by (rewrite Hds; apply in_or_app; now left).
      split; [exact Hd|]. split; [|reflexivity].
      destruct (destination_dirs_inv _ _ (walk_facts.destination_files_absolute _ _) D)
        as [_ [_ [M _]]].
      now apply M in Hd.
    + destruct Hin as [[src dest] [<- Hp]]. right. exists src, dest.
      split; [|reflexivity]. rewrite Hfs. apply in_or_app. now left.
Qed.

(** A value that passes the mode check. *)
Lemma check_mode_passes (v : scalar) :
  r_copy.check_mode v = None -> exists s, v = SStr s /\ four_octal_digits s.
Proof.
  destruct v as [s | z]; cbn [r_copy.check_mode]; [|discriminate].
  destruct (r_copy.fullmatch_octal 4 s) eqn:E; cbn [negb]; [|discriminate].
  intros _. exists s. split; [reflexivity|]. now apply mode_facts.fullmatch_four.
Qed.

Lemma unsupported_none (a : r_copy.args) :
  r_copy.unsupported_arg a = None ->
  Forall (fun name => In name r_copy.supported_args) (r_copy.arg_names a).
Proof.
  unfold r_copy.unsupported_arg. intros H. apply Forall_forall. intros name Hn.
  pose proof (find_none _ _ H name Hn) as F. cbn beta in F.
  apply negb_false_iff in F. now apply mem_In in F.
Qed.

(** The accumulated result in closed form. *)
Lemma accumulate_closed (outs : list task_output) :
  forall r,
    let res := fold_left r_copy._update_result_from_task outs r in
    changed res = existsb (fun o => is_True (o_changed o)) outs || changed r
    /\ failed res = existsb (fun o => is_True (o_failed o)) outs || failed r
    /\ msg res = (msg r ++ fold_right String.append "" (map msg_line outs))%string
    /\ diff res = diff r ++ flat_map kept_diff outs.
Proof.
  induction outs as [|o outs IH]; intros r; cbv zeta; cbn [fold_left existsb map fold_right flat_map].
  - rewrite pystr_facts.app_nil_r, List.app_nil_r. repeat split.
  - destruct (IH (r_copy._update_result_from_task r o)) as [Hc [Hf [Hm Hd]]].
    rewrite Hc, Hf, Hm, Hd. cbn [r_copy._update_result_from_task changed failed msg diff].
    repeat split.
    + destruct (is_True (o_changed o));
        [now rewrite Bool.orb_true_r | reflexivity].
    + destruct (is_True (o_failed o));
        [now rewrite Bool.orb_true_r | reflexivity].
    + unfold msg_line. destruct (o_msg o) as [m|].
      * now rewrite !pystr_facts.app_assoc.
      * reflexivity.
    + unfold kept_diff, diff_entries, r_copy.add_diff.
      destruct (r_copy._do_save_diff o) eqn:S.
      * destruct (o_diff o) as [[d | l]|]; now rewrite <- ?List.app_assoc.
      * reflexivity.
Qed.

(** A list of directory operations followed by other operations, cut at an
    operation that is not a directory operation: all directory operations
    are before the cut. *)
Lemma dir_ops_before_cut (p : r_copy.policy) (dirs : list string) :
  forall (others pre post : list r_copy.op) (x : r_copy.op),
    map (r_copy._mkdir_chmod_chown p) dirs ++ others = pre ++ x :: post ->
    ~ is_dir_op x ->
    exists pre', pre = map (r_copy._mkdir_chmod_chown p) dirs ++ pre'.
Proof.
  induction dirs as [|d dirs IH]; intros others pre post x E Hx; cbn [map List.app] in *.
  - now exists pre.
  - destruct pre as [|y pre]; cbn [List.app] in E; injection E as E1 E2.
    + exfalso. apply Hx. now rewrite <- E1.
    + destruct (IH _ _ _ _ E2 Hx) as [pre' ->]. exists pre'. now rewrite E1.
Qed.

Lemma dirs_made_app (t1 t2 : r_copy.trace) :
  dirs_made (t1 ++ t2) = dirs_made t1 ++ dirs_made t2.
Proof. unfold dirs_made. apply flat_map_app. Qed.

Lemma dirs_made_holds (p : r_copy.policy) (dirs : list string) :
  forall (t : r_copy.trace) (rest : list r_copy.op),
    map fst t = map (r_copy._mkdir_chmod_chown p) dirs ++ rest ->
    forall d, In d dirs -> In d (dirs_made t).
Proof.
  induction dirs as [|d0 dirs IH]; intros t rest E d Hd; [destruct Hd|].
  destruct t as [|[o out] t]; [discriminate|].
  cbn [map List.app fst] in E. injection E as Eo Et.
  unfold dirs_made. cbn [flat_map fst]. rewrite Eo.
  cbn [r_copy._mkdir_chmod_chown]. destruct Hd as [-> | Hd]; [now left|].
  right. apply (IH t rest Et d Hd).
Qed.





End run_more.

(* ================================================================= *)
(** * The properties of the specification *)

Import py spec.

(** C1.  The failing input: [mode_overrides] with two entries, the first
    for a path that is no destination.  The normalisation loop has dropped
    that entry before the override paths are checked, so [run] issues its
    operations and returns without [failed]. *)
Theorem override_in_dropped_entry_not_checked :
  let a := sample.args (SStr "0644") (Some sample.two_entries) in
  let out := r_copy.run sample.remote_ok "Linux" sample.local a tt in
  r_copy.returned out
  = Ret {| changed := true; failed := false; msg := ""; diff := [] |}
  /\ map fst (r_copy.operations out)
     = [r_copy.file_directory "/a" (SStr "root") (SStr "root") (SStr "0700");
        r_copy.file_directory "/a/b" (SStr "root") (SStr "root") (SStr "0755");
        r_copy.copy_file "/local/a/b/file.txt" "/a/b/file.txt"
                         (SStr "root") (SStr "root") (SStr "0644")].
Proof. split; reflexivity. Qed.

(** What the check of the override paths does do: a path of an entry that
    the normalisation kept, when it is neither a destination file nor one
    of the directories, makes [run] return [failed] with the message of
    the check, no operation issued. *)
Lemma kept_override_path_checked
      (W : Type) (remote : W -> r_copy.op -> task_output * W)
      (platform_system : string) (local : localfs.fs) (a : r_copy.args) (w : W)
      (r : r_copy.required) (tree : localfs.tree) (dirs : list string) (path : string) :
  pystr.mem (pystr.lower platform_system) r_copy.SUPPORTED_OS = true ->
  r_copy.required_args a = inr r ->
  r_copy.unsupported_arg a = None ->
  local (r_copy.r_src_root r) = Some tree ->
  r_copy.check_modes (r_copy.mode_values a r) = None ->
  r_copy.destination_dirs (map snd (r_copy.src_dest_tuples (r_copy.r_src_root r) tree))
  = Ret dirs ->
  In path (r_copy.override_paths (r_copy.normalized_args a r)) ->
  ~ In path (map snd (r_copy.src_dest_tuples (r_copy.r_src_root r) tree) ++ dirs)%list ->
  exists not_found,
    not_found <> []
    /\ r_copy.run remote platform_system local a w
       = {| r_copy.returned :=
              Ret (result_failed initial_result
                     (r_copy.invalid_overrides_message
                        not_found
                        (map snd (r_copy.src_dest_tuples (r_copy.r_src_root r) tree)
                         ++ dirs)%list));
            r_copy.operations := [];
            r_copy.target := w |}.
Proof.
  intros Hos Hreq Huns Hloc Hmodes Hdirs Hin Hnot.
  unfold r_copy.run. cbv zeta.
  rewrite Hos, Hreq, Huns, Hloc, Hmodes, Hdirs. cbn [negb].
  set (not_found := set_minus _ _).
  assert (In path not_found) as Hnf.
  { apply override_facts.set_minus_In. rewrite !override_facts.set_of_In. now split. }
  exists not_found. destruct not_found as [|x l] eqn:E; [destruct Hnf|].
  split; [discriminate | reflexivity].
Qed.

Example invalid_override_scenario :
  let a := sample.args (SStr "0644") (Some [(SStr "0600", ["/not/a/real/path"])]) in
  let out := r_copy.run sample.remote_ok "Linux" sample.local a tt in
  (exists r, r_copy.returned out = Ret r /\ failed r = true)
  /\ r_copy.operations out = [].
Proof. split; [eexists; split; reflexivity | reflexivity]. Qed.




(** The run of the witness: both directories are made, the parent first,
    then the copy of the file fails and ends the run. *)
Example run_stops_at_failed_copy :
  r_copy.run sample.remote_copy_failing "Linux" sample.local sample.plain_args tt
  = {| r_copy.returned :=
         Ret {| changed := true; failed := true; msg := ""; diff := [] |};
       r_copy.operations :=
         [(r_copy.file_directory "/a" (SStr "root") (SStr "root") (SStr "0755"),
           sample.report true false);
          (r_copy.file_directory "/a/b" (SStr "root") (SStr "root") (SStr "0755"),
           sample.report true false);
          (r_copy.copy_file "/local/a/b/file.txt" "/a/b/file.txt"
                            (SStr "root") (SStr "root") (SStr "0644"),
           sample.report false true)];
       r_copy.target := tt |}.
Proof. reflexivity. Qed.

Example run_scenario :
  map fst (r_copy.operations
             (r_copy.run sample.remote_ok "Linux" sample.local sample.plain_args tt))
  = [r_copy.file_directory "/a" (SStr "root") (SStr "root") (SStr "0755");
     r_copy.file_directory "/a/b" (SStr "root") (SStr "root") (SStr "0755");
     r_copy.copy_file "/local/a/b/file.txt" "/a/b/file.txt"
                      (SStr "root") (SStr "root") (SStr "0644")].
Proof. reflexivity. Qed.

Example run_stops_at_failure :
  r_copy.run sample.remote_failing "Linux" sample.local sample.plain_args tt
  = {| r_copy.returned :=
         Ret {| changed := false; failed := true; msg := ""; diff := [] |};
       r_copy.operations :=
         [(r_copy.file_directory "/a" (SStr "root") (SStr "root") (SStr "0755"),
           sample.report false true)];
       r_copy.target := tt |}.
Proof. reflexivity. Qed.

(** C3.  For a non-empty list of destination files, each made by [run]
    from the names that lead from the source root to a file, the
    directory list that [run] computes (the sorted output of
    [_get_all_parent_dirs], the root removed) holds every directory
    strictly above every file exactly once and nothing else, does not hold
    the root, is sorted by ascending length, and so has every directory
    before the directories below it. *)
Theorem ancestor_dirs_once_sorted_rootless (files : list (list string)) :
  files <> [] ->
  Forall (fun names => names <> []) files ->
  Forall names_ok files ->
  exists dirs,
    r_copy.destination_dirs
      (map (fun names => posixpath.join "/" (posixpath.relpath_below names)) files)
    = Ret dirs
    /\ (forall names d, In names files -> strict_ancestor d names ->
                        count_occ string_dec dirs d = 1)
    /\ (forall d, In d dirs -> exists names, In names files /\ strict_ancestor d names)
    /\ ~ In "/" dirs
    /\ StronglySorted len_le dirs
    /\ (forall d1 d2, In d1 dirs -> In d2 dirs -> above_dir d1 d2 -> before d1 d2 dirs).
Proof.
  intros Hne Hnames Hok.
  destruct (dirs_facts.destination_dirs_of_names files Hne Hnames Hok)
    as [dirs [Hdirs [N [S [M _]]]]].
  exists dirs. split; [exact Hdirs|]. split; [|split; [|split; [|split]]].
  - intros names d Hin Ha. apply NoDup_count_occ'; [exact N|].
    apply M. now exists names.
  - intros d Hd. now apply M.
  - intros Hr. apply M in Hr.
    destruct Hr as [names [Hin [above [rest [Ha [_ [Hn Hr]]]]]]].
    symmetry in Hr. apply path_facts.path_of_root in Hr; [contradiction|].
    rewrite Forall_forall in Hok. specialize (Hok names Hin).
    rewrite Hn in Hok. now apply Forall_app in Hok.
  - exact S.
  - intros d1 d2 H1 H2 [names [-> [above [rest [Ha [Hr [-> ->]]]]]]].
    apply pylist_facts.shorter_before; auto.
    now apply path_facts.path_of_longer.
Qed.

Lemma ancestor_dirs_once_sorted_rootless_witness :
  exists dirs,
    r_copy.destination_dirs
      (map (fun names => posixpath.join "/" (posixpath.relpath_below names))
           [["a"; "b"; "file.txt"]; ["a"; "c"; "d"; "x"]])
    = Ret dirs
    /\ (forall names d, In names [["a"; "b"; "file.txt"]; ["a"; "c"; "d"; "x"]] ->
                        strict_ancestor d names ->
                        count_occ string_dec dirs d = 1)
    /\ (forall d, In d dirs ->
                  exists names, In names [["a"; "b"; "file.txt"]; ["a"; "c"; "d"; "x"]]
                                /\ strict_ancestor d names)
    /\ ~ In "/" dirs
    /\ StronglySorted len_le dirs
    /\ (forall d1 d2, In d1 dirs -> In d2 dirs -> above_dir d1 d2 -> before d1 d2 dirs).
Proof.
  apply (ancestor_dirs_once_sorted_rootless [["a"; "b"; "file.txt"]; ["a"; "c"; "d"; "x"]]).
  - discriminate.
  - repeat constructor; discriminate.
  - repeat constructor.
Defined.

Example destination_dirs_ex :
  r_copy.destination_dirs ["/a/b/file.txt"; "/a/c/d/x"] = Ret ["/a"; "/a/b"; "/a/c"; "/a/c/d"].
Proof. reflexivity. Qed.

(** C4.  A mode value among the default mode, [parent_dirs_mode] and the
    keys of [mode_overrides] passes the check of [run] exactly when it is
    a string of four characters, each between ['0'] and ['7']; with any
    other value among them [run] returns [failed] without having issued
    an operation. *)
Theorem mode_must_be_four_octal_digits
        (W : Type) (remote : W -> r_copy.op -> task_output * W)
        (platform_system : string) (local : localfs.fs) (a : r_copy.args) (w : W)
        (v : scalar) :
  In v (modes_given a) ->
  (r_copy.check_mode v = None <-> exists s, v = SStr s /\ four_octal_digits s)
  /\ (~ (exists s, v = SStr s /\ four_octal_digits s) ->
      let out := r_copy.run remote platform_system local a w in
      exists r, r_copy.returned out = Ret r /\ failed r = true
                /\ r_copy.operations out = [] /\ r_copy.target out = w).
Proof.
  intros Hin.
  assert (r_copy.check_mode v = None <-> exists s, v = SStr s /\ four_octal_digits s) as Hiff.
  { destruct v as [s | z]; cbn [r_copy.check_mode].
    - destruct (r_copy.fullmatch_octal 4 s) eqn:E; cbn [negb]; split.
      + intros _. exists s. split; [reflexivity|]. now apply mode_facts.fullmatch_four.
      + reflexivity.
      + discriminate.
      + intros [s' [Hs Hd]]. injection Hs as <-.
        apply mode_facts.fullmatch_four in Hd. congruence.
    - split; [discriminate|]. intros [s [Hs _]]. discriminate. }
  split; [exact Hiff|].
  intros Hbad out. subst out. unfold r_copy.run. cbv zeta.
  destruct (negb (pystr.mem (pystr.lower platform_system) r_copy.SUPPORTED_OS));
    [eexists; repeat split|].
  destruct (r_copy.required_args a) as [missing | r] eqn:R; [eexists; repeat split|].
  destruct (r_copy.unsupported_arg a); [eexists; repeat split|].
  destruct (local (r_copy.r_src_root r)) as [tree|]; [|eexists; repeat split].
  destruct (r_copy.check_modes (r_copy.mode_values a r)) as [message|] eqn:C;
    [eexists; repeat split|].
  exfalso. apply Hbad, Hiff.
  apply (mode_facts.check_modes_all _ C).
  apply (mode_facts.modes_given_checked a r R). exact Hin.
Qed.

Lemma mode_must_be_four_octal_digits_witness :
  In (SStr "755") (modes_given (sample.args (SStr "755") None))
  /\ ((r_copy.check_mode (SStr "755") = None
       <-> exists s, SStr "755" = SStr s /\ four_octal_digits s)
      /\ (~ (exists s, SStr "755" = SStr s /\ four_octal_digits s) ->
          let out := r_copy.run sample.remote_ok "Linux" sample.local
                                (sample.args (SStr "755") None) tt in
          exists r, r_copy.returned out = Ret r /\ failed r = true
                    /\ r_copy.operations out = [] /\ r_copy.target out = tt)).
Proof.
  split; [now left|].
  apply (mode_must_be_four_octal_digits
           unit sample.remote_ok "Linux" sample.local (sample.args (SStr "755") None) tt).
  now left.
Defined.

Example modes_of_the_specification :
  r_copy.check_mode (SStr "0755") = None
  /\ r_copy.check_mode (SStr "755") <> None
  /\ r_copy.check_mode (SStr "075a") <> None
  /\ r_copy.check_mode (SStr "07555") <> None
  /\ r_copy.check_mode (SInt 493) <> None.
Proof. repeat split; discriminate. Qed.

(** C5, as stated, fails: an override table that is absent, or that is
    given without an entry, is the empty table after the normalisation, not
    a table of one entry. *)
Lemma override_table_without_entry_stays_empty :
  let absent := sample.plain_args in
  let empty := sample.args (SStr "0644") (Some []) in
  let normalised_mode_overrides a r :=
    r_copy.p_mode_overrides (r_copy.normalized_args a r) in
  (r_copy.mode_overrides absent = None
   /\ exists r,
       r_copy.required_args absent = inr r
       /\ normalised_mode_overrides absent r = []
       /\ ~ (exists value paths, normalised_mode_overrides absent r = [(value, paths)]))
  /\ (r_copy.mode_overrides empty = Some []
      /\ exists r,
          r_copy.required_args empty = inr r
          /\ normalised_mode_overrides empty r = []
          /\ ~ (exists value paths,
                   normalised_mode_overrides empty r = [(value, paths)])).
Proof.
  cbv zeta. split; (split; [reflexivity|]); eexists;
    (split; [reflexivity|]); (split; [reflexivity|]);
    intros [value [paths H]]; discriminate H.
Qed.

(** C5, amended.  After the defaults and the normalisation loop of [run],
    an override table that was given with at least one entry is the table
    of one entry made from its last entry: the value of that entry, with
    each of its paths without its trailing separators (what is taken off
    a path is separators only, and what is left does not end with one); a
    table that is absent or empty is the empty table.  The policy lookups
    that follow read the first entry of that table only, and every path
    collected for the check of the override paths is a path of such an
    entry, hence without a trailing separator. *)
Theorem overrides_normalised_to_last_entry (a : r_copy.args) (r : r_copy.required) :
  let p := r_copy.normalized_args a r in
  let normalised (given : option r_copy.table) (t : r_copy.table) :=
    (r_copy.table_or_empty given = [] -> t = [])
    /\ (forall front value paths,
           r_copy.table_or_empty given = (front ++ [(value, paths)])%list ->
           exists kept,
             t = [(value, kept)] /\ Forall2 trailing_seps_removed paths kept) in
  normalised (r_copy.mode_overrides a) (r_copy.p_mode_overrides p)
  /\ normalised (r_copy.owner_overrides a) (r_copy.p_owner_overrides p)
  /\ normalised (r_copy.group_overrides a) (r_copy.p_group_overrides p)
  /\ (forall path kind,
         r_copy._get_mode p path kind
         = match entry_value (r_copy.p_mode_overrides p) path with
           | Some m => m
           | None => match kind with
                     | r_copy.file => r_copy.r_mode r
                     | r_copy.dir => r_copy.r_parent_dirs_mode r
                     end
           end)
  /\ (forall path,
         r_copy._get_owner p path
         = match entry_value (r_copy.p_owner_overrides p) path with
           | Some o => o
           | None => r_copy.r_owner r
           end)
  /\ (forall path,
         r_copy._get_group p path
         = match entry_value (r_copy.p_group_overrides p) path with
           | Some g => g
           | None => r_copy.r_group r
           end)
  /\ (forall path,
         In path (r_copy.override_paths p)
         <-> exists t value kept,
             In t [r_copy.p_mode_overrides p; r_copy.p_owner_overrides p;
                   r_copy.p_group_overrides p]
             /\ t = [(value, kept)] /\ In path kept)
  /\ (forall path,
         In path (r_copy.override_paths p) -> forall s, path <> (s ++ "/")%string).
Proof.
  cbv zeta.
  assert (forall given : option r_copy.table,
             (r_copy.table_or_empty given = [] ->
              r_copy.normalize (r_copy.table_or_empty given) = [])
             /\ (forall front value paths,
                    r_copy.table_or_empty given = (front ++ [(value, paths)])%list ->
                    exists kept,
                      r_copy.normalize (r_copy.table_or_empty given) = [(value, kept)]
                      /\ Forall2 trailing_seps_removed paths kept)) as Hnorm.
  { intros given. split.
    - intros ->. reflexivity.
    - intros front value paths ->.
      exists (map (pystr.rstrip posixpath.sep) paths).
      rewrite override_facts.normalize_last, override_facts.last_entry_snoc.
      split; [reflexivity | apply strip_facts.map_rstrip_removes]. }
  assert (forall t value paths,
             In (value, paths) (last_entry_stripped t)
             <-> last_entry_stripped t = [(value, paths)]) as One.
  { intros t value paths. unfold last_entry_stripped.
    destruct (rev t) as [|[v ps] l]; cbn.
    - split; [tauto | discriminate].
    - split; [intros [H | []]; now rewrite H | intros H; left; now injection H as -> ->]. }
  unfold r_copy.normalized_args.
  cbn [r_copy.p_mode_overrides r_copy.p_owner_overrides r_copy.p_group_overrides
       r_copy.p_owner r_copy.p_group r_copy.p_mode r_copy.p_parent_dirs_mode].
  split; [apply Hnorm|]. split; [apply Hnorm|]. split; [apply Hnorm|].
  split; [|split; [|split; [|split]]].
  - intros path kind. unfold r_copy._get_mode. cbn [r_copy.p_mode_overrides
      r_copy.p_mode r_copy.p_parent_dirs_mode].
    rewrite !override_facts.normalize_last, override_facts.first_override_last. reflexivity.
  - intros path. unfold r_copy._get_owner. cbn [r_copy.p_owner_overrides r_copy.p_owner].
    rewrite !override_facts.normalize_last, override_facts.first_override_last. reflexivity.
  - intros path. unfold r_copy._get_group. cbn [r_copy.p_group_overrides r_copy.p_group].
    rewrite !override_facts.normalize_last, override_facts.first_override_last. reflexivity.
  - intros path. rewrite override_facts.override_paths_In.
    cbn [r_copy.p_mode_overrides r_copy.p_owner_overrides r_copy.p_group_overrides].
    rewrite !override_facts.normalize_last.
    split; intros [t [value [paths [Ht [Hin Hp]]]]].
    + exists t, value, paths. split; [exact Ht|]. split; [|exact Hp].
      destruct Ht as [<- | [<- | [<- | []]]]; now apply One.
    + exists t, value, paths. split; [exact Ht|]. split; [|exact Hp].
      rewrite Hin. now left.
  - intros path Hp. apply override_facts.override_paths_In in Hp.
    cbn [r_copy.p_mode_overrides r_copy.p_owner_overrides r_copy.p_group_overrides] in Hp.
    rewrite !override_facts.normalize_last in Hp.
    destruct Hp as [t [value [paths [Ht [Hin Hpath]]]]].
    assert (exists given, t = last_entry_stripped given) as [given ->].
    { destruct Ht as [<- | [<- | [<- | []]]]; eexists; reflexivity. }
    unfold last_entry_stripped in Hin. destruct (rev given) as [|[v ps] l]; [destruct Hin|].
    destruct Hin as [E | []]. injection E as _ <-.
    apply in_map_iff in Hpath. destruct Hpath as [x [<- _]].
    apply (strip_facts.rstrip_no_trailing posixpath.sep).
Qed.

Example normalize_two_entries :
  r_copy.normalize [(SStr "0600", ["/x/"; "/y"]); (SStr "0700", ["/a//"; "/a/b"])]
  = [(SStr "0700", ["/a"; "/a/b"])].
Proof. reflexivity. Qed.

(** C6.  With arguments that pass every check, a source root without any
    file makes [run] raise [ValueError] from [destination_dirs.remove("/")]
    instead of returning a result. *)
Theorem empty_source_tree_raises
        (W : Type) (remote : W -> r_copy.op -> task_output * W)
        (platform_system : string) (local : localfs.fs) (a : r_copy.args) (w : W)
        (r : r_copy.required) (tree : localfs.tree) :
  pystr.mem (pystr.lower platform_system) r_copy.SUPPORTED_OS = true ->
  r_copy.required_args a = inr r ->
  r_copy.unsupported_arg a = None ->
  local (r_copy.r_src_root r) = Some tree ->
  r_copy.check_modes (r_copy.mode_values a r) = None ->
  localfs.no_files tree = true ->
  r_copy.run remote platform_system local a w
  = {| r_copy.returned := Raise (ValueError "list.remove(x): x not in list");
       r_copy.operations := [];
       r_copy.target := w |}.
Proof.
  intros Hos Hreq Huns Hloc Hmodes Hempty.
  unfold r_copy.run. cbv zeta.
  rewrite Hos, Hreq, Huns, Hloc, Hmodes. cbn [negb].
  rewrite (walk_facts.no_files_no_tuples _ _ Hempty). reflexivity.
Qed.

Lemma empty_source_tree_raises_witness :
  r_copy.run sample.remote_ok "Linux" sample.empty_local sample.plain_args tt
  = {| r_copy.returned := Raise (ValueError "list.remove(x): x not in list");
       r_copy.operations := [];
       r_copy.target := tt |}.
Proof.
  apply (empty_source_tree_raises
           unit sample.remote_ok "Linux" sample.empty_local sample.plain_args tt
           {| r_copy.r_owner := SStr "root"; r_copy.r_group := SStr "root";
              r_copy.r_mode := SStr "0644"; r_copy.r_parent_dirs_mode := SStr "0755";
              r_copy.r_src_root := "/local" |}
           sample.empty_tree); reflexivity.
Defined.

(** C7, as stated, fails: without [owner], [group] and [mode], and with a
    field that the plugin does not know, the template variant runs its
    operations and returns without [failed]. *)
Lemma template_variant_accepts_missing_and_unknown_fields :
  let run_with a :=
    template_recursive.run sample.stat_root_only sample.template_remote_ok
                           sample.first_occurrences sample.template_local a tt in
  let bare := [("templates_root", "/templates")] in
  let extra := [("templates_root", "/templates"); ("owner", "root"); ("group", "root");
                ("mode", "0644"); ("bogus", "1")] in
  (dict_has bare "owner" = false /\ dict_has bare "group" = false
   /\ dict_has bare "mode" = false
   /\ failed (template_recursive.returned (run_with bare)) = false
   /\ template_recursive.happened (run_with bare) <> [])
  /\ (dict_has extra "bogus" = true
      /\ failed (template_recursive.returned (run_with extra)) = false
      /\ template_recursive.happened (run_with extra) <> []).
Proof. cbv zeta. repeat split; try reflexivity; discriminate. Qed.

(** C7, amended.  The template variant returns [failed] with nothing
    issued when [templates_root] is missing or is not a directory; with
    [templates_root] a directory it returns [failed] only when an
    operation that it issued reported [failed], whatever other fields are
    there or missing. *)
Theorem template_variant_checks_templates_root_only
        (W : Type)
        (remote_stat : W -> string -> bool -> template_recursive.stats * W)
        (remote : W -> template_recursive.op -> task_output * W)
        (list_of_set : list string -> list string)
        (local : localfs.fs) (a : template_recursive.args) (w : W) :
  let out := template_recursive.run remote_stat remote list_of_set local a w in
  (dict_get a "templates_root" = None
   \/ (exists root, dict_get a "templates_root" = Some root /\ local root = None) ->
   failed (template_recursive.returned out) = true
   /\ template_recursive.happened out = []
   /\ template_recursive.target out = w)
  /\ (forall root tree,
         dict_get a "templates_root" = Some root -> local root = Some tree ->
         failed (template_recursive.returned out) = true ->
         some_failed (template_recursive.happened out)).
Proof.
  cbv zeta. split.
  - unfold template_recursive.run. cbv zeta.
    intros [H | [root [H L]]]; rewrite H; [|rewrite L]; repeat split.
  - apply template_facts.run_spec.
Qed.

(** C8, as stated, fails for the template variant: a report of no change
    whose diff has the same text before and after adds its diff. *)
Lemma template_variant_records_noop_diff :
  is_True (o_changed sample.noop_report) = false
  /\ same_before_after sample.noop_report
  /\ diff (template_recursive.update_result_from_task initial_result sample.noop_report)
     = [[("before", "x"); ("after", "x")]]
  /\ diff (r_copy._update_result_from_task initial_result sample.noop_report) = [].
Proof.
  split; [reflexivity|]. split; [|split; reflexivity].
  exists [("before", "x"); ("after", "x")], "x". repeat split.
Qed.

(** C8, amended.  The copy variant adds the diff entries of a report when
    the report says [changed], and otherwise unless the diff is one dict
    with equal [before] and [after]; the template variant adds the diff
    entries of every report. *)
Theorem diff_recorded_when (r : result) (o : task_output) :
  (o_changed o = Some true ->
   diff (r_copy._update_result_from_task r o) = (diff r ++ diff_entries o)%list)
  /\ (o_changed o <> Some true -> same_before_after o ->
      diff (r_copy._update_result_from_task r o) = diff r)
  /\ (o_changed o <> Some true -> ~ same_before_after o ->
      diff (r_copy._update_result_from_task r o) = (diff r ++ diff_entries o)%list)
  /\ diff (template_recursive.update_result_from_task r o)
     = (diff r ++ diff_entries o)%list.
Proof.
  assert (is_True (o_changed o) = true <-> o_changed o = Some true) as T.
  { destruct (o_changed o) as [[|]|]; cbn; split; congruence. }
  unfold diff_entries, same_before_after.
  split; [|split; [|split]].
  - intros C. cbn [r_copy._update_result_from_task diff]. unfold r_copy._do_save_diff.
    apply T in C. rewrite C.
    destruct (o_diff o) as [[d | l]|]; cbn [r_copy.add_diff];
      [reflexivity | reflexivity | now rewrite List.app_nil_r].
  - intros C [d [x [Hd [Hb Ha]]]].
    cbn [r_copy._update_result_from_task diff]. unfold r_copy._do_save_diff.
    assert (is_True (o_changed o) = false) as E
        by (destruct (o_changed o) as [[|]|]; try reflexivity; congruence).
    rewrite Hd, E.
    cbn [r_copy.before_is_after]. now rewrite Hb, Ha, String.eqb_refl.
  - intros C N.
    cbn [r_copy._update_result_from_task diff]. unfold r_copy._do_save_diff.
    assert (is_True (o_changed o) = false) as E
        by (destruct (o_changed o) as [[|]|]; try reflexivity; congruence).
    rewrite E.
    destruct (o_diff o) as [[d | l]|] eqn:D; cbn [r_copy.before_is_after r_copy.add_diff];
      [| reflexivity | now rewrite List.app_nil_r].
    destruct (dict_get d "before") as [b|] eqn:Hb; [|reflexivity].
    destruct (dict_get d "after") as [a'|] eqn:Ha; [|reflexivity].
    destruct (String.eqb_spec b a') as [-> | Hne]; [|reflexivity].
    exfalso. apply N. now exists d, a'.
  - cbn [template_recursive.update_result_from_task diff].
    destruct (o_diff o) as [[d | l]|]; [reflexivity | reflexivity | now rewrite List.app_nil_r].
Qed.

(** C9.  In the template variant the pairs of source and destination are
    those of the files of the walk, the destination being the path made of
    the names that lead to the file, the last name without its final
    [.j2] if it has one and unchanged otherwise; and the [file] module
    that makes a destination directory runs only right after the remote
    stat of that directory, which reported that it is absent or not a
    directory. *)
Theorem templates_lose_suffix_dirs_made_after_stat
        (W : Type)
        (remote_stat : W -> string -> bool -> template_recursive.stats * W)
        (remote : W -> template_recursive.op -> task_output * W)
        (list_of_set : list string -> list string)
        (local : localfs.fs) (a : template_recursive.args) (w : W) :
  (forall root tree src dest,
      In (src, dest) (template_recursive.template_files root tree)
      <-> exists dirpath below filenames filename,
          In (dirpath, below, filenames) (localfs.walk root [] tree)
          /\ In filename filenames
          /\ src = posixpath.join dirpath filename
          /\ (forall stem,
                 filename = stem ++ ".j2" ->
                 dest = posixpath.join "/" (posixpath.relpath_below (below ++ [stem])%list))
          /\ (pystr.endswith filename ".j2" = false ->
              dest = posixpath.join "/"
                       (posixpath.relpath_below (below ++ [filename])%list)))
  /\ (forall pre module_args report post,
         template_recursive.happened
           (template_recursive.run remote_stat remote list_of_set local a w)
         = (pre ++ template_recursive.op_event
                     (template_recursive.file_module module_args) report :: post)%list ->
         exists pre' path follow s,
           pre = (pre' ++ [template_recursive.stat_event path follow s])%list
           /\ template_recursive.st_exists s && template_recursive.st_isdir s = false
           /\ dict_get module_args "path" = Some path).
Proof.
  split.
  - intros root tree src dest. rewrite suffix_facts.template_files_In. split.
    + intros [dirpath [below [filenames [filename [He [Hf [Hs Hd]]]]]]].
      exists dirpath, below, filenames, filename.
      split; [exact He|]. split; [exact Hf|]. split; [exact Hs|]. split.
      * intros stem ->. rewrite Hd. apply suffix_facts.dest_with_suffix.
      * intros F. rewrite Hd. now apply suffix_facts.dest_without_suffix.
    + intros [dirpath [below [filenames [filename [He [Hf [Hs [Hyes Hno]]]]]]]].
      exists dirpath, below, filenames, filename.
      split; [exact He|]. split; [exact Hf|]. split; [exact Hs|].
      destruct (pystr.endswith filename ".j2") eqn:F.
      * apply suffix_facts.endswith_iff in F. destruct F as [stem ->].
        rewrite (Hyes stem eq_refl). symmetry. apply suffix_facts.dest_with_suffix.
      * rewrite (Hno eq_refl). symmetry. now apply suffix_facts.dest_without_suffix.
  - intros pre module_args report post E.
    destruct (template_facts.run_spec remote_stat remote list_of_set local a w) as [G _].
    exact (template_facts.guarded_create_after_stat _ G _ _ _ _ E).
Qed.

Example template_scenario :
  template_recursive.template_files "/templates" sample.templates
  = [("/templates/motd", "/motd"); ("/templates/etc/config.yml.j2", "/etc/config.yml")].
Proof. reflexivity. Qed.

Example template_dirs_scenario :
  map (fun ev => match ev with
                 | template_recursive.stat_event path _ _ => ("stat", path)
                 | template_recursive.op_event (template_recursive.file_module m) _ =>
                     ("file", match dict_get m "path" with Some x => x | None => "" end)
                 | template_recursive.op_event (template_recursive.template_action m) _ =>
                     ("template", match dict_get m "dest" with Some x => x | None => "" end)
                 end)
      (template_recursive.happened
         (template_recursive.run sample.stat_root_only sample.template_remote_ok
                                 sample.first_occurrences sample.template_local
                                 [("templates_root", "/templates")] tt))
  = [("stat", "/"); ("stat", "/etc"); ("file", "/etc");
     ("template", "/motd"); ("template", "/etc/config.yml")].
Proof. reflexivity. Qed.

(** C10.  Every destination path that [run] builds is absolute, and
    [_get_all_parent_dirs] returns on the list of them: its assertion
    holds (and its loops end). *)
Theorem destination_paths_absolute (root : string) (t : localfs.tree) :
  Forall (fun sd => posixpath.isabs (snd sd) = true) (r_copy.src_dest_tuples root t)
  /\ exists parents,
      r_copy._get_all_parent_dirs (map snd (r_copy.src_dest_tuples root t)) = Ret parents.
Proof.
  pose proof (walk_facts.destination_files_absolute root t) as H. split.
  - rewrite forallb_forall in H. apply Forall_forall. intros sd Hsd.
    apply H. now apply in_map.
  - destruct (parents_facts.get_all_parent_dirs_spec _ H) as [out [Hout _]].
    now exists out.
Qed.

(* ================================================================= *)
(** * Further properties of the copy variant *)

Module parents_more.
Import py spec more pystr_facts posixpath_facts pylist_facts parents_facts path_facts.
#[local] Open Scope list_scope.

(** More fuel does not change what the loop returns. *)
Lemma parents_loop_more_fuel (fuel : nat) :
  forall cursor output out fuel',
    r_copy.parents_loop fuel cursor output = Some out -> fuel <= fuel' ->
    r_copy.parents_loop fuel' cursor output = Some out.
Proof.
  induction fuel as [|fuel IH]; intros cursor output out fuel' H Hle; [discriminate|].
  destruct fuel' as [|fuel']; [lia|].
  cbn [r_copy.parents_loop] in *. cbv zeta in *.
  destruct (pystr.mem (posixpath.dirname cursor) output); [exact H|].
  apply (IH _ _ _ _ H). lia.
Qed.

Lemma removelast_snoc (front : list string) (c : string) :
  removelast (front ++ [c]) = front.
Proof. apply removelast_last. Qed.

(** A proper prefix of a list of names spells a shorter path. *)
Lemma path_of_prefix_shorter (names : list string) (k : nat) :
  names_ok names -> k < List.length names ->
  String.length (path_of (firstn k names)) < String.length (path_of names).
Proof.
  intros Hok Hk. rewrite <- (firstn_skipn k names) at 2.
  assert (skipn k names <> []) as Hs.
  { intros E. apply (f_equal (@List.length _)) in E. rewrite length_skipn in E.
    cbn in E. lia. }
  destruct (firstn k names) as [|a front] eqn:F.
  - cbn [List.app]. destruct (skipn k names) as [|c rest] eqn:K; [congruence|].
    assert (localfs.name_ok c = true) as Hc.
    { unfold names_ok in Hok. rewrite Forall_forall in Hok. apply Hok.
      rewrite <- (firstn_skipn k names), K. apply in_or_app. right. now left. }
    apply name_ok_inv in Hc. destruct Hc as [Hc _].
    unfold path_of. destruct c as [|ch c]; [congruence|].
    destruct rest; cbn; lia.
  - apply path_of_longer; [discriminate | exact Hs].
Qed.

(** From the path of [n + 1] names the loop climbs to the root, adding each
    parent on the way, when none of them is in the output yet. *)
Lemma parents_loop_up (n : nat) :
  forall names output fuel,
    List.length names = S n -> names_ok names ->
    (forall k, k <= n -> ~ In (path_of (firstn k names)) output) ->
    S n + 2 <= fuel ->
    r_copy.parents_loop fuel (path_of names) output
    = Some (output ++ parents_up_from (S n) names).
Proof.
  induction n as [|n IH]; intros names output fuel Hlen Hok Hnew Hfuel.
  - destruct names as [|c [|d rest]]; try discriminate.
    apply Forall_inv in Hok as Hc.
    destruct fuel as [|[|fuel]]; try lia.
    cbn [r_copy.parents_loop parents_up_from removelast]. cbv zeta.
    change (path_of [c]) with (path_of ([] ++ [c])).
    rewrite (dirname_path_of_snoc [] c (Forall_nil _) Hc).
    replace (pystr.mem (path_of []) output) with false
      by (symmetry; apply mem_false; exact (Hnew 0 (le_n _))).
    change (posixpath.dirname (path_of [])) with (path_of []).
    replace (pystr.mem (path_of []) (output ++ [path_of []])) with true; [reflexivity|].
    symmetry. apply mem_In. apply in_or_app. right. now left.
  - destruct (exists_last (l := names)) as [front [c Hn]];
      [intros E; rewrite E in Hlen; discriminate|].
    subst names. rewrite List.length_app in Hlen. cbn [List.length] in Hlen.
    apply Forall_app in Hok as Hok'. destruct Hok' as [Hf Hc]. apply Forall_inv in Hc.
    destruct fuel as [|fuel]; [lia|].
    cbn [r_copy.parents_loop parents_up_from]. cbv zeta.
    rewrite (dirname_path_of_snoc front c Hf Hc), removelast_snoc.
    assert (forall k, k <= List.length front ->
                      firstn k (front ++ [c]) = firstn k front) as Hfirst.
    { intros k Hk. rewrite firstn_app.
      replace (k - List.length front) with 0 by lia. cbn [firstn].
      now rewrite List.app_nil_r. }
    replace (pystr.mem (path_of front) output) with false.
    2:{ symmetry. apply mem_false. intros Hin. apply (Hnew (S n) (le_n _)).
        rewrite Hfirst by lia. rewrite firstn_all2 by lia. exact Hin. }
    rewrite (IH front (output ++ [path_of front]) fuel); [| lia | exact Hf | | lia].
    + now rewrite <- List.app_assoc.
    + intros k Hk Hin. apply in_app_or in Hin. destruct Hin as [Hin | [Hin | []]].
      * apply (Hnew k); [lia|]. rewrite Hfirst by lia. exact Hin.
      * pose proof (path_of_prefix_shorter front k Hf ltac:(lia)) as Hs.
        rewrite <- Hin in Hs. lia.
Qed.

End parents_more.

Import more.

(** X1.  [_get_all_parent_dirs] raises [AssertionError] when one of its
    paths is not absolute.  On absolute paths it returns a list without
    repetition that holds the parent of each of its members and whose
    members are exactly the results of applying [os.path.dirname] once or
    more to one of the paths. *)
Theorem parents_of_absolute_paths (paths : list string) :
  (forallb posixpath.isabs paths = false ->
   r_copy._get_all_parent_dirs paths
   = Raise (AssertionError "all paths must be absolute"))
  /\ (forallb posixpath.isabs paths = true ->
      exists out,
        r_copy._get_all_parent_dirs paths = Ret out
        /\ NoDup out
        /\ dirname_closed out
        /\ forall x, In x out <-> exists p k, In p paths /\ x = dirname_iter (S k) p).
Proof.
  split.
  - intros H. unfold r_copy._get_all_parent_dirs. now rewrite H.
  - intros H. destruct (parents_facts.get_all_parent_dirs_spec paths H)
      as [out [Hout [C [N Hin]]]].
    exists out. auto.
Qed.

Example parents_of_relative_path :
  r_copy._get_all_parent_dirs ["/a/f"; "b/g"]
  = Raise (AssertionError "all paths must be absolute").
Proof. reflexivity. Qed.

Example parents_of_two_files :
  r_copy._get_all_parent_dirs ["/a/b/f"; "/a/c/g"] = Ret ["/a/b"; "/a"; "/"; "/a/c"].
Proof. reflexivity. Qed.

(** X2.  For one file, given by the entry names that lead to it,
    [_get_all_parent_dirs] lists the parents from the nearest up to the
    root: the deepest directory comes first, so the list is in the order
    opposite to the one in which the directories have to be made. *)
Theorem parents_of_one_file_deepest_first (names : list string) :
  names <> [] -> names_ok names ->
  r_copy._get_all_parent_dirs [path_of names] = Ret (parents_up names).
Proof.
  intros Hne Hok. unfold r_copy._get_all_parent_dirs.
  cbn [forallb]. rewrite dirs_facts.isabs_path_of. cbn [andb negb r_copy.parents_for].
  destruct (parents_facts.parents_loop_total
              (String.length (path_of names)) (path_of names) []
              (String.length (path_of names) + 2) (le_n _) (le_n _)) as [out Hout].
  rewrite Hout. f_equal.
  destruct names as [|c names]; [congruence|].
  pose proof (parents_more.parents_loop_more_fuel _ _ _ _
                (String.length (path_of (c :: names)) + 2 + (S (List.length names) + 2))
                Hout ltac:(lia)) as H1.
  rewrite (parents_more.parents_loop_up (List.length names) (c :: names) []) in H1;
    [| reflexivity | exact Hok | intros k _ [] | lia].
  now injection H1 as <-.
Qed.

Lemma parents_of_one_file_deepest_first_witness :
  ["a"; "b"; "file.txt"] <> [] /\ names_ok ["a"; "b"; "file.txt"]
  /\ r_copy._get_all_parent_dirs [path_of ["a"; "b"; "file.txt"]]
     = Ret (parents_up ["a"; "b"; "file.txt"]).
Proof.
  split; [discriminate|]. split; [repeat constructor|].
  apply (parents_of_one_file_deepest_first ["a"; "b"; "file.txt"]);
    [discriminate | repeat constructor].
Defined.

Example parents_up_ex : parents_up ["a"; "b"; "file.txt"] = ["/a/b"; "/a"; "/"].
Proof. reflexivity. Qed.

Module policy_more.
Import py spec more pystr_facts.
#[local] Open Scope list_scope.

(** The lookup in an override table answers with the first entry that
    lists the path. *)
Lemma first_override_some (t : r_copy.table) (path : string) (v : scalar) :
  r_copy.first_override t path = Some v
  <-> exists front paths rest,
      t = front ++ (v, paths) :: rest
      /\ In path paths
      /\ forall e, In e front -> ~ In path (snd e).
Proof.
  induction t as [|[value paths] t IH]; cbn [r_copy.first_override].
  - split; [discriminate|]. intros [front [ps [rest [E _]]]]. destruct front; discriminate.
  - destruct (pystr.mem path paths) eqn:M.
    + apply mem_In in M. split.
      * intros H. injection H as ->. exists [], paths, t. split; [reflexivity|].
        split; [exact M | intros e []].
      * intros [front [ps [rest [E [Hin Hfront]]]]].
        destruct front as [|e front].
        -- cbn in E. now injection E as -> _ _.
        -- cbn in E. injection E as <- _. exfalso.
           apply (Hfront (value, paths)); [now left | exact M].
    + apply mem_false in M. rewrite IH. split.
      * intros [front [ps [rest [-> [Hin Hfront]]]]].
        exists ((value, paths) :: front), ps, rest. split; [reflexivity|].
        split; [exact Hin|]. intros e [<- | He]; [exact M | now apply Hfront].
      * intros [front [ps [rest [E [Hin Hfront]]]]].
        destruct front as [|e front].
        -- cbn in E. injection E as _ <- _. contradiction.
        -- cbn in E. injection E as _ ->. exists front, ps, rest.
           split; [reflexivity|]. split; [exact Hin|].
           intros e' He'. apply Hfront. now right.
Qed.

Lemma first_override_none (t : r_copy.table) (path : string) :
  r_copy.first_override t path = None
  <-> forall e, In e t -> ~ In path (snd e).
Proof.
  induction t as [|[value paths] t IH]; cbn [r_copy.first_override].
  - split; [intros _ e [] | reflexivity].
  - destruct (pystr.mem path paths) eqn:M.
    + apply mem_In in M. split; [discriminate|].
      intros H. exfalso. apply (H (value, paths)); [now left | exact M].
    + apply mem_false in M. rewrite IH. split.
      * intros H e [<- | He]; [exact M | now apply H].
      * intros H e He. apply H. now right.
Qed.

End policy_more.

(** X3.  The three policy functions answer with the value of the first
    entry of their override table that lists the path, whether the path is
    a file or a directory; when no entry lists it, [_get_owner] and
    [_get_group] give the default owner and group, and [_get_mode] the
    default file mode for a file and [parent_dirs_mode] for a directory. *)
Theorem policy_first_match_else_default (p : r_copy.policy) (path : string) :
  let first_lists (t : r_copy.table) (v : scalar) :=
    exists front paths rest,
      t = (front ++ (v, paths) :: rest)%list
      /\ In path paths
      /\ forall e, In e front -> ~ In path (snd e) in
  let none_lists (t : r_copy.table) := forall e, In e t -> ~ In path (snd e) in
  (forall v kind, first_lists (r_copy.p_mode_overrides p) v ->
                  r_copy._get_mode p path kind = v)
  /\ (none_lists (r_copy.p_mode_overrides p) ->
      r_copy._get_mode p path r_copy.file = r_copy.p_mode p
      /\ r_copy._get_mode p path r_copy.dir = r_copy.p_parent_dirs_mode p)
  /\ (forall v, first_lists (r_copy.p_owner_overrides p) v ->
                r_copy._get_owner p path = v)
  /\ (none_lists (r_copy.p_owner_overrides p) ->
      r_copy._get_owner p path = r_copy.p_owner p)
  /\ (forall v, first_lists (r_copy.p_group_overrides p) v ->
                r_copy._get_group p path = v)
  /\ (none_lists (r_copy.p_group_overrides p) ->
      r_copy._get_group p path = r_copy.p_group p).
Proof.
  cbv zeta. unfold r_copy._get_mode, r_copy._get_owner, r_copy._get_group.
  repeat split.
  - intros v kind H. apply policy_more.first_override_some in H. now rewrite H.
  - apply policy_more.first_override_none in H. now rewrite H.
  - apply policy_more.first_override_none in H. now rewrite H.
  - intros v H. apply policy_more.first_override_some in H. now rewrite H.
  - intros H. apply policy_more.first_override_none in H. now rewrite H.
  - intros v H. apply policy_more.first_override_some in H. now rewrite H.
  - intros H. apply policy_more.first_override_none in H. now rewrite H.
Qed.

Example policy_two_entries :
  let p := {| r_copy.p_owner := SStr "root"; r_copy.p_group := SStr "root";
              r_copy.p_mode := SStr "0644"; r_copy.p_parent_dirs_mode := SStr "0755";
              r_copy.p_mode_overrides :=
                [(SStr "0600", ["/a/f"]); (SStr "0700", ["/a"; "/a/f"])];
              r_copy.p_owner_overrides := []; r_copy.p_group_overrides := [] |} in
  r_copy._get_mode p "/a/f" r_copy.file = SStr "0600"
  /\ r_copy._get_mode p "/a" r_copy.dir = SStr "0700"
  /\ r_copy._get_mode p "/b" r_copy.dir = SStr "0755"
  /\ r_copy._get_mode p "/b/g" r_copy.file = SStr "0644".
Proof. repeat split. Qed.

(** X4.  Every operation that [run] issues is either the making of one of
    the destination directories, never of the root, or the copy of one of
    the walked files to its destination; its owner, group and mode are the
    ones that [_get_owner], [_get_group] and [_get_mode] give for the
    destination path under the normalised arguments. *)
Theorem every_operation_is_for_a_destination
        {W : Type} (remote : W -> r_copy.op -> task_output * W)
        (platform_system : string) (local : localfs.fs) (a : r_copy.args) (w : W)
        (o : r_copy.op) (report : task_output) :
  In (o, report) (r_copy.operations (r_copy.run remote platform_system local a w)) ->
  exists r tree dirs,
    r_copy.required_args a = inr r
    /\ local (r_copy.r_src_root r) = Some tree
    /\ r_copy.destination_dirs
         (map snd (r_copy.src_dest_tuples (r_copy.r_src_root r) tree)) = Ret dirs
    /\ ((exists path,
            In path dirs /\ path <> "/"
            /\ o = r_copy.file_directory
                     path
                     (r_copy._get_owner (r_copy.normalized_args a r) path)
                     (r_copy._get_group (r_copy.normalized_args a r) path)
                     (r_copy._get_mode (r_copy.normalized_args a r) path r_copy.dir))
        \/ (exists src dest,
               In (src, dest) (r_copy.src_dest_tuples (r_copy.r_src_root r) tree)
               /\ o = r_copy.copy_file
                        src dest
                        (r_copy._get_owner (r_copy.normalized_args a r) dest)
                        (r_copy._get_group (r_copy.normalized_args a r) dest)
                        (r_copy._get_mode (r_copy.normalized_args a r) dest r_copy.file))).
Proof. apply run_more.ops_of_run. Qed.

Lemma every_operation_is_for_a_destination_witness :
  let o := r_copy.file_directory "/a/b" (SStr "root") (SStr "root") (SStr "0755") in
  let a := sample.plain_args in
  In (o, sample.report true false)
     (r_copy.operations (r_copy.run sample.remote_ok "Linux" sample.local a tt))
  /\ exists r tree dirs,
    r_copy.required_args a = inr r
    /\ sample.local (r_copy.r_src_root r) = Some tree
    /\ r_copy.destination_dirs
         (map snd (r_copy.src_dest_tuples (r_copy.r_src_root r) tree)) = Ret dirs
    /\ ((exists path,
            In path dirs /\ path <> "/"
            /\ o = r_copy.file_directory
                     path
                     (r_copy._get_owner (r_copy.normalized_args a r) path)
                     (r_copy._get_group (r_copy.normalized_args a r) path)
                     (r_copy._get_mode (r_copy.normalized_args a r) path r_copy.dir))
        \/ (exists src dest,
               In (src, dest) (r_copy.src_dest_tuples (r_copy.r_src_root r) tree)
               /\ o = r_copy.copy_file
                        src dest
                        (r_copy._get_owner (r_copy.normalized_args a r) dest)
                        (r_copy._get_group (r_copy.normalized_args a r) dest)
                        (r_copy._get_mode (r_copy.normalized_args a r) dest r_copy.file))).
Proof.
  cbv zeta. split; [vm_compute; tauto|].
  apply (every_operation_is_for_a_destination
           sample.remote_ok "Linux" sample.local sample.plain_args tt
           _ (sample.report true false)).
  vm_compute. tauto.
Defined.

(** X5.  When [run] returns a result that is not failed, it has made every
    destination directory, in the order of the directory list, and then
    copied every file, in the order of the walk; nothing else was issued
    and no report said [failed]. *)
Theorem success_means_everything_applied
        {W : Type} (remote : W -> r_copy.op -> task_output * W)
        (platform_system : string) (local : localfs.fs) (a : r_copy.args) (w : W)
        (res : result) :
  r_copy.returned (r_copy.run remote platform_system local a w) = Ret res ->
  failed res = false ->
  exists r tree dirs,
    r_copy.required_args a = inr r
    /\ local (r_copy.r_src_root r) = Some tree
    /\ r_copy.destination_dirs
         (map snd (r_copy.src_dest_tuples (r_copy.r_src_root r) tree)) = Ret dirs
    /\ map fst (r_copy.operations (r_copy.run remote platform_system local a w))
       = (map (r_copy._mkdir_chmod_chown (r_copy.normalized_args a r)) dirs
          ++ map (fun sd => r_copy._copy_chmod_chown (r_copy.normalized_args a r)
                                                     (fst sd) (snd sd))
                 (r_copy.src_dest_tuples (r_copy.r_src_root r) tree))%list
    /\ clean (r_copy.operations (r_copy.run remote platform_system local a w)).
Proof.
  intros Hret Hok.
  destruct (run_more.run_phases remote platform_system local a w)
    as [(_ & _ & [[e He] | (res' & Hres' & Hfailed & _)])
       | (r & tree & dirs & ds & fs & _ & R & _ & L & _ & D & _ & _ & _ & _
          & Hops & Hacc & Hall)].
  - rewrite He in Hret. discriminate.
  - rewrite Hres' in Hret. injection Hret as <-. congruence.
  - rewrite Hacc in Hret. injection Hret as <-.
    destruct (Hall Hok) as [-> ->].
    exists r, tree, dirs. repeat (split; [assumption|]).
    unfold clean. apply Forall_forall. intros ev Hev.
    destruct (run_more.accumulate_closed
                (map snd (r_copy.operations (r_copy.run remote platform_system local a w)))
                initial_result) as (_ & Hf & _).
    fold (accumulated (r_copy.operations (r_copy.run remote platform_system local a w))) in Hf.
    rewrite Hok in Hf. symmetry in Hf. apply Bool.orb_false_elim in Hf.
    destruct Hf as [Hf _].
    destruct (is_True (o_failed (snd ev))) eqn:E; [|reflexivity].
    assert (existsb (fun o => is_True (o_failed o))
                    (map snd (r_copy.operations
                                (r_copy.run remote platform_system local a w))) = true)
      as Hex.
    { apply existsb_exists. exists (snd ev). split; [now apply in_map | exact E]. }
    congruence.
Qed.

Lemma success_means_everything_applied_witness :
  let out := r_copy.run sample.remote_ok "Linux" sample.local sample.plain_args tt in
  exists res,
    r_copy.returned out = Ret res
    /\ failed res = false
    /\ exists r tree dirs,
      r_copy.required_args sample.plain_args = inr r
      /\ sample.local (r_copy.r_src_root r) = Some tree
      /\ r_copy.destination_dirs
           (map snd (r_copy.src_dest_tuples (r_copy.r_src_root r) tree)) = Ret dirs
      /\ map fst (r_copy.operations out)
         = (map (r_copy._mkdir_chmod_chown (r_copy.normalized_args sample.plain_args r)) dirs
            ++ map (fun sd => r_copy._copy_chmod_chown
                                (r_copy.normalized_args sample.plain_args r)
                                (fst sd) (snd sd))
                   (r_copy.src_dest_tuples (r_copy.r_src_root r) tree))%list
      /\ clean (r_copy.operations out).
Proof.
  cbv zeta.
  exists (accumulated
            (r_copy.operations
               (r_copy.run sample.remote_ok "Linux" sample.local sample.plain_args tt))).
  split; [vm_compute; reflexivity|]. split; [vm_compute; reflexivity|].
  apply (success_means_everything_applied
           sample.remote_ok "Linux" sample.local sample.plain_args tt
           (accumulated
              (r_copy.operations
                 (r_copy.run sample.remote_ok "Linux" sample.local sample.plain_args tt))));
    vm_compute; reflexivity.
Defined.

(** X6.  [run] issues an operation only after every check has passed: the
    platform is Linux or Darwin (in any letter case), the five required
    arguments are there, every argument is a supported one, [src_root] is a
    directory, every mode given is a string of four octal digits, the
    directory list could be made, and every path of the override tables
    that are kept is a destination file or directory. *)
Theorem operations_only_after_every_check
        {W : Type} (remote : W -> r_copy.op -> task_output * W)
        (platform_system : string) (local : localfs.fs) (a : r_copy.args) (w : W) :
  r_copy.operations (r_copy.run remote platform_system local a w) <> [] ->
  In (pystr.lower platform_system) ["linux"; "darwin"]
  /\ Forall (fun name => In name r_copy.supported_args) (r_copy.arg_names a)
  /\ (forall v, In v (modes_given a) -> exists s, v = SStr s /\ four_octal_digits s)
  /\ exists o g m pm root tree dirs,
      r_copy.owner a = Some o /\ r_copy.group a = Some g /\ r_copy.mode a = Some m
      /\ r_copy.parent_dirs_mode a = Some pm /\ r_copy.src_root a = Some root
      /\ local root = Some tree
      /\ r_copy.destination_dirs (map snd (r_copy.src_dest_tuples root tree)) = Ret dirs
      /\ forall path,
          In path (r_copy.override_paths
                     (r_copy.normalized_args
                        a {| r_copy.r_owner := o; r_copy.r_group := g;
                             r_copy.r_mode := m; r_copy.r_parent_dirs_mode := pm;
                             r_copy.r_src_root := root |})) ->
          In path (map snd (r_copy.src_dest_tuples root tree)) \/ In path dirs.
Proof.
  intros Hops.
  destruct (run_more.run_phases remote platform_system local a w)
    as [(Hnone & _)
       | (r & tree & dirs & ds & fs & OS & R & U & L & C & D & Hov & _)];
    [contradiction|].
  split; [now apply pystr_facts.mem_In in OS|].
  split; [now apply run_more.unsupported_none|].
  split.
  { intros v Hv. apply run_more.check_mode_passes.
    apply (mode_facts.check_modes_all _ C).
    now apply (mode_facts.modes_given_checked a r R). }
  unfold r_copy.required_args in R.
  destruct (r_copy.owner a) as [o|]; [|discriminate].
  destruct (r_copy.group a) as [g|]; [|discriminate].
  destruct (r_copy.mode a) as [m|]; [|discriminate].
  destruct (r_copy.parent_dirs_mode a) as [pm|]; [|discriminate].
  destruct (r_copy.src_root a) as [root|]; [|discriminate].
  injection R as <-. cbn [r_copy.r_src_root] in *.
  exists o, g, m, pm, root, tree, dirs. repeat (split; [reflexivity || assumption|]).
  intros path Hp. apply in_app_or. now apply Hov.
Qed.

Lemma operations_only_after_every_check_witness :
  let out := r_copy.run sample.remote_ok "Linux" sample.local sample.plain_args tt in
  r_copy.operations out <> []
  /\ In (pystr.lower "Linux") ["linux"; "darwin"]
  /\ Forall (fun name => In name r_copy.supported_args) (r_copy.arg_names sample.plain_args).
Proof.
  cbv zeta.
  assert (r_copy.operations
            (r_copy.run sample.remote_ok "Linux" sample.local sample.plain_args tt) <> [])
    as H by (vm_compute; discriminate).
  split; [exact H|].
  destruct (operations_only_after_every_check
              sample.remote_ok "Linux" sample.local sample.plain_args tt H)
    as (H1 & H2 & _).
  split; [exact H1 | exact H2].
Defined.

(** X7.  When [run] has issued operations, its result sums up their
    reports: [changed] and [failed] are true when some report says so,
    [msg] is the messages of the reports in order, each after a newline,
    and [diff] holds, in order, the diff entries of the reports whose diff
    is kept. *)
Theorem result_sums_up_the_reports
        {W : Type} (remote : W -> r_copy.op -> task_output * W)
        (platform_system : string) (local : localfs.fs) (a : r_copy.args) (w : W) :
  let out := r_copy.run remote platform_system local a w in
  let reports := map snd (r_copy.operations out) in
  r_copy.operations out <> [] ->
  exists res,
    r_copy.returned out = Ret res
    /\ changed res = existsb (fun o => is_True (o_changed o)) reports
    /\ failed res = existsb (fun o => is_True (o_failed o)) reports
    /\ msg res = fold_right String.append "" (map msg_line reports)
    /\ diff res = flat_map kept_diff reports.
Proof.
  cbv zeta. intros Hops.
  destruct (run_more.run_phases remote platform_system local a w)
    as [(Hnone & _)
       | (r & tree & dirs & ds & fs & _ & _ & _ & _ & _ & _ & _ & _ & _ & _ & _
          & Hacc & _)];
    [contradiction|].
  exists (accumulated (r_copy.operations (r_copy.run remote platform_system local a w))).
  split; [exact Hacc|].
  destruct (run_more.accumulate_closed
              (map snd (r_copy.operations (r_copy.run remote platform_system local a w)))
              initial_result) as (Hc & Hf & Hm & Hd).
  fold (accumulated (r_copy.operations (r_copy.run remote platform_system local a w)))
    in Hc, Hf, Hm, Hd.
  cbn [initial_result changed failed msg diff] in Hc, Hf, Hm, Hd.
  rewrite Bool.orb_false_r in Hc, Hf.
  repeat split; assumption.
Qed.

Lemma result_sums_up_the_reports_witness :
  let out := r_copy.run sample.remote_failing "Linux" sample.local sample.plain_args tt in
  let reports := map snd (r_copy.operations out) in
  r_copy.operations out <> []
  /\ exists res,
    r_copy.returned out = Ret res
    /\ changed res = existsb (fun o => is_True (o_changed o)) reports
    /\ failed res = existsb (fun o => is_True (o_failed o)) reports
    /\ msg res = fold_right String.append "" (map msg_line reports)
    /\ diff res = flat_map kept_diff reports.
Proof.
  cbv zeta. split; [vm_compute; discriminate|].
  apply (result_sums_up_the_reports
           sample.remote_failing "Linux" sample.local sample.plain_args tt).
  vm_compute. discriminate.
Defined.

(** X8.  When [run] copies a file, the directory that is to hold it has
    been made by an earlier operation of the same run, unless that
    directory is the root. *)
Theorem parent_directory_made_before_copy
        {W : Type} (remote : W -> r_copy.op -> task_output * W)
        (platform_system : string) (local : localfs.fs) (a : r_copy.args) (w : W)
        (pre post : r_copy.trace) (src dest : string) (o g m : scalar)
        (report : task_output) :
  r_copy.operations (r_copy.run remote platform_system local a w)
  = (pre ++ (r_copy.copy_file src dest o g m, report) :: post)%list ->
  posixpath.dirname dest = "/" \/ In (posixpath.dirname dest) (dirs_made pre).
Proof.
  intros Hcut.
  destruct (run_more.run_phases remote platform_system local a w)
    as [(Hnone & _)
       | (r & tree & dirs & ds & fs & _ & _ & _ & _ & _ & D & _ & _ & [rest Hfs]
          & Hdisj & Hops & _)].
  { rewrite Hnone in Hcut. destruct pre; discriminate. }
  rewrite Hcut in Hops. rewrite map_app in Hops. cbn [map fst] in Hops.
  symmetry in Hops.
  assert (In (r_copy.copy_file src dest o g m)
             (map (fun sd => r_copy._copy_chmod_chown (r_copy.normalized_args a r)
                                                      (fst sd) (snd sd)) fs)) as Hin.
  { assert (In (r_copy.copy_file src dest o g m)
               (map (r_copy._mkdir_chmod_chown (r_copy.normalized_args a r)) ds
                ++ map (fun sd => r_copy._copy_chmod_chown (r_copy.normalized_args a r)
                                                           (fst sd) (snd sd)) fs)%list)
      as H.
    { rewrite Hops. apply in_or_app. right. now left. }
    apply in_app_or in H. destruct H as [H | H]; [|exact H].
    apply in_map_iff in H. destruct H as [d [Hd _]]. discriminate. }
  assert (ds = dirs) as ->.
  { destruct Hdisj as [-> | E]; [destruct Hin | exact E]. }
  apply in_map_iff in Hin. destruct Hin as [[src' dest'] [E Hsd]].
  cbn [fst snd r_copy._copy_chmod_chown] in E. injection E as _ -> _ _ _.
  assert (In dest (map snd (r_copy.src_dest_tuples (r_copy.r_src_root r) tree))) as Hdest.
  { rewrite Hfs. rewrite map_app. apply in_or_app. left.
    apply in_map_iff. now exists (src', dest). }
  destruct (run_more.destination_dirs_inv
              _ _ (walk_facts.destination_files_absolute _ _) D) as (_ & _ & M & _).
  destruct (string_dec (posixpath.dirname dest) "/") as [E | E]; [now left|].
  right.
  destruct (run_more.dir_ops_before_cut _ _ _ _ _ _ Hops) as [pre' Hpre];
    [intros []|].
  apply (run_more.dirs_made_holds _ _ _ _ Hpre).
  apply M. split; [exact E|]. exists dest, 0. split; [exact Hdest | reflexivity].
Qed.

Lemma parent_directory_made_before_copy_witness :
  let out := r_copy.run sample.remote_ok "Linux" sample.local sample.plain_args tt in
  let pre := firstn 2 (r_copy.operations out) in
  let post := skipn 3 (r_copy.operations out) in
  r_copy.operations out
  = (pre ++ (r_copy.copy_file "/local/a/b/file.txt" "/a/b/file.txt"
                              (SStr "root") (SStr "root") (SStr "0644"),
             sample.report true false) :: post)%list
  /\ (posixpath.dirname "/a/b/file.txt" = "/"
      \/ In (posixpath.dirname "/a/b/file.txt") (dirs_made pre)).
Proof.
  cbv zeta. split; [vm_compute; reflexivity|].
  apply (parent_directory_made_before_copy
           sample.remote_ok "Linux" sample.local sample.plain_args tt
           _ (skipn 3 (r_copy.operations
                         (r_copy.run sample.remote_ok "Linux" sample.local
                                     sample.plain_args tt)))
           "/local/a/b/file.txt" "/a/b/file.txt"
           (SStr "root") (SStr "root") (SStr "0644") (sample.report true false)).
  vm_compute. reflexivity.
Defined.

Module walk_more.
Import py spec more pystr_facts path_facts.
#[local] Open Scope list_scope.

Lemma endswith_sep_snoc (s : string) (b : ascii) :
  Ascii.eqb b posixpath.sep = false ->
  pystr.endswith (s ++ String b "") "/" = false.
Proof.
  intros Hb. destruct (pystr.endswith (s ++ String b "") "/") eqn:E; [|reflexivity].
  apply suffix_facts.endswith_iff in E. destruct E as [stem E].
  apply suffix_facts.snoc_inj in E. subst b. discriminate.
Qed.

(** The relative path that entry names spell: it neither starts nor ends
    with the separator. *)
Lemma concat_names_shape (names : list string) :
  names_ok names -> names <> [] ->
  pystr.startswith (String.concat "/" names) "/" = false
  /\ exists s b, String.concat "/" names = (s ++ String b "")%string
                 /\ Ascii.eqb b posixpath.sep = false.
Proof.
  intros Hok Hne. split.
  - destruct names as [|n names]; [congruence|].
    apply Forall_inv in Hok. apply name_ok_inv in Hok. destruct Hok as [Hn Hs].
    destruct n as [|a n]; [congruence|].
    apply rfind_absent_cons in Hs. destruct Hs as [Ha _].
    unfold posixpath.sep in Ha.
    destruct names; cbn [String.concat String.append pystr.startswith]; now rewrite Ha.
  - destruct (path_of_ends names Hok Hne) as [s [b [E Hb]]].
    unfold path_of in E. destruct s as [|c s].
    + cbn in E. injection E as <- _. discriminate.
    + cbn in E. injection E as _ E. now exists s, b.
Qed.

Lemma join_relative (a x : string) :
  pystr.startswith x "/" = false ->
  posixpath.join a x
  = if String.eqb a "" || pystr.endswith a "/" then (a ++ x)%string
    else (a ++ "/" ++ x)%string.
Proof. intros H. unfold posixpath.join. now rewrite H. Qed.

(** One step of the walk: joining the directory's path with a name gives
    the path that the longer list of names spells. *)
Lemma join_below (root : string) (below : list string) (name : string) :
  names_ok below -> localfs.name_ok name = true ->
  posixpath.join (below_root root below) name
  = posixpath.join root (String.concat "/" (below ++ [name])).
Proof.
  intros Hb Hn. destruct below as [|b bs]; [reflexivity|].
  cbn [below_root]. set (x := String.concat "/" (b :: bs)).
  destruct (concat_names_shape (b :: bs) Hb ltac:(discriminate))
    as [Hstart [s [c [Hx Hc]]]].
  fold x in Hstart, Hx.
  assert (pystr.startswith name "/" = false) as Hname.
  { destruct (concat_names_shape [name] ltac:(now repeat constructor) ltac:(discriminate))
      as [H _]. exact H. }
  rewrite (concat_app (b :: bs) [name]) by discriminate. fold x.
  cbn [String.concat].
  assert (pystr.startswith (x ++ String posixpath.sep name) "/" = false) as Hstart'.
  { destruct x as [|c0 x0]; [destruct s; discriminate|].
    now rewrite suffix_facts.startswith_app. }
  rewrite (join_relative root x Hstart).
  rewrite (join_relative root _ Hstart').
  assert (forall y, posixpath.join (y ++ x) name = (y ++ x ++ "/" ++ name)%string) as J.
  { intros y. rewrite (join_relative _ _ Hname). rewrite Hx.
    rewrite <- pystr_facts.app_assoc.
    rewrite (endswith_sep_snoc (y ++ s) c Hc).
    replace (String.eqb ((y ++ s) ++ String c "") "") with false
      by (destruct (y ++ s)%string; reflexivity).
    cbn [orb]. now rewrite !pystr_facts.app_assoc. }
  destruct (String.eqb root "" || pystr.endswith root "/").
  - apply J.
  - specialize (J (root ++ "/")%string). rewrite !pystr_facts.app_assoc in J.
    exact J.
Qed.

(** Every directory of the walk is spelled by the names that lead to it. *)
Lemma walk_dirpath (root : string) (t : localfs.tree) :
  localfs.tree_ok t = true ->
  forall dirpath below,
    names_ok below -> dirpath = below_root root below ->
    Forall (fun entry => fst (fst entry) = below_root root (snd (fst entry)))
           (localfs.walk dirpath below t).
Proof.
  induction t as [filenames subdirs IH] using walk_facts.tree_induction.
  cbn [localfs.tree_ok localfs.walk]. intros H dirpath below Hb Hd.
  apply andb_prop in H. destruct H as [Hf Hs].
  constructor; [exact Hd|].
  rewrite forallb_forall in Hs. rewrite Forall_forall in IH.
  apply Forall_forall. intros entry He. apply in_flat_map in He.
  destruct He as [ds [Hds He]].
  specialize (Hs ds Hds). apply andb_prop in Hs. destruct Hs as [Hn Ht].
  assert (names_ok (below ++ [fst ds])) as Hb'.
  { apply Forall_app. split; [exact Hb | now constructor]. }
  assert (posixpath.join dirpath (fst ds) = below_root root (below ++ [fst ds])) as Hd'.
  { rewrite Hd, (join_below root below (fst ds) Hb Hn).
    destruct below; reflexivity. }
  specialize (IH ds Hds Ht _ _ Hb' Hd').
  rewrite Forall_forall in IH. now apply IH.
Qed.

End walk_more.

(** X9.  In a source tree of entry names, every file is copied to the
    place below the root directory that it has below [src_root]: with
    [rel] the relative path of the file, the source is
    [os.path.join(src_root, rel)] and the destination is ["/" + rel].  When
    [src_root] is not empty and has no trailing separator, the source is
    [src_root] followed by the destination. *)
Theorem file_keeps_its_relative_path
        (root : string) (t : localfs.tree) (src dest : string) :
  localfs.tree_ok t = true ->
  In (src, dest) (r_copy.src_dest_tuples root t) ->
  (exists names,
      names <> [] /\ names_ok names
      /\ src = posixpath.join root (String.concat "/" names)
      /\ dest = ("/" ++ String.concat "/" names)%string)
  /\ (root <> "" -> pystr.endswith root "/" = false -> src = (root ++ dest)%string).
Proof.
  intros Hok Hin.
  assert (exists names,
             names <> [] /\ names_ok names
             /\ src = posixpath.join root (String.concat "/" names)
             /\ dest = ("/" ++ String.concat "/" names)%string) as H.
  { unfold r_copy.src_dest_tuples in Hin. apply in_flat_map in Hin.
    destruct Hin as [[[dirpath below] filenames] [He Hin]].
    apply in_map_iff in Hin. destruct Hin as [filename [E Hf]].
    cbv zeta in E. injection E as <- <-.
    pose proof (walk_more.walk_dirpath root t Hok root [] (Forall_nil _) eq_refl) as D.
    pose proof (walk_facts.walk_names_ok t Hok root [] (Forall_nil _)) as N.
    rewrite Forall_forall in D, N.
    specialize (D _ He). destruct (N _ He) as [Nb Nf]. cbn [fst snd] in D, Nb, Nf.
    unfold names_ok in Nf. rewrite Forall_forall in Nf. specialize (Nf _ Hf).
    assert (names_ok (below ++ [filename])%list) as Hn.
    { apply Forall_app. split; [exact Nb | now constructor]. }
    exists (below ++ [filename])%list.
    split; [intros E; now apply app_eq_nil in E as [_ E]|].
    split; [exact Hn|]. split.
    - rewrite D. now apply walk_more.join_below.
    - apply (path_facts.join_root_names _ Hn). }
  split; [exact H|].
  intros Hroot Hend. destruct H as (names & Hne & Hn & -> & ->).
  destruct (walk_more.concat_names_shape names Hn Hne) as [Hstart _].
  rewrite (walk_more.join_relative root _ Hstart), Hend.
  destruct root; [congruence | reflexivity].
Qed.

Lemma file_keeps_its_relative_path_witness :
  localfs.tree_ok sample.tree = true
  /\ In ("/local/a/b/file.txt", "/a/b/file.txt") (r_copy.src_dest_tuples "/local" sample.tree)
  /\ ("/local" <> "" -> pystr.endswith "/local" "/" = false ->
      "/local/a/b/file.txt" = ("/local" ++ "/a/b/file.txt")%string).
Proof.
  split; [reflexivity|]. split; [vm_compute; tauto|].
  apply (file_keeps_its_relative_path "/local" sample.tree
                                      "/local/a/b/file.txt" "/a/b/file.txt");
    [reflexivity | vm_compute; tauto].
Defined.

Module override_more.
Import py spec more pystr_facts posixpath_facts.
#[local] Open Scope list_scope.

Lemma rstrip_empty (c : ascii) (s : string) :
  pystr.rstrip c s = "" -> String.eqb s (pystr.times c (String.length s)) = true.
Proof.
  induction s as [|a s IH]; [reflexivity|].
  cbn [pystr.rstrip String.length pystr.times String.eqb].
  destruct (pystr.rstrip c s) eqn:E; [|discriminate].
  destruct (Ascii.eqb a c); [intros _; now apply IH | discriminate].
Qed.

(** The parent of an absolute path is absolute. *)
Lemma isabs_dirname (p : string) :
  posixpath.isabs p = true -> posixpath.isabs (posixpath.dirname p) = true.
Proof.
  intros Habs. destruct p as [|a p]; [discriminate|].
  unfold posixpath.isabs in Habs. cbn [pystr.startswith] in Habs.
  rewrite andb_true_r in Habs.
  destruct (rfind_split posixpath.sep (String a p)) as [H | [s [t [Hp Ht]]]].
  - apply rfind_absent_cons in H. unfold posixpath.sep in H. destruct H as [H _]. congruence.
  - rewrite Hp, (dirname_split s t Ht).
    destruct s as [|b s]; [reflexivity|].
    cbn in Hp. injection Hp as <- _.
    destruct (String.eqb (String a s) _) eqn:E.
    + unfold posixpath.isabs. cbn [String.append pystr.startswith]. now rewrite Habs.
    + cbn [pystr.rstrip]. destruct (pystr.rstrip posixpath.sep s) eqn:R.
      * apply rstrip_empty in R. cbn [String.length pystr.times String.eqb] in E.
        rewrite R in E. apply Ascii.eqb_eq in Habs. subst a. discriminate.
      * unfold posixpath.isabs. cbn [pystr.startswith]. now rewrite Habs.
Qed.

Lemma isabs_dirname_iter (k : nat) (p : string) :
  posixpath.isabs p = true -> posixpath.isabs (dirname_iter k p) = true.
Proof.
  intros H. induction k as [|k IH]; [exact H|].
  unfold dirname_iter in *. cbn [Nat.iter]. now apply isabs_dirname.
Qed.

(** A path that an entry of a normalised table lists. *)
Lemma normalized_lists (t front : r_copy.table) (v : scalar) (paths : list string)
      (p : string) :
  t = front ++ [(v, paths)] -> In p paths ->
  In (v, map (pystr.rstrip posixpath.sep) paths) (r_copy.normalize t)
  /\ In (pystr.rstrip posixpath.sep p) (map (pystr.rstrip posixpath.sep) paths).
Proof.
  intros -> Hp. rewrite override_facts.normalize_last, override_facts.last_entry_snoc.
  split; [now left | now apply in_map].
Qed.

End override_more.

(** X10.  The root directory cannot be given an override: when the last
    entry of [mode_overrides], [owner_overrides] or [group_overrides] lists
    a path that consists of separators only (["/"], or the empty path),
    [run] issues no operation and returns no result that is not failed. *)
Theorem override_for_the_root_is_rejected
        {W : Type} (remote : W -> r_copy.op -> task_output * W)
        (platform_system : string) (local : localfs.fs) (a : r_copy.args) (w : W)
        (t front : r_copy.table) (v : scalar) (paths : list string) (p : string) :
  In (Some t) [r_copy.mode_overrides a; r_copy.owner_overrides a;
               r_copy.group_overrides a] ->
  t = (front ++ [(v, paths)])%list ->
  In p paths ->
  pystr.rstrip posixpath.sep p = "" ->
  let out := r_copy.run remote platform_system local a w in
  r_copy.operations out = []
  /\ r_copy.target out = w
  /\ forall res, r_copy.returned out = Ret res -> failed res = true.
Proof.
  intros Ht Hfront Hp Hstrip. cbv zeta.
  destruct (run_more.run_phases remote platform_system local a w)
    as [(Hnone & Hw & [[e He] | (res' & Hres' & Hfailed & _)])
       | (r & tree & dirs & ds & fs & _ & _ & _ & _ & _ & D & Hov & _)].
  - split; [exact Hnone|]. split; [exact Hw|]. intros res Hres. congruence.
  - split; [exact Hnone|]. split; [exact Hw|]. intros res Hres. congruence.
  - exfalso.
    destruct (override_more.normalized_lists t front v paths p Hfront Hp) as [H1 H2].
    rewrite Hstrip in H2.
    assert (In "" (r_copy.override_paths (r_copy.normalized_args a r))) as Hin.
    { apply override_facts.override_paths_In.
      exists (r_copy.normalize t), v, (map (pystr.rstrip posixpath.sep) paths).
      split; [|split; assumption].
      cbn [r_copy.normalized_args r_copy.p_mode_overrides r_copy.p_owner_overrides
           r_copy.p_group_overrides].
      destruct Ht as [E | [E | [E | []]]]; rewrite E; cbn [r_copy.table_or_empty];
        [now left | right; now left | right; right; now left]. }
    pose proof (walk_facts.destination_files_absolute (r_copy.r_src_root r) tree) as Habs.
    apply Hov in Hin. apply in_app_or in Hin. destruct Hin as [Hin | Hin].
    + rewrite forallb_forall in Habs. specialize (Habs _ Hin). discriminate.
    + destruct (run_more.destination_dirs_inv _ _ Habs D) as (_ & _ & M & _).
      apply M in Hin. destruct Hin as [_ [q [k [Hq Hk]]]].
      rewrite forallb_forall in Habs. specialize (Habs _ Hq).
      apply (override_more.isabs_dirname_iter (S k)) in Habs.
      rewrite <- Hk in Habs. discriminate.
Qed.

Lemma override_for_the_root_is_rejected_witness :
  let a := sample.args (SStr "0644") (Some [(SStr "0700", ["/a"; "/"])]) in
  let out := r_copy.run sample.remote_ok "Linux" sample.local a tt in
  r_copy.operations out = []
  /\ r_copy.target out = tt
  /\ forall res, r_copy.returned out = Ret res -> failed res = true.
Proof.
  apply (override_for_the_root_is_rejected
           sample.remote_ok "Linux" sample.local
           (sample.args (SStr "0644") (Some [(SStr "0700", ["/a"; "/"])])) tt
           [(SStr "0700", ["/a"; "/"])] [] (SStr "0700") ["/a"; "/"] "/").
  - now left.
  - reflexivity.
  - right. now left.
  - reflexivity.
Defined.

(** X11.  Without entries in the three override tables, every directory
    that [run] makes gets the owner, the group and [parent_dirs_mode] of
    the arguments, and every file it copies gets the owner, the group and
    [mode]. *)
Theorem without_overrides_the_defaults_apply
        {W : Type} (remote : W -> r_copy.op -> task_output * W)
        (platform_system : string) (local : localfs.fs) (a : r_copy.args) (w : W)
        (o : r_copy.op) (report : task_output) :
  r_copy.table_or_empty (r_copy.mode_overrides a) = [] ->
  r_copy.table_or_empty (r_copy.owner_overrides a) = [] ->
  r_copy.table_or_empty (r_copy.group_overrides a) = [] ->
  In (o, report) (r_copy.operations (r_copy.run remote platform_system local a w)) ->
  exists own grp m pm,
    r_copy.owner a = Some own /\ r_copy.group a = Some grp
    /\ r_copy.mode a = Some m /\ r_copy.parent_dirs_mode a = Some pm
    /\ ((exists path, o = r_copy.file_directory path own grp pm)
        \/ (exists src dest, o = r_copy.copy_file src dest own grp m)).
Proof.
  intros Hm Ho Hg Hin.
  destruct (run_more.ops_of_run remote platform_system local a w o report Hin)
    as (r & tree & dirs & R & _ & _ & Hop).
  unfold r_copy._mkdir_chmod_chown, r_copy._copy_chmod_chown,
    r_copy._get_owner, r_copy._get_group, r_copy._get_mode in Hop.
  cbn [r_copy.normalized_args r_copy.p_mode_overrides r_copy.p_owner_overrides
       r_copy.p_group_overrides r_copy.p_owner r_copy.p_group r_copy.p_mode
       r_copy.p_parent_dirs_mode] in Hop.
  rewrite Hm, Ho, Hg in Hop. cbn [r_copy.normalize fold_left r_copy.first_override] in Hop.
  unfold r_copy.required_args in R.
  destruct (r_copy.owner a) as [own|]; [|discriminate].
  destruct (r_copy.group a) as [grp|]; [|discriminate].
  destruct (r_copy.mode a) as [m|]; [|discriminate].
  destruct (r_copy.parent_dirs_mode a) as [pm|]; [|discriminate].
  destruct (r_copy.src_root a) as [root|]; [|discriminate].
  injection R as <-. cbn in Hop.
  exists own, grp, m, pm. repeat (split; [reflexivity|]).
  destruct Hop as [(path & _ & _ & ->) | (src & dest & _ & ->)].
  - left. now exists path.
  - right. now exists src, dest.
Qed.

Lemma without_overrides_the_defaults_apply_witness :
  let o := r_copy.copy_file "/local/a/b/file.txt" "/a/b/file.txt"
                            (SStr "root") (SStr "root") (SStr "0644") in
  In (o, sample.report true false)
     (r_copy.operations
        (r_copy.run sample.remote_ok "Linux" sample.local sample.plain_args tt))
  /\ exists own grp m pm,
    r_copy.owner sample.plain_args = Some own /\ r_copy.group sample.plain_args = Some grp
    /\ r_copy.mode sample.plain_args = Some m
    /\ r_copy.parent_dirs_mode sample.plain_args = Some pm
    /\ ((exists path, o = r_copy.file_directory path own grp pm)
        \/ (exists src dest, o = r_copy.copy_file src dest own grp m)).
Proof.
  cbv zeta. split; [vm_compute; tauto|].
  apply (without_overrides_the_defaults_apply
           sample.remote_ok "Linux" sample.local sample.plain_args tt
           _ (sample.report true false));
    [reflexivity | reflexivity | reflexivity | vm_compute; tauto].
Defined.

(* ================================================================= *)
(** * Further properties of the template variant *)

Module template_more.
Import py spec more pystr_facts.
#[local] Open Scope list_scope.

(** *** Dicts *)

Lemma dict_get_set {V : Type} (d : dict V) (k : string) (v : V) (k' : string) :
  dict_get (dict_set d k v) k' = if String.eqb k k' then Some v else dict_get d k'.
Proof.
  induction d as [|[k1 v1] d IH]; cbn [dict_set dict_get]; [reflexivity|].
  destruct (String.eqb k1 k) eqn:E1; cbn [dict_get].
  - apply String.eqb_eq in E1. subst k1. destruct (String.eqb k k'); reflexivity.
  - rewrite IH. destruct (String.eqb k1 k') eqn:E2; [|reflexivity].
    apply String.eqb_eq in E2. subst k'. rewrite String.eqb_sym in E1. now rewrite E1.
Qed.

Lemma dict_get_del {V : Type} (d : dict V) (k k' : string) :
  dict_get (dict_del d k) k' = if String.eqb k k' then None else dict_get d k'.
Proof.
  unfold dict_del.
  induction d as [|[k1 v1] d IH]; cbn [filter dict_get fst].
  - destruct (String.eqb k k'); reflexivity.
  - destruct (String.eqb k1 k) eqn:E1; cbn [negb dict_get].
    + rewrite IH. apply String.eqb_eq in E1. subst k1.
      destruct (String.eqb k k'); reflexivity.
    + rewrite IH. destruct (String.eqb k1 k') eqn:E2; [|reflexivity].
      apply String.eqb_eq in E2. subst k'. rewrite String.eqb_sym in E1. now rewrite E1.
Qed.

(** *** Traces *)

Lemma reports_of_app (l1 l2 : list template_recursive.event) :
  reports_of (l1 ++ l2) = reports_of l1 ++ reports_of l2.
Proof. apply flat_map_app. Qed.

Lemma stat_paths_app (l1 l2 : list template_recursive.event) :
  stat_paths (l1 ++ l2) = stat_paths l1 ++ stat_paths l2.
Proof. apply flat_map_app. Qed.

Lemma template_ops_app (l1 l2 : list template_recursive.event) :
  template_ops (l1 ++ l2) = template_ops l1 ++ template_ops l2.
Proof. apply flat_map_app. Qed.

Lemma clean_events_app (l1 l2 : list template_recursive.event) :
  clean_events (l1 ++ l2) <-> clean_events l1 /\ clean_events l2.
Proof. unfold clean_events. rewrite reports_of_app. apply Forall_app. Qed.

Lemma dirs_handled_app (a : template_recursive.args)
      (l1 l2 : list template_recursive.event) :
  dirs_handled a l1 -> dirs_handled a l2 -> dirs_handled a (l1 ++ l2).
Proof.
  induction 1 as [| path s rest Hs H IH | path s out rest Hs H IH]; intros H2.
  - exact H2.
  - cbn [List.app]. apply handled_present; auto.
  - cbn [List.app]. apply handled_missing; auto.
Qed.

Lemma dirs_handled_no_template (a : template_recursive.args)
      (l : list template_recursive.event) :
  dirs_handled a l ->
  template_ops l = []
  /\ forall o out, In (template_recursive.op_event o out) l ->
                   exists path, In path (stat_paths l)
                                /\ o = template_recursive._create_directory a path.
Proof.
  induction 1 as [| path s rest Hs H [IH1 IH2] | path s out rest Hs H [IH1 IH2]].
  - split; [reflexivity | intros o out []].
  - split; [exact IH1|]. intros o out [E | Hin]; [discriminate|].
    destruct (IH2 o out Hin) as [p [Hp Ho]]. exists p. split; [now right | exact Ho].
  - split.
    + cbn [template_ops flat_map]. fold (template_ops rest). rewrite IH1.
      destruct (template_facts.create_directory_path a path) as [m [-> _]]. reflexivity.
    + intros o out' [E | [E | Hin]]; [discriminate | |].
      * injection E as <- _. exists path. split; [now left | reflexivity].
      * destruct (IH2 o out' Hin) as [p [Hp Ho]]. exists p. split; [now right | exact Ho].
Qed.

Lemma rendered_facts (a : template_recursive.args) (files : list (string * string)) :
  forall reports,
    List.length reports = List.length files ->
    stat_paths (rendered a files reports) = []
    /\ reports_of (rendered a files reports) = reports
    /\ template_ops (rendered a files reports)
       = map (fun sd => template_recursive._run_template_action a (fst sd) (snd sd)) files.
Proof.
  unfold rendered.
  induction files as [|sd files IH]; intros [|rep reports] Hlen; try discriminate.
  - repeat split.
  - injection Hlen as Hlen. destruct (IH reports Hlen) as (H1 & H2 & H3).
    cbn [combine map]. split; [exact H1|]. split.
    + cbn [reports_of flat_map snd List.app]. fold (reports_of
        (map (fun fr : (string * string) * task_output =>
                template_recursive.op_event
                  (template_recursive._run_template_action a (fst (fst fr)) (snd (fst fr)))
                  (snd fr)) (combine files reports))).
      now rewrite H2.
    + cbn [template_ops flat_map fst snd]. fold (template_ops
        (map (fun fr : (string * string) * task_output =>
                template_recursive.op_event
                  (template_recursive._run_template_action a (fst (fst fr)) (snd (fst fr)))
                  (snd fr)) (combine files reports))).
      rewrite H3. reflexivity.
Qed.

Lemma rendered_snoc (a : template_recursive.args) (files : list (string * string))
      (sd : string * string) :
  forall reports rep,
    List.length reports = List.length files ->
    rendered a (files ++ [sd]) (reports ++ [rep])
    = rendered a files reports
      ++ [template_recursive.op_event
            (template_recursive._run_template_action a (fst sd) (snd sd)) rep].
Proof.
  unfold rendered.
  induction files as [|f files IH]; intros [|r reports] rep Hlen; try discriminate.
  - reflexivity.
  - injection Hlen as Hlen. cbn [List.app combine map]. now rewrite (IH reports rep Hlen).
Qed.

(** *** The two loops *)

(** The loop over the destination directories handles a prefix of its
    list; it leaves through the [return] exactly when the last report says
    [failed], and no earlier report does. *)
Lemma create_missing_full {W : Type}
      (remote_stat : W -> string -> bool -> template_recursive.stats * W)
      (remote : W -> template_recursive.op -> task_output * W)
      (a : template_recursive.args) (dest_dirs : list string) :
  forall st st' left,
    template_recursive.create_missing remote_stat remote a dest_dirs st = (st', left) ->
    failed (template_recursive.result_ st) = false ->
    exists done rest new,
      dest_dirs = done ++ rest
      /\ template_recursive.events st' = template_recursive.events st ++ new
      /\ dirs_handled a new
      /\ stat_paths new = done
      /\ template_recursive.result_ st'
         = fold_left template_recursive.update_result_from_task (reports_of new)
                     (template_recursive.result_ st)
      /\ failed (template_recursive.result_ st') = left
      /\ (left = false -> rest = [] /\ clean_events new)
      /\ (left = true ->
          exists init o out,
            new = init ++ [template_recursive.op_event o out]
            /\ clean_events init /\ is_True (o_failed out) = true).
Proof.
  induction dest_dirs as [|d dirs IH]; intros st st' left H Hf;
    cbn [template_recursive.create_missing] in H.
  - injection H as <- <-. exists [], [], [].
    split; [reflexivity|]. split; [now rewrite List.app_nil_r|].
    split; [constructor|]. split; [reflexivity|]. split; [reflexivity|].
    split; [exact Hf|].
    split; [intros _; split; [reflexivity | constructor] | discriminate].
  - unfold template_recursive._does_remote_directory_exist in H.
    destruct (remote_stat (template_recursive.world st) d true) as [s w'] eqn:S.
    set (st1 := {| template_recursive.world := w';
                   template_recursive.result_ := template_recursive.result_ st;
                   template_recursive.events :=
                     template_recursive.events st
                     ++ [template_recursive.stat_event d true s] |}) in H.
    destruct (template_recursive.st_exists s && template_recursive.st_isdir s) eqn:P;
      cbn [negb] in H.
    + destruct (IH _ _ _ H Hf)
        as (done & rest & new & Hd & Hev & Hh & Hs & Hres & Hleft & Hfalse & Htrue).
      cbn [st1 template_recursive.events template_recursive.result_] in Hev, Hres.
      exists (d :: done), rest, (template_recursive.stat_event d true s :: new).
      split; [now rewrite Hd|].
      split; [rewrite Hev; now rewrite <- List.app_assoc|].
      split; [now apply handled_present|].
      split; [cbn [stat_paths flat_map List.app]; fold (stat_paths new); now rewrite Hs|].
      split; [exact Hres|]. split; [exact Hleft|]. split.
      * intros E. destruct (Hfalse E) as [-> Hc]. split; [reflexivity | exact Hc].
      * intros E. destruct (Htrue E) as (init & o & out & -> & Hc & Ho).
        exists (template_recursive.stat_event d true s :: init), o, out.
        split; [reflexivity|]. split; [exact Hc | exact Ho].
    + destruct (template_facts.template_perform_spec
                  remote (template_recursive._create_directory a d) st1)
        as [out [Hev2 Hres2]].
      cbn [st1 template_recursive.events template_recursive.result_] in Hev2, Hres2.
      destruct (failed (template_recursive.result_
                          (template_recursive.perform remote
                             (template_recursive._create_directory a d) st1))) eqn:F.
      * injection H as <- <-.
        pose proof F as F'. rewrite Hres2, template_facts.template_update_failed,
                              Hf, orb_false_r in F'.
        exists [d], dirs,
               [template_recursive.stat_event d true s;
                template_recursive.op_event (template_recursive._create_directory a d) out].
        split; [reflexivity|].
        split; [rewrite Hev2; now rewrite <- List.app_assoc|].
        split; [apply handled_missing; [exact P | constructor]|].
        split; [reflexivity|]. split; [exact Hres2|]. split; [exact F|].
        split; [discriminate|]. intros _.
        exists [template_recursive.stat_event d true s],
               (template_recursive._create_directory a d), out.
        split; [reflexivity|]. split; [constructor | exact F'].
      * pose proof F as F'. rewrite Hres2, template_facts.template_update_failed,
                              Hf, orb_false_r in F'.
        destruct (IH _ _ _ H F)
          as (done & rest & new & Hd & Hev & Hh & Hs & Hres & Hleft & Hfalse & Htrue).
        exists (d :: done), rest,
               (template_recursive.stat_event d true s
                :: template_recursive.op_event
                     (template_recursive._create_directory a d) out :: new).
        split; [now rewrite Hd|].
        split; [rewrite Hev, Hev2; now rewrite <- !List.app_assoc|].
        split; [now apply handled_missing|].
        split; [cbn [stat_paths flat_map List.app]; fold (stat_paths new); now rewrite Hs|].
        split; [cbn [reports_of flat_map List.app fold_left]; fold (reports_of new);
                now rewrite Hres, Hres2|].
        split; [exact Hleft|]. split.
        -- intros E. destruct (Hfalse E) as [-> Hc]. split; [reflexivity|].
           constructor; assumption.
        -- intros E. destruct (Htrue E) as (init & o & out' & -> & Hc & Ho).
           exists (template_recursive.stat_event d true s
                   :: template_recursive.op_event
                        (template_recursive._create_directory a d) out :: init), o, out'.
           split; [reflexivity|]. split; [constructor; assumption | exact Ho].
Qed.

(** The loop over the template files renders a prefix of its list. *)
Lemma render_each_full {W : Type}
      (remote : W -> template_recursive.op -> task_output * W)
      (a : template_recursive.args) (files : list (string * string)) :
  forall st st' left,
    template_recursive.render_each remote a files st = (st', left) ->
    failed (template_recursive.result_ st) = false ->
    exists done rest reports,
      files = done ++ rest
      /\ List.length reports = List.length done
      /\ template_recursive.events st'
         = template_recursive.events st ++ rendered a done reports
      /\ template_recursive.result_ st'
         = fold_left template_recursive.update_result_from_task reports
                     (template_recursive.result_ st)
      /\ failed (template_recursive.result_ st') = left
      /\ (left = false ->
          rest = [] /\ Forall (fun out => is_True (o_failed out) = false) reports)
      /\ (left = true ->
          exists init_files sd init out,
            done = init_files ++ [sd] /\ reports = init ++ [out]
            /\ List.length init = List.length init_files
            /\ Forall (fun out => is_True (o_failed out) = false) init
            /\ is_True (o_failed out) = true).
Proof.
  induction files as [|[src dest] files IH]; intros st st' left H Hf;
    cbn [template_recursive.render_each] in H.
  - injection H as <- <-. exists [], [], [].
    split; [reflexivity|]. split; [reflexivity|].
    split; [now rewrite List.app_nil_r|]. split; [reflexivity|]. split; [exact Hf|].
    split; [intros _; split; [reflexivity | constructor] | discriminate].
  - cbv zeta in H.
    destruct (template_facts.template_perform_spec
                remote (template_recursive._run_template_action a src dest) st)
      as [out [Hev1 Hres1]].
    destruct (failed (template_recursive.result_
                        (template_recursive.perform remote
                           (template_recursive._run_template_action a src dest) st))) eqn:F.
    + injection H as <- <-.
      pose proof F as F'. rewrite Hres1, template_facts.template_update_failed,
                            Hf, orb_false_r in F'.
      exists [(src, dest)], files, [out].
      split; [reflexivity|]. split; [reflexivity|]. split; [exact Hev1|].
      split; [exact Hres1|]. split; [exact F|]. split; [discriminate|].
      intros _. exists [], (src, dest), [], out.
      split; [reflexivity|]. split; [reflexivity|]. split; [reflexivity|].
      split; [constructor | exact F'].
    + pose proof F as F'. rewrite Hres1, template_facts.template_update_failed,
                            Hf, orb_false_r in F'.
      destruct (IH _ _ _ H F)
        as (done & rest & reports & Hd & Hlen & Hev & Hres & Hleft & Hfalse & Htrue).
      exists ((src, dest) :: done), rest, (out :: reports).
      split; [now rewrite Hd|]. split; [cbn; now rewrite Hlen|].
      split; [rewrite Hev, Hev1; now rewrite <- List.app_assoc|].
      split; [cbn [fold_left]; now rewrite Hres, Hres1|].
      split; [exact Hleft|]. split.
      * intros E. destruct (Hfalse E) as [-> Hc]. split; [reflexivity|].
        constructor; assumption.
      * intros E. destruct (Htrue E) as (fi & sd & init & out' & -> & -> & Hl & Hc & Ho).
        exists ((src, dest) :: fi), sd, (out :: init), out'.
        split; [reflexivity|]. split; [reflexivity|]. split; [cbn; now rewrite Hl|].
        split; [constructor; assumption | exact Ho].
Qed.

End template_more.

Module template_run_facts.
Import py spec more pystr_facts template_more.
#[local] Open Scope list_scope.

(** [run] of the template variant in full: either one of its two checks
    fails and nothing happens, or the loop over the destination
    directories runs, and after it, when it went through, the loop over
    the template files. *)
Lemma template_run_phases {W : Type}
      (remote_stat : W -> string -> bool -> template_recursive.stats * W)
      (remote : W -> template_recursive.op -> task_output * W)
      (list_of_set : list string -> list string) (local : localfs.fs)
      (a : template_recursive.args) (w : W) :
  let out := template_recursive.run remote_stat remote list_of_set local a w in
  (template_recursive.happened out = []
   /\ template_recursive.target out = w
   /\ failed (template_recursive.returned out) = true
   /\ (dict_get a "templates_root" = None
       \/ exists root, dict_get a "templates_root" = Some root /\ local root = None))
  \/ exists root tree phase1 ds fs reports,
      dict_get a "templates_root" = Some root
      /\ local root = Some tree
      /\ (exists rest,
             list_of_set (map (fun x => posixpath.dirname (snd x))
                              (template_recursive.template_files root tree))
             = ds ++ rest)
      /\ (exists rest, template_recursive.template_files root tree = fs ++ rest)
      /\ List.length reports = List.length fs
      /\ template_recursive.happened out
         = phase1 ++ rendered (with_default_mode a) fs reports
      /\ dirs_handled (with_default_mode a) phase1
      /\ stat_paths phase1 = ds
      /\ template_recursive.returned out
         = template_result (template_recursive.happened out)
      /\ (failed (template_recursive.returned out) = false ->
          ds = list_of_set (map (fun x => posixpath.dirname (snd x))
                                (template_recursive.template_files root tree))
          /\ fs = template_recursive.template_files root tree
          /\ clean_events (template_recursive.happened out))
      /\ (failed (template_recursive.returned out) = true ->
          exists init o out',
            template_recursive.happened out
            = init ++ [template_recursive.op_event o out']
            /\ clean_events init /\ is_True (o_failed out') = true).
Proof.
  cbv zeta. unfold template_recursive.run. cbv zeta.
  destruct (dict_get a "templates_root") as [root|] eqn:R;
    [|left; repeat split; now left].
  destruct (local root) as [tree|] eqn:L;
    [|left; repeat split; right; now exists root].
  unfold with_default_mode.
  set (a' := if negb (dict_has a "mode") then dict_set a "mode" "0644" else a).
  set (files := template_recursive.template_files root tree).
  set (st0 := {| template_recursive.world := w;
                 template_recursive.result_ := initial_result;
                 template_recursive.events := [] |}).
  destruct (template_recursive.create_missing
              remote_stat remote a'
              (list_of_set (map (fun x => posixpath.dirname (snd x)) files)) st0)
    as [st1 left1] eqn:E1.
  destruct (create_missing_full _ _ _ _ _ _ _ E1 eq_refl)
    as (done1 & rest1 & new1 & Hd1 & Hev1 & Hh1 & Hs1 & Hres1 & Hleft1 & Hfalse1 & Htrue1).
  cbn [st0 template_recursive.events template_recursive.result_ List.app] in Hev1, Hres1.
  right. exists root, tree, new1, done1.
  destruct left1.
  - exists [], []. cbn [template_recursive.finish template_recursive.happened
                       template_recursive.returned].
    split; [reflexivity|]. split; [exact L|].
    split; [now exists rest1|]. split; [now exists files|]. split; [reflexivity|].
    unfold rendered. cbn [combine map]. rewrite List.app_nil_r.
    split; [exact Hev1|]. split; [exact Hh1|]. split; [exact Hs1|].
    split; [rewrite Hres1, Hev1; reflexivity|].
    split; [intros F; congruence|].
    intros _. rewrite Hev1. now apply Htrue1.
  - destruct (Hfalse1 eq_refl) as [-> Hc1]. rewrite List.app_nil_r in Hd1.
    destruct (template_recursive.render_each remote a' files st1)
      as [st2 left2] eqn:E2.
    destruct (render_each_full _ _ _ _ _ _ E2 Hleft1)
      as (done2 & rest2 & reports & Hd2 & Hlen & Hev2 & Hres2 & Hleft2 & Hfalse2 & Htrue2).
    exists done2, reports.
    cbn [template_recursive.finish template_recursive.happened template_recursive.returned].
    destruct (rendered_facts a' done2 reports Hlen) as (_ & Hrep & _).
    split; [reflexivity|]. split; [exact L|].
    split; [exists []; now rewrite List.app_nil_r|].
    split; [now exists rest2|]. split; [exact Hlen|].
    split; [now rewrite Hev2, Hev1|]. split; [exact Hh1|]. split; [exact Hs1|].
    split.
    { rewrite Hres2, Hres1, Hev2, Hev1. unfold template_result.
      now rewrite reports_of_app, Hrep, fold_left_app. }
    split.
    + intros F. rewrite Hleft2 in F. destruct (Hfalse2 F) as [Hr Hc2].
      split; [now symmetry|]. split; [fold files; rewrite Hd2, Hr; now rewrite List.app_nil_r|].
      rewrite Hev2, Hev1. apply clean_events_app. split; [exact Hc1|].
      unfold clean_events. now rewrite Hrep.
    + intros F. rewrite Hleft2 in F.
      destruct (Htrue2 F) as (fi & sd & init & out' & -> & -> & Hl & Hc & Ho).
      exists (new1 ++ rendered a' fi init),
             (template_recursive._run_template_action a' (fst sd) (snd sd)),
             out'.
      split.
      * rewrite Hev2, Hev1, (rendered_snoc _ _ _ _ _ Hl). now rewrite List.app_assoc.
      * split; [|exact Ho]. apply clean_events_app. split; [exact Hc1|].
        destruct (rendered_facts a' fi init Hl) as (_ & Hrep' & _).
        unfold clean_events. now rewrite Hrep'.
Qed.

(** Where an event sits when the trace ends with a given event. *)
Lemma cut_before_last {A : Type} (pre post init : list A) (x y : A) :
  pre ++ x :: post = init ++ [y] -> post = [] \/ In x init.
Proof.
  revert init. induction pre as [|p pre IH]; intros init E.
  - destruct init as [|i init]; cbn in E.
    + injection E as _ E. now left.
    + injection E as <- E. right. now left.
  - destruct init as [|i init]; cbn in E.
    + injection E as _ E. destruct pre; discriminate.
    + injection E as _ E. destruct (IH init E) as [H | H]; [now left | right; now right].
Qed.

Lemma report_in_trace (evs : list template_recursive.event)
      (o : template_recursive.op) (out : task_output) :
  In (template_recursive.op_event o out) evs -> In out (reports_of evs).
Proof.
  intros H. unfold reports_of. apply in_flat_map.
  exists (template_recursive.op_event o out). split; [exact H | now left].
Qed.

(** The accumulated result of the template variant in closed form. *)
Lemma template_accumulate_closed (outs : list task_output) :
  forall r,
    let res := fold_left template_recursive.update_result_from_task outs r in
    changed res = existsb (fun o => is_True (o_changed o)) outs || changed r
    /\ failed res = existsb (fun o => is_True (o_failed o)) outs || failed r
    /\ msg res = (msg r ++ fold_right String.append "" (map msg_line outs))%string
    /\ diff res = diff r ++ flat_map diff_entries outs.
Proof.
  induction outs as [|o outs IH]; intros r; cbv zeta;
    cbn [fold_left existsb map fold_right flat_map].
  - rewrite pystr_facts.app_nil_r, List.app_nil_r. repeat split.
  - destruct (IH (template_recursive.update_result_from_task r o)) as [Hc [Hf [Hm Hd]]].
    rewrite Hc, Hf, Hm, Hd.
    cbn [template_recursive.update_result_from_task changed failed msg diff].
    repeat split.
    + destruct (is_True (o_changed o));
        [now rewrite Bool.orb_true_r | reflexivity].
    + destruct (is_True (o_failed o));
        [now rewrite Bool.orb_true_r | reflexivity].
    + unfold msg_line. destruct (o_msg o) as [m|].
      * now rewrite !pystr_facts.app_assoc.
      * reflexivity.
    + unfold diff_entries.
      destruct (o_diff o) as [[d | l]|]; now rewrite <- ?List.app_assoc.
Qed.

End template_run_facts.

Module template_args_facts.
Import py spec more pystr_facts template_more.
#[local] Open Scope list_scope.

(** The arguments that [_create_directory] gives the [file] module. *)
Lemma create_directory_args (a : template_recursive.args) (path : string) :
  exists m,
    template_recursive._create_directory a path = template_recursive.file_module m
    /\ dict_get m "path" = Some path
    /\ dict_get m "state" = Some "directory"
    /\ dict_get m "mode"
       = Some (match dict_get a "new_dir_mode" with Some v => v | None => "0755" end)
    /\ dict_get m "owner" = dict_get a "owner"
    /\ dict_get m "group" = dict_get a "group"
    /\ forall k, ~ In k ["path"; "state"; "mode"; "owner"; "group"] -> dict_get m k = None.
Proof.
  unfold template_recursive._create_directory. cbv zeta.
  eexists. split; [reflexivity|].
  destruct (dict_get a "owner") as [o|], (dict_get a "group") as [g|];
    rewrite ?dict_get_set; cbn [String.eqb Ascii.eqb Bool.eqb dict_get];
    repeat (split; [reflexivity|]); intros k Hk; rewrite ?dict_get_set;
    cbn [dict_get];
    destruct (String.eqb "group" k) eqn:E1;
    try (apply String.eqb_eq in E1; subst k; exfalso; apply Hk; cbn; tauto);
    destruct (String.eqb "owner" k) eqn:E2;
    try (apply String.eqb_eq in E2; subst k; exfalso; apply Hk; cbn; tauto);
    destruct (String.eqb "mode" k) eqn:E3;
    try (apply String.eqb_eq in E3; subst k; exfalso; apply Hk; cbn; tauto);
    destruct (String.eqb "path" k) eqn:E4;
    try (apply String.eqb_eq in E4; subst k; exfalso; apply Hk; cbn; tauto);
    destruct (String.eqb "state" k) eqn:E5;
    try (apply String.eqb_eq in E5; subst k; exfalso; apply Hk; cbn; tauto);
    reflexivity.
Qed.

(** The default file mode leaves the other arguments as they are. *)
Lemma with_default_mode_get (a : template_recursive.args) (k : string) :
  dict_get (with_default_mode a) k
  = if String.eqb "mode" k
    then Some (match dict_get a "mode" with Some m => m | None => "0644" end)
    else dict_get a k.
Proof.
  unfold with_default_mode, dict_has.
  destruct (dict_get a "mode") as [m|] eqn:M; cbn [negb].
  - destruct (String.eqb "mode" k) eqn:E; [|reflexivity].
    apply String.eqb_eq in E. now subst k.
  - apply dict_get_set.
Qed.

(** The arguments that [_run_template_action] gives the template action. *)
Lemma run_template_action_args (a : template_recursive.args) (src dest : string) :
  exists task_args,
    template_recursive._run_template_action a src dest
    = template_recursive.template_action task_args
    /\ dict_get task_args "src" = Some src
    /\ dict_get task_args "dest" = Some dest
    /\ dict_get task_args "templates_root" = None
    /\ dict_get task_args "new_dir_mode" = None
    /\ forall k, ~ In k ["src"; "dest"; "templates_root"; "new_dir_mode"] ->
                 dict_get task_args k = dict_get a k.
Proof.
  unfold template_recursive._run_template_action. cbv zeta.
  eexists. split; [reflexivity|].
  rewrite !dict_get_del, !dict_get_set. cbn [String.eqb Ascii.eqb Bool.eqb].
  repeat (split; [reflexivity|]).
  intros k Hk. rewrite !dict_get_del, !dict_get_set.
  destruct (String.eqb "new_dir_mode" k) eqn:E1;
    [apply String.eqb_eq in E1; subst k; exfalso; apply Hk; cbn; tauto|].
  destruct (String.eqb "templates_root" k) eqn:E2;
    [apply String.eqb_eq in E2; subst k; exfalso; apply Hk; cbn; tauto|].
  destruct (String.eqb "dest" k) eqn:E3;
    [apply String.eqb_eq in E3; subst k; exfalso; apply Hk; cbn; tauto|].
  destruct (String.eqb "src" k) eqn:E4;
    [apply String.eqb_eq in E4; subst k; exfalso; apply Hk; cbn; tauto|].
  reflexivity.
Qed.

(** In the trace of the first loop, followed by events that are no stats:
    every stat follows links, and one that did not report a directory is
    followed at once by the making of the directory. *)
Lemma dirs_handled_cut (a : template_recursive.args)
      (l : list template_recursive.event) :
  dirs_handled a l ->
  forall tail pre path follow s post,
    stat_paths tail = [] ->
    l ++ tail = pre ++ template_recursive.stat_event path follow s :: post ->
    follow = true
    /\ (template_recursive.st_exists s && template_recursive.st_isdir s = false ->
        exists out post',
          post = template_recursive.op_event
                   (template_recursive._create_directory a path) out :: post').
Proof.
  induction 1 as [| p s0 rest Hs H IH | p s0 out rest Hs H IH];
    intros tail pre path follow s post Ht E.
  - cbn [List.app] in E. rewrite E, stat_paths_app in Ht.
    apply app_eq_nil in Ht. destruct Ht as [_ Ht]. discriminate.
  - destruct pre as [|e pre]; cbn [List.app] in E.
    + injection E as <- <- <-. split; [reflexivity|]. congruence.
    + injection E as _ E. now apply (IH tail pre path follow s post).
  - destruct pre as [|e [|e' pre]]; cbn [List.app] in E.
    + injection E as <- <- <- <-. split; [reflexivity|]. intros _.
      now exists out, (rest ++ tail).
    + injection E as _ E. discriminate.
    + injection E as _ _ E. now apply (IH tail pre path follow s post).
Qed.

End template_args_facts.

Import template_more template_run_facts template_args_facts.

(** X12.  The template variant stops at the first failure: when an
    operation of [run] reports [failed], nothing happens after it, neither
    a stat nor another operation, and the result that [run] returns is
    failed. *)
Theorem template_run_stops_at_first_failure
        {W : Type} (remote_stat : W -> string -> bool -> template_recursive.stats * W)
        (remote : W -> template_recursive.op -> task_output * W)
        (list_of_set : list string -> list string) (local : localfs.fs)
        (a : template_recursive.args) (w : W)
        (pre post : list template_recursive.event) (o : template_recursive.op)
        (report : task_output) :
  let out := template_recursive.run remote_stat remote list_of_set local a w in
  template_recursive.happened out
  = (pre ++ template_recursive.op_event o report :: post)%list ->
  is_True (o_failed report) = true ->
  post = [] /\ failed (template_recursive.returned out) = true.
Proof.
  cbv zeta. intros Hcut Hfailed.
  assert (In (template_recursive.op_event o report)
             (template_recursive.happened
                (template_recursive.run remote_stat remote list_of_set local a w)))
    as Hin by (rewrite Hcut; apply in_or_app; right; now left).
  destruct (template_run_phases remote_stat remote list_of_set local a w)
    as [(Hnone & _)
       | (root & tree & phase1 & ds & fs & reports & _ & _ & _ & _ & _ & _ & _ & _ & _
          & Hok & Hbad)].
  { rewrite Hnone in Hin. destruct Hin. }
  destruct (failed (template_recursive.returned
                      (template_recursive.run remote_stat remote list_of_set local a w)))
    eqn:F.
  - split; [|reflexivity].
    destruct (Hbad eq_refl) as (init & o' & out' & E & Hc & _).
    rewrite Hcut in E. destruct (cut_before_last _ _ _ _ _ E) as [H | H]; [exact H|].
    exfalso. apply report_in_trace in H. unfold clean_events in Hc.
    rewrite Forall_forall in Hc. specialize (Hc _ H). congruence.
  - exfalso. destruct (Hok eq_refl) as (_ & _ & Hc).
    apply report_in_trace in Hin. unfold clean_events in Hc.
    rewrite Forall_forall in Hc. specialize (Hc _ Hin). congruence.
Qed.

Lemma template_run_stops_at_first_failure_witness :
  let a := [("templates_root", "/templates")] in
  let out := template_recursive.run sample.stat_root_only template_remote_failing
                                    sample.first_occurrences sample.template_local a tt in
  let o := template_recursive._run_template_action
             (with_default_mode a) "/templates/motd" "/motd" in
  template_recursive.happened out
  = (firstn 3 (template_recursive.happened out)
     ++ template_recursive.op_event o (sample.report false true) :: [])%list
  /\ is_True (o_failed (sample.report false true)) = true
  /\ ([] = @nil template_recursive.event
      /\ failed (template_recursive.returned out) = true).
Proof.
  cbv zeta. split; [vm_compute; reflexivity|]. split; [reflexivity|].
  apply (template_run_stops_at_first_failure
           sample.stat_root_only template_remote_failing
           sample.first_occurrences sample.template_local
           [("templates_root", "/templates")] tt
           (firstn 3 (template_recursive.happened
                        (template_recursive.run
                           sample.stat_root_only template_remote_failing
                           sample.first_occurrences sample.template_local
                           [("templates_root", "/templates")] tt)))
           []
           (template_recursive._run_template_action
              (with_default_mode [("templates_root", "/templates")])
              "/templates/motd" "/motd")
           (sample.report false true));
    vm_compute; reflexivity.
Defined.

(** X13.  When the template variant returns a result that is not failed,
    it has looked at every destination directory, in the order in which
    the set of them is listed, and has run the template action for every
    file of the walk, in the order of the walk, with the file mode
    defaulted to [0644]; no report said [failed]. *)
Theorem template_success_means_everything_rendered
        {W : Type} (remote_stat : W -> string -> bool -> template_recursive.stats * W)
        (remote : W -> template_recursive.op -> task_output * W)
        (list_of_set : list string -> list string) (local : localfs.fs)
        (a : template_recursive.args) (w : W) :
  let out := template_recursive.run remote_stat remote list_of_set local a w in
  failed (template_recursive.returned out) = false ->
  exists root tree,
    dict_get a "templates_root" = Some root
    /\ local root = Some tree
    /\ stat_paths (template_recursive.happened out)
       = list_of_set (map (fun x => posixpath.dirname (snd x))
                          (template_recursive.template_files root tree))
    /\ template_ops (template_recursive.happened out)
       = map (fun sd => template_recursive._run_template_action
                          (with_default_mode a) (fst sd) (snd sd))
             (template_recursive.template_files root tree)
    /\ clean_events (template_recursive.happened out).
Proof.
  cbv zeta. intros F.
  destruct (template_run_phases remote_stat remote list_of_set local a w)
    as [(_ & _ & Hfailed & _)
       | (root & tree & phase1 & ds & fs & reports & R & L & _ & _ & Hlen & Hev & Hh & Hs
          & _ & Hok & _)];
    [congruence|].
  destruct (Hok F) as (Hds & Hfs & Hc).
  exists root, tree. split; [exact R|]. split; [exact L|].
  destruct (rendered_facts (with_default_mode a) fs reports Hlen) as (H1 & _ & H3).
  destruct (dirs_handled_no_template _ _ Hh) as [H4 _].
  rewrite Hev, stat_paths_app, template_ops_app, H1, H3, H4, Hs, List.app_nil_r.
  cbn [List.app]. rewrite <- Hds, <- Hfs. rewrite <- Hev. auto.
Qed.

Lemma template_success_means_everything_rendered_witness :
  let a := [("templates_root", "/templates")] in
  let out := template_recursive.run sample.stat_root_only sample.template_remote_ok
                                    sample.first_occurrences sample.template_local a tt in
  failed (template_recursive.returned out) = false
  /\ exists root tree,
    dict_get a "templates_root" = Some root
    /\ sample.template_local root = Some tree
    /\ stat_paths (template_recursive.happened out)
       = sample.first_occurrences
           (map (fun x => posixpath.dirname (snd x))
                (template_recursive.template_files root tree))
    /\ template_ops (template_recursive.happened out)
       = map (fun sd => template_recursive._run_template_action
                          (with_default_mode a) (fst sd) (snd sd))
             (template_recursive.template_files root tree)
    /\ clean_events (template_recursive.happened out).
Proof.
  cbv zeta. split; [vm_compute; reflexivity|].
  apply (template_success_means_everything_rendered
           sample.stat_root_only sample.template_remote_ok
           sample.first_occurrences sample.template_local
           [("templates_root", "/templates")] tt).
  vm_compute. reflexivity.
Defined.

(** X14.  Every stat of the template variant follows links, and a
    directory that the stat does not report as an existing directory is
    made by the very next operation: the [file] module with [path] the
    directory, [state] [directory], [mode] the argument [new_dir_mode] or
    [0755] when that is missing, [owner] and [group] as far as the
    arguments give them, and no other argument. *)
Theorem missing_directory_is_made_after_its_stat
        {W : Type} (remote_stat : W -> string -> bool -> template_recursive.stats * W)
        (remote : W -> template_recursive.op -> task_output * W)
        (list_of_set : list string -> list string) (local : localfs.fs)
        (a : template_recursive.args) (w : W)
        (pre post : list template_recursive.event) (path : string) (follow : bool)
        (s : template_recursive.stats) :
  template_recursive.happened
    (template_recursive.run remote_stat remote list_of_set local a w)
  = (pre ++ template_recursive.stat_event path follow s :: post)%list ->
  follow = true
  /\ (template_recursive.st_exists s && template_recursive.st_isdir s = false ->
      exists m report post',
        post = template_recursive.op_event (template_recursive.file_module m) report
               :: post'
        /\ dict_get m "path" = Some path
        /\ dict_get m "state" = Some "directory"
        /\ dict_get m "mode"
           = Some (match dict_get a "new_dir_mode" with Some v => v | None => "0755" end)
        /\ dict_get m "owner" = dict_get a "owner"
        /\ dict_get m "group" = dict_get a "group"
        /\ forall k, ~ In k ["path"; "state"; "mode"; "owner"; "group"] ->
                     dict_get m k = None).
Proof.
  intros Hcut.
  destruct (template_run_phases remote_stat remote list_of_set local a w)
    as [(Hnone & _)
       | (root & tree & phase1 & ds & fs & reports & _ & _ & _ & _ & Hlen & Hev & Hh & _)].
  { rewrite Hnone in Hcut. destruct pre; discriminate. }
  rewrite Hev in Hcut.
  destruct (rendered_facts (with_default_mode a) fs reports Hlen) as (H1 & _).
  destruct (dirs_handled_cut _ _ Hh _ _ _ _ _ _ H1 Hcut) as [Hfollow Hmissing].
  split; [exact Hfollow|]. intros Hs.
  destruct (Hmissing Hs) as (out & post' & ->).
  destruct (create_directory_args (with_default_mode a) path)
    as (m & -> & Hp & Hst & Hm & Ho & Hg & Hk).
  exists m, out, post'. rewrite !with_default_mode_get in Hm, Ho, Hg.
  cbn [String.eqb Ascii.eqb Bool.eqb] in Hm, Ho, Hg.
  repeat (split; [reflexivity || assumption|]). exact Hk.
Qed.

Lemma missing_directory_is_made_after_its_stat_witness :
  let a := [("templates_root", "/templates"); ("owner", "root")] in
  let out := template_recursive.run sample.stat_root_only sample.template_remote_ok
                                    sample.first_occurrences sample.template_local a tt in
  let s := {| template_recursive.st_exists := false;
              template_recursive.st_isdir := false |} in
  template_recursive.happened out
  = (firstn 1 (template_recursive.happened out)
     ++ template_recursive.stat_event "/etc" true s
     :: skipn 2 (template_recursive.happened out))%list
  /\ (template_recursive.st_exists s && template_recursive.st_isdir s = false ->
      exists m report post',
        skipn 2 (template_recursive.happened out)
        = template_recursive.op_event (template_recursive.file_module m) report :: post'
        /\ dict_get m "path" = Some "/etc"
        /\ dict_get m "state" = Some "directory"
        /\ dict_get m "mode" = Some "0755"
        /\ dict_get m "owner" = Some "root"
        /\ dict_get m "group" = None
        /\ forall k, ~ In k ["path"; "state"; "mode"; "owner"; "group"] ->
                     dict_get m k = None).
Proof.
  cbv zeta. split; [vm_compute; reflexivity|].
  apply (missing_directory_is_made_after_its_stat
           sample.stat_root_only sample.template_remote_ok
           sample.first_occurrences sample.template_local
           [("templates_root", "/templates"); ("owner", "root")] tt
           (firstn 1 (template_recursive.happened
                        (template_recursive.run
                           sample.stat_root_only sample.template_remote_ok
                           sample.first_occurrences sample.template_local
                           [("templates_root", "/templates"); ("owner", "root")] tt)))
           (skipn 2 (template_recursive.happened
                       (template_recursive.run
                          sample.stat_root_only sample.template_remote_ok
                          sample.first_occurrences sample.template_local
                          [("templates_root", "/templates"); ("owner", "root")] tt)))
           "/etc" true
           {| template_recursive.st_exists := false;
              template_recursive.st_isdir := false |}).
  vm_compute. reflexivity.
Defined.

(** X15.  Every template action of the template variant is for a file of
    the walk and is given the task's own arguments: [src] and [dest] are
    set to the file and its destination, [templates_root] and
    [new_dir_mode] are taken out, [mode] is the one given or [0644], and
    every other argument is handed on as it is. *)
Theorem template_action_gets_the_task_arguments
        {W : Type} (remote_stat : W -> string -> bool -> template_recursive.stats * W)
        (remote : W -> template_recursive.op -> task_output * W)
        (list_of_set : list string -> list string) (local : localfs.fs)
        (a : template_recursive.args) (w : W)
        (task_args : dict string) (report : task_output) :
  In (template_recursive.op_event (template_recursive.template_action task_args) report)
     (template_recursive.happened
        (template_recursive.run remote_stat remote list_of_set local a w)) ->
  exists root tree src dest,
    dict_get a "templates_root" = Some root
    /\ local root = Some tree
    /\ In (src, dest) (template_recursive.template_files root tree)
    /\ dict_get task_args "src" = Some src
    /\ dict_get task_args "dest" = Some dest
    /\ dict_get task_args "templates_root" = None
    /\ dict_get task_args "new_dir_mode" = None
    /\ dict_get task_args "mode"
       = Some (match dict_get a "mode" with Some m => m | None => "0644" end)
    /\ forall k, ~ In k ["src"; "dest"; "templates_root"; "new_dir_mode"; "mode"] ->
                 dict_get task_args k = dict_get a k.
Proof.
  intros Hin.
  destruct (template_run_phases remote_stat remote list_of_set local a w)
    as [(Hnone & _)
       | (root & tree & phase1 & ds & fs & reports & R & L & _ & [rest Hfs] & Hlen & Hev
          & Hh & _)].
  { rewrite Hnone in Hin. destruct Hin. }
  rewrite Hev in Hin. apply in_app_or in Hin. destruct Hin as [Hin | Hin].
  { exfalso. destruct (dirs_handled_no_template _ _ Hh) as [_ H].
    destruct (H _ _ Hin) as [path [_ E]].
    destruct (create_directory_args (with_default_mode a) path) as (m & Em & _).
    congruence. }
  unfold rendered in Hin. apply in_map_iff in Hin.
  destruct Hin as [[[src dest] rep] [E Hc]]. cbn [fst snd] in E.
  apply in_combine_l in Hc.
  destruct (run_template_action_args (with_default_mode a) src dest)
    as (targs & Et & Hsrc & Hdest & Hroot & Hnew & Hk).
  rewrite Et in E. injection E as -> _.
  exists root, tree, src, dest. split; [exact R|]. split; [exact L|].
  split; [rewrite Hfs; apply in_or_app; now left|].
  repeat (split; [assumption|]). split.
  - rewrite Hk, with_default_mode_get; [reflexivity|].
    cbn. intros [H | [H | [H | [H | []]]]]; discriminate.
  - intros k Hnot. rewrite Hk, with_default_mode_get.
    + destruct (String.eqb "mode" k) eqn:E; [|reflexivity].
      apply String.eqb_eq in E. subst k. exfalso. apply Hnot. cbn. tauto.
    + intros H. apply Hnot. cbn in *. tauto.
Qed.

Lemma template_action_gets_the_task_arguments_witness :
  let a := [("templates_root", "/templates"); ("new_dir_mode", "0750");
            ("owner", "root")] in
  let out := template_recursive.run sample.stat_root_only sample.template_remote_ok
                                    sample.first_occurrences sample.template_local a tt in
  let task_args := [("owner", "root"); ("mode", "0644");
                    ("src", "/templates/etc/config.yml.j2");
                    ("dest", "/etc/config.yml")] in
  In (template_recursive.op_event (template_recursive.template_action task_args)
                                  (sample.report true false))
     (template_recursive.happened out)
  /\ exists root tree src dest,
    dict_get a "templates_root" = Some root
    /\ sample.template_local root = Some tree
    /\ In (src, dest) (template_recursive.template_files root tree)
    /\ dict_get task_args "src" = Some src
    /\ dict_get task_args "dest" = Some dest
    /\ dict_get task_args "templates_root" = None
    /\ dict_get task_args "new_dir_mode" = None
    /\ dict_get task_args "mode"
       = Some (match dict_get a "mode" with Some m => m | None => "0644" end)
    /\ forall k, ~ In k ["src"; "dest"; "templates_root"; "new_dir_mode"; "mode"] ->
                 dict_get task_args k = dict_get a k.
Proof.
  cbv zeta. split; [vm_compute; tauto|].
  apply (template_action_gets_the_task_arguments
           sample.stat_root_only sample.template_remote_ok
           sample.first_occurrences sample.template_local
           [("templates_root", "/templates"); ("new_dir_mode", "0750"); ("owner", "root")]
           tt _ (sample.report true false)).
  vm_compute. tauto.
Defined.

(** X16.  [strip_end] takes one trailing occurrence of the suffix off a
    text that ends with it, so that the result followed by the suffix is
    the text again, and a second occurrence before it stays; with an empty
    suffix, or a text that does not end with the suffix, it returns the
    text as it is. *)
Theorem strip_end_takes_one_suffix_off (text suffix : string) :
  ((exists stem, text = (stem ++ suffix)%string) ->
   text = (template_recursive.strip_end text suffix ++ suffix)%string)
  /\ (suffix = "" \/ ~ (exists stem, text = (stem ++ suffix)%string) ->
      template_recursive.strip_end text suffix = text)
  /\ (forall stem, template_recursive.strip_end ((stem ++ suffix) ++ suffix) suffix
                   = (stem ++ suffix)%string).
Proof.
  split; [|split].
  - intros [stem ->]. now rewrite suffix_facts.strip_end_suffix.
  - intros [-> | H].
    + unfold template_recursive.strip_end. reflexivity.
    + apply suffix_facts.strip_end_other.
      destruct (pystr.endswith text suffix) eqn:E; [|reflexivity].
      exfalso. apply H. now apply suffix_facts.endswith_iff.
  - intros stem. apply suffix_facts.strip_end_suffix.
Qed.

Example strip_end_twice :
  template_recursive.strip_end "a.j2.j2" ".j2" = "a.j2"
  /\ template_recursive.strip_end "a.j2" "" = "a.j2"
  /\ template_recursive.strip_end "a.j2x" ".j2" = "a.j2x"
  /\ template_recursive.strip_end ".j2" ".j2" = "".
Proof. repeat split. Qed.

(** X17.  When the template variant has issued operations, its result
    sums up their reports: [changed] and [failed] are true when some
    report says so, [msg] is the messages of the reports in order, each
    after a newline, and [diff] holds every diff entry of every report, in
    order, whether the report says [changed] or not. *)
Theorem template_result_sums_up_the_reports
        {W : Type} (remote_stat : W -> string -> bool -> template_recursive.stats * W)
        (remote : W -> template_recursive.op -> task_output * W)
        (list_of_set : list string -> list string) (local : localfs.fs)
        (a : template_recursive.args) (w : W) :
  let out := template_recursive.run remote_stat remote list_of_set local a w in
  let reports := reports_of (template_recursive.happened out) in
  template_recursive.happened out <> [] ->
  changed (template_recursive.returned out)
  = existsb (fun o => is_True (o_changed o)) reports
  /\ failed (template_recursive.returned out)
     = existsb (fun o => is_True (o_failed o)) reports
  /\ msg (template_recursive.returned out)
     = fold_right String.append "" (map msg_line reports)
  /\ diff (template_recursive.returned out) = flat_map diff_entries reports.
Proof.
  cbv zeta. intros Hne.
  destruct (template_run_phases remote_stat remote list_of_set local a w)
    as [(Hnone & _)
       | (root & tree & phase1 & ds & fs & reports & _ & _ & _ & _ & _ & _ & _ & _ & Hret
          & _)];
    [contradiction|].
  rewrite Hret. unfold template_result.
  destruct (template_accumulate_closed
              (reports_of (template_recursive.happened
                             (template_recursive.run remote_stat remote list_of_set
                                                     local a w)))
              initial_result) as (Hc & Hf & Hm & Hd).
  cbn [initial_result changed failed msg diff] in Hc, Hf, Hm, Hd.
  rewrite Bool.orb_false_r in Hc, Hf.
  repeat split; assumption.
Qed.

Lemma template_result_sums_up_the_reports_witness :
  let a := [("templates_root", "/templates")] in
  let out := template_recursive.run sample.stat_root_only template_remote_failing
                                    sample.first_occurrences sample.template_local a tt in
  let reports := reports_of (template_recursive.happened out) in
  template_recursive.happened out <> []
  /\ changed (template_recursive.returned out)
     = existsb (fun o => is_True (o_changed o)) reports
  /\ failed (template_recursive.returned out)
     = existsb (fun o => is_True (o_failed o)) reports
  /\ msg (template_recursive.returned out)
     = fold_right String.append "" (map msg_line reports)
  /\ diff (template_recursive.returned out) = flat_map diff_entries reports.
Proof.
  cbv zeta. split; [vm_compute; discriminate|].
  apply (template_result_sums_up_the_reports
           sample.stat_root_only template_remote_failing
           sample.first_occurrences sample.template_local
           [("templates_root", "/templates")] tt).
  vm_compute. discriminate.
Defined.
